(** * Amendment system front-end: the QA discussion and QA workflow widgets

    A shallow embedding of
    - [frontend/src/components/qa/QAComments.js] (comment store, tree
      builder, threaded rendering, mention detection),
    - the [CommentReactions] widget (reaction toggle guard),
    - [frontend/src/components/QASection.js] (optimistic QA mutations),
    - the [WatcherButton] widget,
    followed by the properties established about them.

    JavaScript objects live in an explicit heap, so that aliasing between
    the comment map, the root array and the [replies] arrays is modelled as
    the code has it.  Asynchronous handlers take the outcome of the awaited
    request as an argument and return the requests they issued; where the
    rest of a body uses what it read before the [await], the handler takes
    the state of the render it was called in beside the state it writes.
    Each component is also modelled over time, with its calls suspended at
    their [await]s and answered in any order. *)

From Stdlib Require Import ZArith NArith List Bool Ascii String Lia.
From stdpp Require Import base option list gmap.

Set Warnings "-register-all".
Local Open Scope Z_scope.

(* ===================================================================== *)
(** ** JavaScript values used by the components *)
(* ===================================================================== *)

Module JS.

(** A JavaScript string is a sequence of UTF-16 code units. *)
Abbreviation jsstring := (list N).

(** String literals of the source (all of them ASCII). *)
Definition js (s : string) : jsstring :=
  map N_of_ascii (list_ascii_of_string s).

Definition AT : N := 64%N.      (* '@' *)
Definition SPACE : N := 32%N.   (* ' ' *)

(** WhiteSpace and LineTerminator code units, as [String.prototype.trim]
    strips them. *)
Definition is_whitespace (u : N) : bool :=
  (  (9 <=? u) && (u <=? 13)
  || (u =? 32) || (u =? 160) || (u =? 5760)
  || (8192 <=? u) && (u <=? 8202)
  || (u =? 8232) || (u =? 8233) || (u =? 8239) || (u =? 8287)
  || (u =? 12288) || (u =? 65279))%N.

Fixpoint trimStart (s : jsstring) : jsstring :=
  match s with
  | [] => []
  | u :: s' => if is_whitespace u then trimStart s' else s
  end.

Definition trimEnd (s : jsstring) : jsstring := rev (trimStart (rev s)).

Definition trim (s : jsstring) : jsstring := trimEnd (trimStart s).

(** [s.lastIndexOf(c)] for a one-unit needle: scans left to right keeping
    the last hit, [-1] when there is none. *)
Fixpoint lastIndexOf_from (s : jsstring) (c : N) (i found : Z) : Z :=
  match s with
  | [] => found
  | u :: s' => lastIndexOf_from s' c (i + 1) (if (u =? c)%N then i else found)
  end.

Definition lastIndexOf (s : jsstring) (c : N) : Z :=
  lastIndexOf_from s c 0 (-1).

(** [s.slice(start)]: a negative start counts from the end. *)
Definition slice (s : jsstring) (start : Z) : jsstring :=
  let len := Z.of_nat (length s) in
  let from := if start <? 0 then Z.max (len + start) 0 else start in
  drop (Z.to_nat from) s.

(** [s.includes(c)] for a one-unit needle. *)
Definition includes (s : jsstring) (c : N) : bool :=
  existsb (fun u => (u =? c)%N) s.

(** Truthiness: [0] is falsy among the numbers, [''] among the strings,
    and [null] always is. *)
Definition truthy_num (z : Z) : bool := negb (z =? 0).

Definition truthy_str (s : jsstring) : bool :=
  match s with [] => false | _ => true end.

Definition truthy_opt {A} (truthy : A -> bool) (v : option A) : bool :=
  match v with Some a => truthy a | None => false end.

(** The outcome of an awaited request. *)
Inductive Response (A : Type) : Type :=
| Resolved (data : A)
| Rejected.
Arguments Resolved {A} data.
Arguments Rejected {A}.

(** [arr.forEach(f)] for a callback that may throw: the first failure
    aborts the loop. *)
Fixpoint forEach {S A : Type} (f : S -> A -> option S)
         (arr : list A) (s : S) : option S :=
  match arr with
  | [] => Some s
  | x :: arr' =>
      match f s x with
      | Some s' => forEach f arr' s'
      | None => None
      end
  end.

(** [s.slice(0, stop)]: a negative stop counts from the end. *)
Definition slice_to (s : jsstring) (stop : Z) : jsstring :=
  let len := Z.of_nat (length s) in
  let to := if stop <? 0 then Z.max (len + stop) 0 else Z.min stop len in
  take (Z.to_nat to) s.

End JS.

Import JS.

(* ===================================================================== *)
(** ** QAComments.js *)
(* ===================================================================== *)

Module QAComments.

(** A comment record as the server returns it. *)
Record Comment : Type := mkComment {
  comment_id : Z;
  parent_comment_id : option Z;   (* null or the parent's id *)
  employee_id : Z;
  employee_name : jsstring;
  comment_text : jsstring;
  comment_type : jsstring;
  created_on : jsstring;
  is_edited : bool;
  reaction_summary : list (jsstring * Z)   (* emoji and count *)
}.

(** Heap addresses and heap objects.  An object carries the comment
    fields and, when the property is present, a [replies] array. *)
Abbreviation loc := nat.

Record Obj : Type := mkObj {
  fields : Comment;
  replies : option (list loc)
}.

Abbreviation heap := (list Obj).

#[global] Instance Comment_eq_dec : EqDecision Comment.
Proof. solve_decision. Defined.

#[global] Instance Obj_eq_dec : EqDecision Obj.
Proof. solve_decision. Defined.

(** [{ ...comment, replies: [] }]: a new object with the same fields and a
    new, empty array. *)
Definition clone (comment : Obj) : Obj :=
  {| fields := fields comment; replies := Some [] |}.

(** [if (comment.parent_comment_id)]: the parent id when it is truthy. *)
Definition truthy_parent (c : Comment) : option Z :=
  match parent_comment_id c with
  | Some p => if truthy_num p then Some p else None
  | None => None
  end.

Record BuildState : Type := mkBuild {
  bs_heap : heap;
  commentMap : gmap Z loc;
  rootComments : list loc
}.

(** First pass: [commentMap[comment.comment_id] = { ...comment, replies: [] }].
    The clone is allocated at the next free address. *)
Definition first_pass (st : BuildState) (comment : loc) : option BuildState :=
  match bs_heap st !! comment with
  | None => None
  | Some o =>
      Some {| bs_heap := bs_heap st ++ [clone o];
              commentMap := <[comment_id (fields o) := length (bs_heap st)]> (commentMap st);
              rootComments := rootComments st |}
  end.

(** [parent.replies.push(node)] *)
Definition push_reply (h : heap) (parent node : loc) : option heap :=
  match h !! parent with
  | None => None
  | Some p =>
      match replies p with
      | None => None
      | Some rs => Some (<[parent := {| fields := fields p; replies := Some (rs ++ [node]) |}]> h)
      end
  end.

(** Second pass: a comment with a truthy parent id is pushed onto its
    parent's replies when [commentMap] has the parent, and is skipped
    when it has not; any other comment is pushed onto the roots.
    [commentMap[comment.comment_id]] is read only where the source reads
    it; it is always present, the first pass having run over the same
    array (lemma [index_ids_present]). *)
Definition second_pass (st : BuildState) (comment : loc) : option BuildState :=
  match bs_heap st !! comment with
  | None => None
  | Some o =>
      match truthy_parent (fields o) with
      | Some pid =>
          match commentMap st !! pid with
          | Some parent =>
              match commentMap st !! comment_id (fields o) with
              | Some node =>
                  match push_reply (bs_heap st) parent node with
                  | Some h' =>
                      Some {| bs_heap := h'; commentMap := commentMap st;
                              rootComments := rootComments st |}
                  | None => None
                  end
              | None => None
              end
          | None => Some st
          end
      | None =>
          match commentMap st !! comment_id (fields o) with
          | Some node =>
              Some {| bs_heap := bs_heap st; commentMap := commentMap st;
                      rootComments := rootComments st ++ [node] |}
          | None => None
          end
      end
  end.

(** The two passes of [buildCommentTree(comments)]: the heap, the map and
    the roots when [return rootComments] is reached. *)
Definition buildCommentTree_passes (h : heap) (comments : list loc)
  : option BuildState :=
  match forEach first_pass comments
          {| bs_heap := h; commentMap := ∅; rootComments := [] |} with
  | None => None
  | Some st1 => forEach second_pass comments st1
  end.

(** [buildCommentTree(comments)]: the heap after the call and the returned
    array of roots. *)
Definition buildCommentTree (h : heap) (comments : list loc)
  : option (heap * list loc) :=
  match buildCommentTree_passes h comments with
  | None => None
  | Some st => Some (bs_heap st, rootComments st)
  end.

(** The array [comments] of the component state, freshly loaded: the
    record of index [i] sits at address [i]. *)
Definition records (cs : list Comment) : heap :=
  map (fun c => {| fields := c; replies := None |}) cs.

Definition addresses (cs : list Comment) : list loc := seq 0 (length cs).

Definition buildTree_passes (cs : list Comment) : option BuildState :=
  buildCommentTree_passes (records cs) (addresses cs).

Definition buildTree (cs : list Comment) : option (heap * list loc) :=
  buildCommentTree (records cs) (addresses cs).

(** The forest a heap holds below an address, read back as a value. *)
Inductive CommentNode : Type :=
| Node (c : Comment) (children : list CommentNode).

Fixpoint node_at (fuel : nat) (h : heap) (l : loc) : option CommentNode :=
  match fuel with
  | O => None
  | S fuel' =>
      match h !! l with
      | None => None
      | Some o =>
          match mapM (node_at fuel' h) (default [] (replies o)) with
          | Some kids => Some (Node (fields o) kids)
          | None => None
          end
      end
  end.

Definition forest_at (fuel : nat) (h : heap) (roots : list loc)
  : option (list CommentNode) :=
  mapM (node_at fuel h) roots.

(** What [ThreadedComment] renders: the comment's box, indented by
    [depth * 30] pixels, and below it the boxes of its replies. *)
Inductive Element : Type :=
| QaComment (marginLeft : Z) (comment : Comment) (nested : list Element).

(** [ThreadedComment({ comment, depth })].  The recursion follows the
    [replies] references through the heap; [fuel] bounds the number of
    nested calls and [None] means it was not enough. *)
Fixpoint ThreadedComment (fuel : nat) (h : heap) (comment : loc) (depth : Z)
  : option Element :=
  match fuel with
  | O => None
  | S fuel' =>
      match h !! comment with
      | None => None
      | Some o =>
          let rs := default [] (replies o) in
          match
            (if (0 <? Z.of_nat (length rs))
             then mapM (fun reply => ThreadedComment fuel' h reply (depth + 1)) rs
             else Some [])
          with
          | Some nested => Some (QaComment (depth * 30) (fields o) nested)
          | None => None
          end
      end
  end.

(** [threadedComments.map(comment => <ThreadedComment depth={0} />)] *)
Definition render_thread (fuel : nat) (h : heap) (roots : list loc)
  : option (list Element) :=
  mapM (fun comment => ThreadedComment fuel h comment 0) roots.

(** *** The component state and its handlers *)

(** The text field a change or a mention belongs to:
    ['new'], ['reply'] or ['edit']. *)
Inductive Field : Type := FieldNew | FieldReply | FieldEdit.

(** An entry of the employee search. *)
Record Employee : Type := mkEmployee {
  e_employee_id : Z;
  e_employee_name : jsstring
}.

(** The [useState] cells of the component. *)
Record State : Type := mkState {
  comments : list Comment;
  loading : bool;
  error : option jsstring;
  newComment : jsstring;
  commentType : jsstring;
  submitting : bool;
  editingCommentId : option Z;
  editText : jsstring;
  replyingToId : option Z;
  replyText : jsstring;
  showMentionSuggestions : bool;
  mentionSuggestions : list Employee;
  mentionQuery : jsstring;
  activeMentionField : option Field
}.

(** The setters [setComments], [setLoading], ... *)
Definition setComments (v : list Comment) (st : State) : State :=
  {| comments := v; loading := loading st; error := error st; newComment
     := newComment st; commentType := commentType st; submitting :=
     submitting st; editingCommentId := editingCommentId st; editText :=
     editText st; replyingToId := replyingToId st; replyText :=
     replyText st; showMentionSuggestions := showMentionSuggestions st;
     mentionSuggestions := mentionSuggestions st; mentionQuery :=
     mentionQuery st; activeMentionField := activeMentionField st |}.

Definition setLoading (v : bool) (st : State) : State :=
  {| comments := comments st; loading := v; error := error st;
     newComment := newComment st; commentType := commentType st;
     submitting := submitting st; editingCommentId := editingCommentId
     st; editText := editText st; replyingToId := replyingToId st;
     replyText := replyText st; showMentionSuggestions :=
     showMentionSuggestions st; mentionSuggestions := mentionSuggestions
     st; mentionQuery := mentionQuery st; activeMentionField :=
     activeMentionField st |}.

Definition setError (v : option jsstring) (st : State) : State :=
  {| comments := comments st; loading := loading st; error := v;
     newComment := newComment st; commentType := commentType st;
     submitting := submitting st; editingCommentId := editingCommentId
     st; editText := editText st; replyingToId := replyingToId st;
     replyText := replyText st; showMentionSuggestions :=
     showMentionSuggestions st; mentionSuggestions := mentionSuggestions
     st; mentionQuery := mentionQuery st; activeMentionField :=
     activeMentionField st |}.

Definition setNewComment (v : jsstring) (st : State) : State :=
  {| comments := comments st; loading := loading st; error := error st;
     newComment := v; commentType := commentType st; submitting :=
     submitting st; editingCommentId := editingCommentId st; editText :=
     editText st; replyingToId := replyingToId st; replyText :=
     replyText st; showMentionSuggestions := showMentionSuggestions st;
     mentionSuggestions := mentionSuggestions st; mentionQuery :=
     mentionQuery st; activeMentionField := activeMentionField st |}.

Definition setCommentType (v : jsstring) (st : State) : State :=
  {| comments := comments st; loading := loading st; error := error st;
     newComment := newComment st; commentType := v; submitting :=
     submitting st; editingCommentId := editingCommentId st; editText :=
     editText st; replyingToId := replyingToId st; replyText :=
     replyText st; showMentionSuggestions := showMentionSuggestions st;
     mentionSuggestions := mentionSuggestions st; mentionQuery :=
     mentionQuery st; activeMentionField := activeMentionField st |}.

Definition setSubmitting (v : bool) (st : State) : State :=
  {| comments := comments st; loading := loading st; error := error st;
     newComment := newComment st; commentType := commentType st;
     submitting := v; editingCommentId := editingCommentId st; editText
     := editText st; replyingToId := replyingToId st; replyText :=
     replyText st; showMentionSuggestions := showMentionSuggestions st;
     mentionSuggestions := mentionSuggestions st; mentionQuery :=
     mentionQuery st; activeMentionField := activeMentionField st |}.

Definition setEditingCommentId (v : option Z) (st : State) : State :=
  {| comments := comments st; loading := loading st; error := error st;
     newComment := newComment st; commentType := commentType st;
     submitting := submitting st; editingCommentId := v; editText :=
     editText st; replyingToId := replyingToId st; replyText :=
     replyText st; showMentionSuggestions := showMentionSuggestions st;
     mentionSuggestions := mentionSuggestions st; mentionQuery :=
     mentionQuery st; activeMentionField := activeMentionField st |}.

Definition setEditText (v : jsstring) (st : State) : State :=
  {| comments := comments st; loading := loading st; error := error st;
     newComment := newComment st; commentType := commentType st;
     submitting := submitting st; editingCommentId := editingCommentId
     st; editText := v; replyingToId := replyingToId st; replyText :=
     replyText st; showMentionSuggestions := showMentionSuggestions st;
     mentionSuggestions := mentionSuggestions st; mentionQuery :=
     mentionQuery st; activeMentionField := activeMentionField st |}.

Definition setReplyingToId (v : option Z) (st : State) : State :=
  {| comments := comments st; loading := loading st; error := error st;
     newComment := newComment st; commentType := commentType st;
     submitting := submitting st; editingCommentId := editingCommentId
     st; editText := editText st; replyingToId := v; replyText :=
     replyText st; showMentionSuggestions := showMentionSuggestions st;
     mentionSuggestions := mentionSuggestions st; mentionQuery :=
     mentionQuery st; activeMentionField := activeMentionField st |}.

Definition setReplyText (v : jsstring) (st : State) : State :=
  {| comments := comments st; loading := loading st; error := error st;
     newComment := newComment st; commentType := commentType st;
     submitting := submitting st; editingCommentId := editingCommentId
     st; editText := editText st; replyingToId := replyingToId st;
     replyText := v; showMentionSuggestions := showMentionSuggestions
     st; mentionSuggestions := mentionSuggestions st; mentionQuery :=
     mentionQuery st; activeMentionField := activeMentionField st |}.

Definition setShowMentionSuggestions (v : bool) (st : State) : State :=
  {| comments := comments st; loading := loading st; error := error st;
     newComment := newComment st; commentType := commentType st;
     submitting := submitting st; editingCommentId := editingCommentId
     st; editText := editText st; replyingToId := replyingToId st;
     replyText := replyText st; showMentionSuggestions := v;
     mentionSuggestions := mentionSuggestions st; mentionQuery :=
     mentionQuery st; activeMentionField := activeMentionField st |}.

Definition setMentionSuggestions (v : list Employee) (st : State) : State :=
  {| comments := comments st; loading := loading st; error := error st;
     newComment := newComment st; commentType := commentType st;
     submitting := submitting st; editingCommentId := editingCommentId
     st; editText := editText st; replyingToId := replyingToId st;
     replyText := replyText st; showMentionSuggestions :=
     showMentionSuggestions st; mentionSuggestions := v; mentionQuery :=
     mentionQuery st; activeMentionField := activeMentionField st |}.

Definition setMentionQuery (v : jsstring) (st : State) : State :=
  {| comments := comments st; loading := loading st; error := error st;
     newComment := newComment st; commentType := commentType st;
     submitting := submitting st; editingCommentId := editingCommentId
     st; editText := editText st; replyingToId := replyingToId st;
     replyText := replyText st; showMentionSuggestions :=
     showMentionSuggestions st; mentionSuggestions := mentionSuggestions
     st; mentionQuery := v; activeMentionField := activeMentionField st |}.

Definition setActiveMentionField (v : option Field) (st : State) : State :=
  {| comments := comments st; loading := loading st; error := error st;
     newComment := newComment st; commentType := commentType st;
     submitting := submitting st; editingCommentId := editingCommentId
     st; editText := editText st; replyingToId := replyingToId st;
     replyText := replyText st; showMentionSuggestions :=
     showMentionSuggestions st; mentionSuggestions := mentionSuggestions
     st; mentionQuery := mentionQuery st; activeMentionField := v |}.

(** The requests the component sends through [apiClient]. *)
Inductive Request : Type :=
| GetComments (amendmentId : Z)
| SearchEmployees (q : jsstring) (limit : Z)
| PostComment (amendmentId employeeId : Z) (text type : jsstring)
              (parent_comment_id : option Z)
| PatchComment (commentId : Z) (text : jsstring)
| DeleteComment (commentId : Z).

(** A handler run to its end: the state it leaves and the requests it
    sent, in order. *)
Definition Run : Type := State * list Request.

(** [loadComments()]; [items] is [response.data.items], which may be
    missing. *)
Definition loadComments (amendmentId : Z)
           (resp : Response (option (list Comment))) (st : State) : Run :=
  match resp with
  | Resolved items =>
      (setLoading false (setComments (default [] items) st),
       [GetComments amendmentId])
  | Rejected =>
      (setLoading false (setError (Some (js "Failed to load comments")) st),
       [GetComments amendmentId])
  end.

(** [searchEmployees(query)] *)
Definition searchEmployees (query : jsstring)
           (resp : Response (list Employee)) (st : State) : Run :=
  if negb (truthy_str query) || (Z.of_nat (length query) <? 1) then
    (setShowMentionSuggestions false st, [])
  else
    match resp with
    | Resolved employees =>
        (setShowMentionSuggestions (0 <? Z.of_nat (length employees))
           (setMentionSuggestions employees st),
         [SearchEmployees query 10])
    | Rejected => (st, [SearchEmployees query 10])
    end.

(** [handleTextChange(text, field)] *)
Definition handleTextChange (text : jsstring) (field : Field)
           (resp : Response (list Employee)) (st : State) : Run :=
  let st1 :=
    match field with
    | FieldNew => setNewComment text st
    | FieldReply => setReplyText text st
    | FieldEdit => setEditText text st
    end in
  let lastAtIndex := lastIndexOf text AT in
  if negb (lastAtIndex =? -1) then
    let afterAt := slice text (lastAtIndex + 1) in
    if negb (includes afterAt SPACE) && (0 <? Z.of_nat (length afterAt)) then
      searchEmployees afterAt resp
        (setActiveMentionField (Some field) (setMentionQuery afterAt st1))
    else (setShowMentionSuggestions false st1, [])
  else (setShowMentionSuggestions false st1, []).

(** [handleSubmitComment(e, parentCommentId)]; [currentUser] is the
    employee id of the user, when there is one. *)
Definition handleSubmitComment (amendmentId : Z) (currentUser : option Z)
           (parentCommentId : option Z)
           (post : Response unit)
           (reload : Response (option (list Comment))) (st : State) : Run :=
  let textToSubmit :=
    if truthy_opt truthy_num parentCommentId then replyText st else newComment st in
  if negb (truthy_str (trim textToSubmit)) then (st, [])
  else
    match currentUser with
    | Some employeeId =>
        if truthy_num employeeId then
          let st1 := setError None (setSubmitting true st) in
          let request :=
            PostComment amendmentId employeeId textToSubmit (commentType st)
              (if truthy_opt truthy_num parentCommentId then parentCommentId else None) in
          match post with
          | Resolved _ =>
              let '(st2, sent) := loadComments amendmentId reload st1 in
              let st3 :=
                if truthy_opt truthy_num parentCommentId
                then setReplyingToId None (setReplyText [] st2)
                else setCommentType (js "General") (setNewComment [] st2) in
              (setSubmitting false st3, request :: sent)
          | Rejected =>
              (setSubmitting false
                 (setError (Some (js "Failed to create comment")) st1),
               [request])
          end
        else (setError (Some (js "You must be logged in to comment")) st, [])
    | None => (setError (Some (js "You must be logged in to comment")) st, [])
    end.

(** [handleEditComment(commentId)].  The function belongs to a render:
    [closure] is the state of that render, whose [editText] and [comments]
    the body reads.  [resp] is the answer to the [PATCH], carrying
    [response.data], and [st] is the state of the component when the answer
    arrives: the setters after the [await] write that state, and
    [setComments] is given the list of the closure, patched. *)
Definition handleEditComment (commentId : Z) (closure : State)
           (resp : Response Comment) (st : State) : Run :=
  if negb (truthy_str (trim (editText closure))) then (st, [])
  else
    match resp with
    | Resolved data =>
        (setEditText []
           (setEditingCommentId None
              (setComments
                 (map (fun c => if comment_id c =? commentId then data else c)
                      (comments closure)) st)),
         [PatchComment commentId (editText closure)])
    | Rejected =>
        (setError (Some (js "Failed to update comment")) st,
         [PatchComment commentId (editText closure)])
    end.

(** [handleDeleteComment(commentId)]; [confirmed] is the answer to
    [window.confirm].  As above, [closure] is the state of the render the
    function belongs to, whose [comments] the body filters, and [st] the
    state when the [DELETE] is answered. *)
Definition handleDeleteComment (commentId : Z) (confirmed : bool)
           (closure : State) (resp : Response unit) (st : State) : Run :=
  if negb confirmed then (st, [])
  else
    match resp with
    | Resolved _ =>
        (setComments
           (filter (fun c => comment_id c <> commentId) (comments closure)) st,
         [DeleteComment commentId])
    | Rejected =>
        (setError (Some (js "Failed to delete comment")) st,
         [DeleteComment commentId])
    end.

(** [handleSubmitComment] cut at its two [await]s, for the component over
    time: the body up to [await apiClient.post(...)], with the request it
    sends if it gets that far; what follows when the [POST] is answered
    ([true] when the body goes on to [await loadComments()]); and what
    follows when the reload has settled, [finally] block included. *)
Definition submit_clicked (amendmentId : Z) (currentUser : option Z)
           (parentCommentId : option Z) (st : State) : Run :=
  let textToSubmit :=
    if truthy_opt truthy_num parentCommentId then replyText st else newComment st in
  if negb (truthy_str (trim textToSubmit)) then (st, [])
  else
    match currentUser with
    | Some employeeId =>
        if truthy_num employeeId then
          (setError None (setSubmitting true st),
           [PostComment amendmentId employeeId textToSubmit (commentType st)
              (if truthy_opt truthy_num parentCommentId then parentCommentId else None)])
        else (setError (Some (js "You must be logged in to comment")) st, [])
    | None => (setError (Some (js "You must be logged in to comment")) st, [])
    end.

Definition submit_posted (post : Response unit) (st : State) : State * bool :=
  match post with
  | Resolved _ => (st, true)
  | Rejected =>
      (setSubmitting false (setError (Some (js "Failed to create comment")) st),
       false)
  end.

Definition submit_reloaded (amendmentId : Z) (parentCommentId : option Z)
           (reload : Response (option (list Comment))) (st : State) : Run :=
  let '(st2, sent) := loadComments amendmentId reload st in
  let st3 :=
    if truthy_opt truthy_num parentCommentId
    then setReplyingToId None (setReplyText [] st2)
    else setCommentType (js "General") (setNewComment [] st2) in
  (setSubmitting false st3, sent).


(** *** The builder's result as functions of the comments read

    [index_ids b os m] is the map the first pass leaves when it starts
    with [m] and the next free address is [b]; [kids] and [roots_of]
    collect what the second pass pushes while going through [done]. *)
Fixpoint index_ids (b : nat) (os : list Obj) (m : gmap Z loc) : gmap Z loc :=
  match os with
  | [] => m
  | o :: os' => index_ids (S b) os' (<[comment_id (fields o) := b]> m)
  end.

Definition pushed (cmap : gmap Z loc) (o : Obj) : option (loc * loc) :=
  match truthy_parent (fields o) with
  | Some pid =>
      match cmap !! pid, cmap !! comment_id (fields o) with
      | Some parent, Some node => Some (parent, node)
      | _, _ => None
      end
  | None => None
  end.

Definition pushed_to (cmap : gmap Z loc) (L : loc) (o : Obj) : option loc :=
  match pushed cmap o with
  | Some (parent, node) => if decide (parent = L) then Some node else None
  | None => None
  end.

Definition kids (cmap : gmap Z loc) (L : loc) (done : list Obj) : list loc :=
  omap (pushed_to cmap L) done.

Definition root_of (cmap : gmap Z loc) (o : Obj) : option loc :=
  match truthy_parent (fields o) with
  | Some _ => None
  | None => cmap !! comment_id (fields o)
  end.

Definition roots_of (cmap : gmap Z loc) (done : list Obj) : list loc :=
  omap (root_of cmap) done.

Definition nodes (cmap : gmap Z loc) (b : nat) (all done : list Obj) : heap :=
  imap (fun i o => {| fields := fields o;
                      replies := Some (kids cmap (b + i)%nat done) |}) all.

(** [render_node depth node]: the element [ThreadedComment] draws for a
    finite tree. *)
Fixpoint render_node (depth : Z) (n : CommentNode) : Element :=
  match n with
  | Node c children =>
      QaComment (depth * 30) c (map (render_node (depth + 1)) children)
  end.

(** The comments of a forest, parents before children. *)
Fixpoint comments_of (n : CommentNode) : list Comment :=
  match n with
  | Node c children => c :: flat_map comments_of children
  end.

(** The largest indentation in a rendered element. *)
Fixpoint max_margin (e : Element) : Z :=
  match e with
  | QaComment m _ nested => fold_right Z.max m (map max_margin nested)
  end.

(** *** Vocabulary for the properties of the builder *)

(** The array [ls] holds, in order, the objects [os] of the heap. *)
Definition reads (h : heap) (ls : list loc) (os : list Obj) : Prop :=
  Forall2 (fun l o => h !! l = Some o) ls os.

Definition ids (os : list Obj) : list Z :=
  map (fun o => comment_id (fields o)) os.

(** The parent pointer of a node address, read off the comment the node
    clones: the node is the one of index [L - base]. *)
Definition up_of (base : nat) (os : list Obj) (cmap : gmap Z loc) (L : loc)
  : option loc :=
  match os !! (L - base)%nat with
  | Some o =>
      match truthy_parent (fields o) with
      | Some pid => cmap !! pid
      | None => None
      end
  | None => None
  end.

Definition root_at (base : nat) (os : list Obj) (L : loc) : Prop :=
  exists j o, L = (base + j)%nat /\ os !! j = Some o /\
              truthy_parent (fields o) = None.

(** [chain (L :: p)]: following [up] from the node [L] goes through [p] and
    ends in a root, all inside the region [[base, base + n)]. *)
Inductive chain (base n : nat) (up : loc -> option loc) (is_root : loc -> Prop)
  : list loc -> Prop :=
| chain_root L :
    is_root L -> (base <= L < base + n)%nat -> chain base n up is_root [L]
| chain_step L L' p :
    up L = Some L' -> (base <= L < base + n)%nat ->
    chain base n up is_root (L' :: p) ->
    chain base n up is_root (L :: L' :: p).

(** *** Sample inputs *)

(** A comment with the given id and parent id, and the payload of [c]. *)
Definition with_ids (id : Z) (parent : option Z) (c : Comment) : Comment :=
  {| comment_id := id; parent_comment_id := parent;
     employee_id := employee_id c; employee_name := employee_name c;
     comment_text := comment_text c; comment_type := comment_type c;
     created_on := created_on c; is_edited := is_edited c;
     reaction_summary := reaction_summary c |}.

Definition sample (id : Z) (parent : option Z) : Comment :=
  mkComment id parent 7 (js "Ann") (js "Looks fine") (js "General")
    (js "2026-01-05T10:00:00") false [].

(** [n] comments with ids [1..n], each a reply to the one before it. *)
Definition reply_chain (n : nat) : list Comment :=
  map (fun k => sample (Z.of_nat (S k))
                  (match k with O => None | S _ => Some (Z.of_nat k) end))
      (seq 0 n).

(** The state of a component that has just been mounted. *)
Definition initial : State :=
  {| comments := []; loading := true; error := None; newComment := [];
     commentType := js "General"; submitting := false;
     editingCommentId := None; editText := []; replyingToId := None;
     replyText := []; showMentionSuggestions := false;
     mentionSuggestions := []; mentionQuery := [];
     activeMentionField := None |}.

(** The same with comments loaded and an edit under way. *)
Definition editing (cs : list Comment) (id : Z) (text : jsstring) : State :=
  setEditText text (setEditingCommentId (Some id)
    (setLoading false (setComments cs initial))).

(** *** Further vocabulary: which comments end up in the forest *)

(** [reaches_root cs c]: following the parent ids from [c] through [cs]
    ends at a comment whose parent id is null or 0. *)
Inductive reaches_root (cs : list Comment) : Comment -> Prop :=
| reaches_here c :
    c ∈ cs -> truthy_parent c = None -> reaches_root cs c
| reaches_up c parent :
    c ∈ cs -> parent ∈ cs ->
    truthy_parent c = Some (comment_id parent) ->
    reaches_root cs parent -> reaches_root cs c.

(** The comments of a forest. *)
Definition forest_comments (forest : list CommentNode) : list Comment :=
  flat_map comments_of forest.

(** Two lists of comments with the same ids and the same truthy parent
    ids, position by position. *)
Definition same_links (cs cs' : list Comment) : Prop :=
  Forall2 (fun c c' => comment_id c = comment_id c' /\
                       truthy_parent c = truthy_parent c') cs cs'.

(** [below ... s r c]: the comment [c] sits at a node from which the
    parent pointers lead to [r] and on through [s] to a root. *)
Definition below (h : heap) (base n : nat) (up : loc -> option loc)
           (is_root : loc -> Prop) (s : list loc) (r : loc) (c : Comment) : Prop :=
  exists q L o,
    chain base n up is_root (q ++ r :: s) /\
    head (q ++ r :: s) = Some L /\
    h !! L = Some o /\ fields o = c.

(** *** The remaining handlers, and the component as an event loop *)

#[global] Instance Field_eq_dec : EqDecision Field.
Proof. solve_decision. Defined.

(** The draft of a text field and its setter. *)
Definition field_text (field : Field) (st : State) : jsstring :=
  match field with
  | FieldNew => newComment st
  | FieldReply => replyText st
  | FieldEdit => editText st
  end.

Definition set_field_text (field : Field) (text : jsstring) (st : State) : State :=
  match field with
  | FieldNew => setNewComment text st
  | FieldReply => setReplyText text st
  | FieldEdit => setEditText text st
  end.

(** [insertMention(employee)].  Without an active field [updateFn] is
    [null] and calling it throws. *)
Definition insertMention (employee : Employee) (st : State) : option State :=
  match activeMentionField st with
  | None => None
  | Some field =>
      let currentText := field_text field st in
      let lastAtIndex := lastIndexOf currentText AT in
      let newText :=
        slice_to currentText lastAtIndex
        ++ [AT] ++ e_employee_name employee ++ [SPACE] in
      Some (setActiveMentionField None
              (setShowMentionSuggestions false
                 (set_field_text field newText st)))
  end.

(** [handleReply(commentId)], [cancelReply()], [startEditComment(comment)],
    [cancelEdit()] *)
Definition handleReply (commentId : Z) (st : State) : State :=
  setReplyText [] (setReplyingToId (Some commentId) st).

Definition cancelReply (st : State) : State :=
  setReplyText [] (setReplyingToId None st).

Definition startEditComment (comment : Comment) (st : State) : State :=
  setEditText (comment_text comment)
    (setEditingCommentId (Some (comment_id comment)) st).

Definition cancelEdit (st : State) : State :=
  setEditText [] (setEditingCommentId None st).

(** *** The component over time

    A handler that awaits a request stops there.  The rest of its body runs
    when the request is answered, and writes the state the component has
    by then; what it reads from the state is what the render in which it was
    called had.  A [Call] is a handler stopped at an [await], with what the
    rest of its body uses: [searchEmployees] at its [GET],
    [handleSubmitComment] at its [POST] and then inside
    [await loadComments()], [handleEditComment] at its [PATCH] and
    [handleDeleteComment] at its [DELETE], the last two with the state of
    the render they were called in. *)
Inductive Call : Type :=
| SearchCall (query : jsstring)
| SubmitCall (parentCommentId : option Z)
| ReloadCall (parentCommentId : option Z)
| EditCall (commentId : Z) (closure : State)
| DeleteCall (commentId : Z) (closure : State).

(** How a request is answered. *)
Inductive Answer : Type :=
| Employees (resp : Response (list Employee))
| Posted (resp : Response unit)
| Items (resp : Response (option (list Comment)))
| Patched (resp : Response Comment)
| Deleted (resp : Response unit).

(** The component: its state and the calls under way. *)
Record Sys : Type := mkSys {
  page : State;
  calls : list Call
}.

(** What happens to the component.  [Loaded] is the answer to the [GET] of
    [loadComments] when the mount effect or the 30 second timer called it:
    that body reads nothing of the state and writes only once the answer
    is there.  The other events are what the user does, and [Answered] is
    the answer to the request of the call at the given position. *)
Inductive Event : Type :=
| Loaded (resp : Response (option (list Comment)))
| TextChanged (text : jsstring) (field : Field)
| MentionPicked (employee : Employee)
| TypeSelected (value : jsstring)
| SubmitClicked (parentCommentId : option Z)
| ReplyClicked (commentId : Z)
| ReplyCancelled
| EditStarted (comment : Comment)
| EditCancelled
| EditSaveClicked (commentId : Z)
| DeleteClicked (commentId : Z) (confirmed : bool)
| Answered (call : nat) (answer : Answer).

(** The props: [amendmentId] and [currentUser?.employee_id]. *)
Record Props : Type := mkProps {
  amendmentId : Z;
  currentUser : option Z
}.

(** The searches among the requests a handler sent. *)
Definition searches (sent : list Request) : list Call :=
  omap (fun r => match r with
                 | SearchEmployees q _ => Some (SearchCall q)
                 | _ => None
                 end) sent.

(** A call whose request is answered.  An answer of the wrong kind for the
    call is not an event of the component and changes nothing. *)
Definition answered (props : Props) (i : nat) (answer : Answer) (s : Sys) : Sys :=
  match calls s !! i with
  | None => s
  | Some call =>
      match call, answer with
      | SearchCall query, Employees resp =>
          {| page := fst (searchEmployees query resp (page s));
             calls := delete i (calls s) |}
      | SubmitCall parent, Posted post =>
          let '(st, reloads) := submit_posted post (page s) in
          {| page := st;
             calls := if reloads then <[i := ReloadCall parent]> (calls s)
                      else delete i (calls s) |}
      | ReloadCall parent, Items reload =>
          {| page := fst (submit_reloaded (amendmentId props) parent reload (page s));
             calls := delete i (calls s) |}
      | EditCall commentId closure, Patched resp =>
          {| page := fst (handleEditComment commentId closure resp (page s));
             calls := delete i (calls s) |}
      | DeleteCall commentId closure, Deleted resp =>
          {| page := fst (handleDeleteComment commentId true closure resp (page s));
             calls := delete i (calls s) |}
      | _, _ => s
      end
  end.

(** One event.  The handlers of the user's actions are those of the last
    render, so they read the state there is.  A text change leaves, until
    its search is answered, the state it leaves when the search fails (the
    [catch] block only logs).  A handler that throws leaves the state as
    it was. *)
Definition step (props : Props) (s : Sys) (ev : Event) : Sys :=
  match ev with
  | Loaded resp =>
      {| page := fst (loadComments (amendmentId props) resp (page s));
         calls := calls s |}
  | TextChanged text field =>
      let '(st, sent) := handleTextChange text field Rejected (page s) in
      {| page := st; calls := calls s ++ searches sent |}
  | MentionPicked employee =>
      {| page := default (page s) (insertMention employee (page s));
         calls := calls s |}
  | TypeSelected value =>
      {| page := setCommentType value (page s); calls := calls s |}
  | SubmitClicked parent =>
      let '(st, sent) :=
        submit_clicked (amendmentId props) (currentUser props) parent (page s) in
      {| page := st;
         calls := calls s ++ match sent with [] => [] | _ => [SubmitCall parent] end |}
  | ReplyClicked commentId =>
      {| page := handleReply commentId (page s); calls := calls s |}
  | ReplyCancelled => {| page := cancelReply (page s); calls := calls s |}
  | EditStarted comment =>
      {| page := startEditComment comment (page s); calls := calls s |}
  | EditCancelled => {| page := cancelEdit (page s); calls := calls s |}
  | EditSaveClicked commentId =>
      if negb (truthy_str (trim (editText (page s)))) then s
      else {| page := page s; calls := calls s ++ [EditCall commentId (page s)] |}
  | DeleteClicked commentId confirmed =>
      if negb confirmed then s
      else {| page := page s; calls := calls s ++ [DeleteCall commentId (page s)] |}
  | Answered i answer => answered props i answer s
  end.

Definition run (props : Props) (evs : list Event) (s : Sys) : Sys :=
  fold_left (step props) evs s.

(** The component with the given state and no call under way, and the
    component as it is mounted. *)
Definition at_rest (st : State) : Sys := {| page := st; calls := [] |}.

Definition mounted : Sys := at_rest initial.

(** A server that answers as the component expects: the lists it sends
    have unique ids, and the record it returns for an edit has the id of
    the edited comment. *)
Definition server_ok (s : Sys) (ev : Event) : Prop :=
  match ev with
  | Loaded (Resolved (Some items)) => NoDup (map comment_id items)
  | Answered _ (Items (Resolved (Some items))) => NoDup (map comment_id items)
  | Answered i (Patched (Resolved data)) =>
      forall commentId closure,
        calls s !! i = Some (EditCall commentId closure) ->
        comment_id data = commentId
  | _ => True
  end.

(** ... all along a run. *)
Fixpoint served (props : Props) (evs : list Event) (s : Sys) : Prop :=
  match evs with
  | [] => True
  | ev :: evs' => server_ok s ev /\ served props evs' (step props s ev)
  end.

(** The event that starts a submit. *)
Definition is_submit (ev : Event) : bool :=
  match ev with SubmitClicked _ => true | _ => false end.

(** The events that can bring a new list: a load, a reload after a
    submit, an edit or a delete that the server answers with success. *)
Definition brings_list (ev : Event) : bool :=
  match ev with
  | Loaded (Resolved _) => true
  | Answered _ (Items (Resolved _)) => true
  | Answered _ (Patched (Resolved _)) => true
  | Answered _ (Deleted (Resolved _)) => true
  | _ => false
  end.

(** The ids are unique in the list of the state and in the list of the
    closure of every call under way. *)
Definition ids_unique (s : Sys) : Prop :=
  NoDup (map comment_id (comments (page s))) /\
  Forall (fun call => match call with
                      | EditCall _ closure | DeleteCall _ closure =>
                          NoDup (map comment_id (comments closure))
                      | _ => True
                      end) (calls s).

End QAComments.

Import QAComments.


(* ===================================================================== *)
(** ** CommentReactions *)
(* ===================================================================== *)

Module CommentReactions.

(** The emojis of the picker: thumbs up, thumbs down, heart, party popper,
    smile, rocket. *)
Definition availableEmojis : list jsstring :=
  [ [55357; 56397]; [55357; 56398]; [10084; 65039];
    [55356; 57225]; [55357; 56836]; [55357; 56960] ]%N.

(** A row of [GET /comments/:id/reactions]; the server sends the employee
    id as a number. *)
Record Reaction : Type := mkReaction {
  r_employee_id : Z;
  r_emoji : jsstring
}.

(** What [JSON.parse(localStorage.getItem('user') || '{}')] gives, with
    [{}] when parsing throws: [null], when the string "null" is stored, or
    a value whose [employee_id] is a number or is not one (missing, or of
    another type: [===] to the number of no row). *)
Inductive StoredUser : Type :=
| UserNull
| UserValue (employee_id : option Z).

(** The [useState] cells of one mounted widget. *)
Record Widget : Type := mkWidget {
  reactions : list (jsstring * Z);
  showPicker : bool;
  userReactions : list jsstring;
  loading : bool
}.

Definition setReactions (v : list (jsstring * Z)) (w : Widget) : Widget :=
  {| reactions := v; showPicker := showPicker w; userReactions :=
     userReactions w; loading := loading w |}.

Definition setShowPicker (v : bool) (w : Widget) : Widget :=
  {| reactions := reactions w; showPicker := v; userReactions :=
     userReactions w; loading := loading w |}.

Definition setUserReactions (v : list jsstring) (w : Widget) : Widget :=
  {| reactions := reactions w; showPicker := showPicker w; userReactions
     := v; loading := loading w |}.

Definition setLoading (v : bool) (w : Widget) : Widget :=
  {| reactions := reactions w; showPicker := showPicker w; userReactions
     := userReactions w; loading := v |}.

(** A widget as it is mounted: [useState(initialReactions)],
    [useState(false)], [useState(new Set())], [useState(false)]. *)
Definition mount (initialReactions : list (jsstring * Z)) : Widget :=
  {| reactions := initialReactions; showPicker := false;
     userReactions := []; loading := false |}.

(** [new Set(myReactions)]: the elements in the order in which they are
    first met, none twice. *)
Fixpoint Set_add_all (set l : list jsstring) : list jsstring :=
  match l with
  | [] => set
  | x :: l' => Set_add_all (if decide (x ∈ set) then set else set ++ [x]) l'
  end.

Definition new_Set (l : list jsstring) : list jsstring := Set_add_all [] l.

(** Where a call of [loadReactions] or [toggleReaction] is suspended:
    at [await apiClient.post(...)], or inside [loadReactions()] at the
    first or at the second [await apiClient.get(...)]. *)
Inductive Await : Type :=
| AwaitPost (emoji : jsstring)
| AwaitSummary
| AwaitUserReactions.

(** A suspended call.  It belongs to the widget that was mounted for
    [t_comment] by the render number [t_render] of the comment list, and it
    is either a call of [toggleReaction] or the [loadReactions()] of the
    mount effect. *)
Record Task : Type := mkTask {
  t_render : nat;
  t_comment : Z;
  t_toggle : bool;
  t_at : Await
}.

(** The reaction widgets of a comment list.  [ThreadedComment] is declared
    inside [QAComments] (QAComments.js, line 276), so it is a new component
    type at every render of [QAComments]: each render unmounts every
    [CommentReactions] and mounts a new one, with the state of [mount].
    [render] counts the renders, [widgets] are the widgets now mounted, by
    comment id, [tasks] the suspended calls of all widgets, mounted or not,
    and [storedUser] what the local storage holds. *)
Record Sys : Type := mkSys {
  render : nat;
  widgets : gmap Z Widget;
  tasks : list Task;
  storedUser : StoredUser
}.

(** How an awaited request settles. *)
Inductive Outcome : Type :=
| PostDone
| SummaryDone (reactions : option (list (jsstring * Z)))
| UserReactionsDone (data : list Reaction)
| Failed.

(** What happens: a click on an emoji of a comment, on its "add reaction"
    button or on the cross of its picker; a render of [QAComments], which
    shows the given comments with their [reaction_summary]; a change of the
    local storage; a request that settles. *)
Inductive Event : Type :=
| Click (commentId : Z) (emoji : jsstring)
| PickerClicked (commentId : Z)
| PickerClosed (commentId : Z)
| Rendered (shown : gmap Z (list (jsstring * Z)))
| Stored (user : StoredUser)
| Settle (task : nat) (outcome : Outcome).

(** The [loadReactions()] calls of the mount effects of a render. *)
Definition loads (n : nat) (shown : gmap Z (list (jsstring * Z))) : list Task :=
  (fun c => {| t_render := n; t_comment := c; t_toggle := false;
               t_at := AwaitSummary |}) <$> (map_to_list shown).*1.

(** [toggleReaction(emoji)] up to its first [await], run by the mounted
    widget of [commentId] on its current state: the buttons are rendered
    again, with new handlers, after every state change. *)
Definition toggleReaction (commentId : Z) (emoji : jsstring) (s : Sys) : Sys :=
  match widgets s !! commentId with
  | None => s
  | Some w =>
      if loading w then s
      else {| render := render s;
              widgets := <[commentId := setLoading true w]> (widgets s);
              tasks := tasks s ++ [{| t_render := render s; t_comment := commentId;
                                      t_toggle := true; t_at := AwaitPost emoji |}];
              storedUser := storedUser s |}
  end.

(** A setter called by a suspended call: it writes the widget the call
    belongs to, and does nothing once that widget is unmounted. *)
Definition write (t : Task) (f : Widget -> Widget) (s : Sys) : gmap Z Widget :=
  if (t_render t =? render s)%nat then alter f (t_comment t) (widgets s)
  else widgets s.

(** The end of a call.  A call of [toggleReaction] runs
    [setShowPicker(false)] when [closePicker], then the [finally] block. *)
Definition finish (task : nat) (t : Task) (closePicker : bool) (s : Sys) : Sys :=
  {| render := render s;
     widgets :=
       if t_toggle t
       then write t (fun w => setLoading false
                                (if closePicker then setShowPicker false w else w)) s
       else widgets s;
     tasks := delete task (tasks s);
     storedUser := storedUser s |}.

(** [userReactionsResponse.data.filter(r => r.employee_id ===
    currentUser.employee_id).map(r => r.emoji)]: with [currentUser] null
    the first call of the callback throws. *)
Definition myReactions (currentUser : StoredUser) (data : list Reaction)
  : option (list jsstring) :=
  match currentUser with
  | UserNull => match data with [] => Some [] | _ :: _ => None end
  | UserValue employee_id =>
      Some (map r_emoji
              (List.filter (fun r => match employee_id with
                                     | Some id => r_employee_id r =? id
                                     | None => false
                                     end) data))
  end.

Definition at_ (a : Await) (t : Task) : Task :=
  {| t_render := t_render t; t_comment := t_comment t; t_toggle := t_toggle t;
     t_at := a |}.

(** A suspended call resumes when its request settles.  [loadReactions]
    catches what its body throws, so [toggleReaction] goes on after it in
    every case. *)
Definition resume (task : nat) (outcome : Outcome) (s : Sys) : Sys :=
  match tasks s !! task with
  | None => s
  | Some t =>
      match t_at t, outcome with
      | AwaitPost _, PostDone =>
          {| render := render s; widgets := widgets s;
             tasks := <[task := at_ AwaitSummary t]> (tasks s);
             storedUser := storedUser s |}
      | AwaitPost _, Failed => finish task t false s
      | AwaitSummary, SummaryDone rs =>
          {| render := render s;
             widgets := write t (setReactions (default [] rs)) s;
             tasks := <[task := at_ AwaitUserReactions t]> (tasks s);
             storedUser := storedUser s |}
      | AwaitSummary, Failed => finish task t true s
      | AwaitUserReactions, UserReactionsDone data =>
          finish task t true
            {| render := render s;
               widgets :=
                 match myReactions (storedUser s) data with
                 | Some mine => write t (setUserReactions (new_Set mine)) s
                 | None => widgets s
                 end;
               tasks := tasks s;
               storedUser := storedUser s |}
      | AwaitUserReactions, Failed => finish task t true s
      | _, _ => s
      end
  end.

Definition fire (ev : Event) (s : Sys) : Sys :=
  match ev with
  | Click commentId emoji => toggleReaction commentId emoji s
  | PickerClicked commentId =>
      {| render := render s;
         widgets := alter (fun w => setShowPicker (negb (showPicker w)) w)
                          commentId (widgets s);
         tasks := tasks s; storedUser := storedUser s |}
  | PickerClosed commentId =>
      {| render := render s;
         widgets := alter (setShowPicker false) commentId (widgets s);
         tasks := tasks s; storedUser := storedUser s |}
  | Rendered shown =>
      {| render := S (render s);
         widgets := mount <$> shown;
         tasks := tasks s ++ loads (S (render s)) shown;
         storedUser := storedUser s |}
  | Stored user =>
      {| render := render s; widgets := widgets s; tasks := tasks s;
         storedUser := user |}
  | Settle task outcome => resume task outcome s
  end.

Definition run (evs : list Event) (s : Sys) : Sys :=
  fold_left (fun s ev => fire ev s) evs s.

(** The widgets right after the first render of the comment list. *)
Definition init (shown : gmap Z (list (jsstring * Z))) (user : StoredUser) : Sys :=
  {| render := 0; widgets := mount <$> shown; tasks := loads 0 shown;
     storedUser := user |}.

(** A call of [toggleReaction] of a widget that is mounted. *)
Definition live (s : Sys) (t : Task) : bool :=
  t_toggle t && (t_render t =? render s)%nat.

(** The comments whose mounted widget has a call of [toggleReaction]
    under way, and the comments of the [POST]s in flight, whichever widget
    sent them. *)
Definition busy (s : Sys) : list Z :=
  t_comment <$> filter (fun t => live s t = true) (tasks s).

Definition is_post (t : Task) : bool :=
  match t_at t with AwaitPost _ => true | _ => false end.

Definition posting (s : Sys) : list Z :=
  t_comment <$> filter (fun t => is_post t = true) (tasks s).

(** The guard at work within a widget: no mounted widget has two calls of
    [toggleReaction] under way, a mounted widget is loading exactly while
    it has one, and no call is of a render to come. *)
Definition guarded (s : Sys) : Prop :=
  NoDup (busy s) /\
  (forall c, c ∈ busy s -> loading <$> widgets s !! c = Some true) /\
  (forall c w, widgets s !! c = Some w -> loading w = true -> c ∈ busy s) /\
  Forall (fun t => (t_render t <= render s)%nat) (tasks s).

End CommentReactions.

(* ===================================================================== *)
(** ** QASection.js *)
(* ===================================================================== *)

Module QASection.

(** The [qaData] object. *)
Record QAData : Type := mkQAData {
  qa_status : jsstring;
  qa_assigned_id : option Z;
  qa_assigned_date : option jsstring;
  qa_started_date : option jsstring;
  qa_test_plan_check : bool;
  qa_test_release_notes_check : bool;
  qa_completed : bool;
  qa_signature : jsstring;
  qa_completed_date : option jsstring;
  qa_notes : jsstring;
  qa_test_plan_link : jsstring;
  qa_blocked_reason : jsstring;
  qa_overall_result : option jsstring
}.

(** [{ ...d, field: v }] *)
Definition with_qa_status (v : jsstring) (d : QAData) : QAData :=
  {| qa_status := v; qa_assigned_id := qa_assigned_id d;
     qa_assigned_date := qa_assigned_date d; qa_started_date :=
     qa_started_date d; qa_test_plan_check := qa_test_plan_check d;
     qa_test_release_notes_check := qa_test_release_notes_check d;
     qa_completed := qa_completed d; qa_signature := qa_signature d;
     qa_completed_date := qa_completed_date d; qa_notes := qa_notes d;
     qa_test_plan_link := qa_test_plan_link d; qa_blocked_reason :=
     qa_blocked_reason d; qa_overall_result := qa_overall_result d |}.

Definition with_qa_assigned_id (v : option Z) (d : QAData) : QAData :=
  {| qa_status := qa_status d; qa_assigned_id := v; qa_assigned_date :=
     qa_assigned_date d; qa_started_date := qa_started_date d;
     qa_test_plan_check := qa_test_plan_check d;
     qa_test_release_notes_check := qa_test_release_notes_check d;
     qa_completed := qa_completed d; qa_signature := qa_signature d;
     qa_completed_date := qa_completed_date d; qa_notes := qa_notes d;
     qa_test_plan_link := qa_test_plan_link d; qa_blocked_reason :=
     qa_blocked_reason d; qa_overall_result := qa_overall_result d |}.

Definition with_qa_assigned_date (v : option jsstring) (d : QAData) : QAData :=
  {| qa_status := qa_status d; qa_assigned_id := qa_assigned_id d;
     qa_assigned_date := v; qa_started_date := qa_started_date d;
     qa_test_plan_check := qa_test_plan_check d;
     qa_test_release_notes_check := qa_test_release_notes_check d;
     qa_completed := qa_completed d; qa_signature := qa_signature d;
     qa_completed_date := qa_completed_date d; qa_notes := qa_notes d;
     qa_test_plan_link := qa_test_plan_link d; qa_blocked_reason :=
     qa_blocked_reason d; qa_overall_result := qa_overall_result d |}.

Definition with_qa_started_date (v : option jsstring) (d : QAData) : QAData :=
  {| qa_status := qa_status d; qa_assigned_id := qa_assigned_id d;
     qa_assigned_date := qa_assigned_date d; qa_started_date := v;
     qa_test_plan_check := qa_test_plan_check d;
     qa_test_release_notes_check := qa_test_release_notes_check d;
     qa_completed := qa_completed d; qa_signature := qa_signature d;
     qa_completed_date := qa_completed_date d; qa_notes := qa_notes d;
     qa_test_plan_link := qa_test_plan_link d; qa_blocked_reason :=
     qa_blocked_reason d; qa_overall_result := qa_overall_result d |}.

Definition with_qa_test_plan_check (v : bool) (d : QAData) : QAData :=
  {| qa_status := qa_status d; qa_assigned_id := qa_assigned_id d;
     qa_assigned_date := qa_assigned_date d; qa_started_date :=
     qa_started_date d; qa_test_plan_check := v;
     qa_test_release_notes_check := qa_test_release_notes_check d;
     qa_completed := qa_completed d; qa_signature := qa_signature d;
     qa_completed_date := qa_completed_date d; qa_notes := qa_notes d;
     qa_test_plan_link := qa_test_plan_link d; qa_blocked_reason :=
     qa_blocked_reason d; qa_overall_result := qa_overall_result d |}.

Definition with_qa_test_release_notes_check (v : bool) (d : QAData) : QAData :=
  {| qa_status := qa_status d; qa_assigned_id := qa_assigned_id d;
     qa_assigned_date := qa_assigned_date d; qa_started_date :=
     qa_started_date d; qa_test_plan_check := qa_test_plan_check d;
     qa_test_release_notes_check := v; qa_completed := qa_completed d;
     qa_signature := qa_signature d; qa_completed_date :=
     qa_completed_date d; qa_notes := qa_notes d; qa_test_plan_link :=
     qa_test_plan_link d; qa_blocked_reason := qa_blocked_reason d;
     qa_overall_result := qa_overall_result d |}.

Definition with_qa_completed (v : bool) (d : QAData) : QAData :=
  {| qa_status := qa_status d; qa_assigned_id := qa_assigned_id d;
     qa_assigned_date := qa_assigned_date d; qa_started_date :=
     qa_started_date d; qa_test_plan_check := qa_test_plan_check d;
     qa_test_release_notes_check := qa_test_release_notes_check d;
     qa_completed := v; qa_signature := qa_signature d;
     qa_completed_date := qa_completed_date d; qa_notes := qa_notes d;
     qa_test_plan_link := qa_test_plan_link d; qa_blocked_reason :=
     qa_blocked_reason d; qa_overall_result := qa_overall_result d |}.

Definition with_qa_signature (v : jsstring) (d : QAData) : QAData :=
  {| qa_status := qa_status d; qa_assigned_id := qa_assigned_id d;
     qa_assigned_date := qa_assigned_date d; qa_started_date :=
     qa_started_date d; qa_test_plan_check := qa_test_plan_check d;
     qa_test_release_notes_check := qa_test_release_notes_check d;
     qa_completed := qa_completed d; qa_signature := v;
     qa_completed_date := qa_completed_date d; qa_notes := qa_notes d;
     qa_test_plan_link := qa_test_plan_link d; qa_blocked_reason :=
     qa_blocked_reason d; qa_overall_result := qa_overall_result d |}.

Definition with_qa_completed_date (v : option jsstring) (d : QAData) : QAData :=
  {| qa_status := qa_status d; qa_assigned_id := qa_assigned_id d;
     qa_assigned_date := qa_assigned_date d; qa_started_date :=
     qa_started_date d; qa_test_plan_check := qa_test_plan_check d;
     qa_test_release_notes_check := qa_test_release_notes_check d;
     qa_completed := qa_completed d; qa_signature := qa_signature d;
     qa_completed_date := v; qa_notes := qa_notes d; qa_test_plan_link
     := qa_test_plan_link d; qa_blocked_reason := qa_blocked_reason d;
     qa_overall_result := qa_overall_result d |}.

Definition with_qa_notes (v : jsstring) (d : QAData) : QAData :=
  {| qa_status := qa_status d; qa_assigned_id := qa_assigned_id d;
     qa_assigned_date := qa_assigned_date d; qa_started_date :=
     qa_started_date d; qa_test_plan_check := qa_test_plan_check d;
     qa_test_release_notes_check := qa_test_release_notes_check d;
     qa_completed := qa_completed d; qa_signature := qa_signature d;
     qa_completed_date := qa_completed_date d; qa_notes := v;
     qa_test_plan_link := qa_test_plan_link d; qa_blocked_reason :=
     qa_blocked_reason d; qa_overall_result := qa_overall_result d |}.

Definition with_qa_test_plan_link (v : jsstring) (d : QAData) : QAData :=
  {| qa_status := qa_status d; qa_assigned_id := qa_assigned_id d;
     qa_assigned_date := qa_assigned_date d; qa_started_date :=
     qa_started_date d; qa_test_plan_check := qa_test_plan_check d;
     qa_test_release_notes_check := qa_test_release_notes_check d;
     qa_completed := qa_completed d; qa_signature := qa_signature d;
     qa_completed_date := qa_completed_date d; qa_notes := qa_notes d;
     qa_test_plan_link := v; qa_blocked_reason := qa_blocked_reason d;
     qa_overall_result := qa_overall_result d |}.

Definition with_qa_blocked_reason (v : jsstring) (d : QAData) : QAData :=
  {| qa_status := qa_status d; qa_assigned_id := qa_assigned_id d;
     qa_assigned_date := qa_assigned_date d; qa_started_date :=
     qa_started_date d; qa_test_plan_check := qa_test_plan_check d;
     qa_test_release_notes_check := qa_test_release_notes_check d;
     qa_completed := qa_completed d; qa_signature := qa_signature d;
     qa_completed_date := qa_completed_date d; qa_notes := qa_notes d;
     qa_test_plan_link := qa_test_plan_link d; qa_blocked_reason := v;
     qa_overall_result := qa_overall_result d |}.

Definition with_qa_overall_result (v : option jsstring) (d : QAData) : QAData :=
  {| qa_status := qa_status d; qa_assigned_id := qa_assigned_id d;
     qa_assigned_date := qa_assigned_date d; qa_started_date :=
     qa_started_date d; qa_test_plan_check := qa_test_plan_check d;
     qa_test_release_notes_check := qa_test_release_notes_check d;
     qa_completed := qa_completed d; qa_signature := qa_signature d;
     qa_completed_date := qa_completed_date d; qa_notes := qa_notes d;
     qa_test_plan_link := qa_test_plan_link d; qa_blocked_reason :=
     qa_blocked_reason d; qa_overall_result := v |}.

(** The [useState] cells of the component the handlers write ([qaProgress],
    which is only loaded and shown, is left out). *)
Record State : Type := mkState {
  qaData : QAData;
  activeTab : jsstring;
  showAssignModal : bool;
  showNotesModal : bool
}.

(** What a handler does, in order: state setters, the persistence call
    [amendmentAPI.updateQA(amendment.amendment_id, payload)], the callback
    [onUpdate], and [console.error]. *)
Inductive Effect : Type :=
| SetQaData (d : QAData)
| SetShowAssignModal (b : bool)
| SetShowNotesModal (b : bool)
| UpdateQA (amendment_id : Z) (payload : QAData)
| OnUpdate (d : QAData)
| ConsoleError (msg : jsstring).

Definition apply (st : State) (e : Effect) : State :=
  match e with
  | SetQaData d =>
      {| qaData := d; activeTab := activeTab st;
         showAssignModal := showAssignModal st; showNotesModal := showNotesModal st |}
  | SetShowAssignModal b =>
      {| qaData := qaData st; activeTab := activeTab st;
         showAssignModal := b; showNotesModal := showNotesModal st |}
  | SetShowNotesModal b =>
      {| qaData := qaData st; activeTab := activeTab st;
         showAssignModal := showAssignModal st; showNotesModal := b |}
  | UpdateQA _ _ | OnUpdate _ | ConsoleError _ => st
  end.

Definition run (effects : list Effect) (st : State) : State :=
  fold_left apply effects st.

(** The props: [amendment.amendment_id] and whether [onUpdate] is given. *)
Record Props : Type := mkProps {
  amendment_id : Z;
  onUpdate : bool
}.

(** The [try]/[catch] around the persistence call, shared by the handlers
    that roll back: on success the callback, on failure the error and
    [setQaData(prevData)]. *)
Definition settle (props : Props) (persist : Response unit)
           (sent prevData : QAData) (msg : jsstring) : list Effect :=
  match persist with
  | Resolved _ => if onUpdate props then [OnUpdate sent] else []
  | Rejected => [ConsoleError msg; SetQaData prevData]
  end.

(** The same without a rollback, as [handleSaveNotes] and
    [handleFieldBlur] have it. *)
Definition settle_no_rollback (props : Props) (persist : Response unit)
           (sent : QAData) (msg : jsstring) : list Effect :=
  match persist with
  | Resolved _ => if onUpdate props then [OnUpdate sent] else []
  | Rejected => [ConsoleError msg]
  end.

(** [handleStatusChange(newStatus)]; [now] is [new Date().toISOString()]. *)
Definition status_updates (qaData : QAData) (now newStatus : jsstring) : QAData :=
  let updates := with_qa_status newStatus qaData in
  let updates :=
    if bool_decide (newStatus = js "In Testing")
       && negb (truthy_opt truthy_str (qa_started_date qaData))
    then with_qa_started_date (Some now) updates else updates in
  if bool_decide (newStatus = js "Passed") || bool_decide (newStatus = js "Failed")
  then with_qa_completed_date (Some now) (with_qa_completed true updates)
  else updates.

Definition handleStatusChange (props : Props) (qaData : QAData)
           (now newStatus : jsstring) (persist : Response unit) : list Effect :=
  let prevData := qaData in
  let updates := status_updates qaData now newStatus in
  SetQaData updates
  :: UpdateQA (amendment_id props) updates
  :: settle props persist updates prevData (js "Failed to update QA status:").

(** [handleAssign(employeeId)] *)
Definition handleAssign (props : Props) (qaData : QAData)
           (now : jsstring) (employeeId : Z) (persist : Response unit) : list Effect :=
  let prevData := qaData in
  let updates :=
    with_qa_status
      (if bool_decide (qa_status qaData = js "Not Started")
       then js "Assigned" else qa_status qaData)
      (with_qa_assigned_date (Some now)
         (with_qa_assigned_id (Some employeeId) qaData)) in
  SetQaData updates
  :: SetShowAssignModal false
  :: UpdateQA (amendment_id props) updates
  :: settle props persist updates prevData (js "Failed to assign QA:").

(** The two fields [handleChecklistChange] is called with. *)
Inductive ChecklistField : Type := TestPlanCheck | TestReleaseNotesCheck.

(** [handleChecklistChange(field)] *)
Definition handleChecklistChange (props : Props) (qaData : QAData)
           (field : ChecklistField) (persist : Response unit) : list Effect :=
  let prevData := qaData in
  let updates :=
    match field with
    | TestPlanCheck =>
        with_qa_test_plan_check (negb (qa_test_plan_check qaData)) qaData
    | TestReleaseNotesCheck =>
        with_qa_test_release_notes_check
          (negb (qa_test_release_notes_check qaData)) qaData
    end in
  SetQaData updates
  :: UpdateQA (amendment_id props) updates
  :: settle props persist updates prevData (js "Failed to update checklist:").

(** [handleSaveNotes()] *)
Definition handleSaveNotes (props : Props) (qaData : QAData)
           (persist : Response unit) : list Effect :=
  SetShowNotesModal false
  :: UpdateQA (amendment_id props) qaData
  :: settle_no_rollback props persist qaData (js "Failed to save notes:").

(** [handleFieldBlur()] *)
Definition handleFieldBlur (props : Props) (qaData : QAData)
           (persist : Response unit) : list Effect :=
  UpdateQA (amendment_id props) qaData
  :: settle_no_rollback props persist qaData (js "Failed to update field:").

(** [handleOverallResultChange(result)] *)
Definition handleOverallResultChange (props : Props) (qaData : QAData)
           (result : option jsstring) (persist : Response unit) : list Effect :=
  let prevData := qaData in
  let updates := with_qa_overall_result result qaData in
  SetQaData updates
  :: UpdateQA (amendment_id props) updates
  :: settle props persist updates prevData (js "Failed to update overall result:").

(** What the user does in the panel. *)
Inductive Event : Type :=
| StatusButton (newStatus : jsstring)
| EmployeeChosen (employeeId : Z)
| ChecklistToggled (field : ChecklistField)
| NotesTyped (text : jsstring)            (* the textarea of the notes modal *)
| SaveNotesClicked
| TestPlanLinkTyped (text : jsstring)
| BlockedReasonTyped (text : jsstring)
| FieldBlurred
| OverallResultSelected (value : jsstring).

(** The handler bound to each event, run on the state of the current
    render.  The text inputs only call [setQaData]. *)
Definition handle (props : Props) (ev : Event) (now : jsstring)
           (persist : Response unit) (st : State) : list Effect :=
  match ev with
  | StatusButton newStatus =>
      handleStatusChange props (qaData st) now newStatus persist
  | EmployeeChosen employeeId =>
      handleAssign props (qaData st) now employeeId persist
  | ChecklistToggled field =>
      handleChecklistChange props (qaData st) field persist
  | NotesTyped text => [SetQaData (with_qa_notes text (qaData st))]
  | SaveNotesClicked => handleSaveNotes props (qaData st) persist
  | TestPlanLinkTyped text =>
      [SetQaData (with_qa_test_plan_link text (qaData st))]
  | BlockedReasonTyped text =>
      [SetQaData (with_qa_blocked_reason text (qaData st))]
  | FieldBlurred => handleFieldBlur props (qaData st) persist
  | OverallResultSelected value =>
      handleOverallResultChange props (qaData st)
        (if truthy_str value then Some value else None) persist
  end.

(** The payloads a handler sends to [amendmentAPI.updateQA]. *)
Definition sent (effects : list Effect) : list (Z * QAData) :=
  omap (fun e => match e with UpdateQA id payload => Some (id, payload) | _ => None end)
       effects.

(** *** The panel over time

    A handler stops at [await amendmentAPI.updateQA(...)].  Its effects up
    to the call are those of the click; those after it run when the call
    is answered, on the state the panel has by then, with the [qaData] and
    [prevData] of the render in which the handler was called. *)
Fixpoint until_call (effects : list Effect) : list Effect :=
  match effects with
  | [] => []
  | UpdateQA id payload :: _ => [UpdateQA id payload]
  | e :: rest => e :: until_call rest
  end.

Fixpoint after_call (effects : list Effect) : list Effect :=
  match effects with
  | [] => []
  | UpdateQA _ _ :: rest => rest
  | _ :: rest => after_call rest
  end.

(** A handler stopped at its call: the event it handles, the clock reading
    it took and the state of the render in which it was called. *)
Record Call : Type := mkCall {
  c_event : Event;
  c_now : jsstring;
  c_closure : State
}.

(** The panel: its state and the calls under way. *)
Record Sys : Type := mkSys {
  page : State;
  calls : list Call
}.

(** What happens to the panel: the user does something, at some clock
    reading; the call at the given position is answered; the parent passes
    another [amendment], and the effect of line 29 sets [qaData] to the
    object it builds from it. *)
Inductive Action : Type :=
| Act (ev : Event) (now : jsstring)
| Answered (call : nat) (persist : Response unit)
| AmendmentChanged (d : QAData).

(** The effects of a handler at the click, which do not depend on how its
    call will be answered, and those at the answer. *)
Definition clicked (props : Props) (ev : Event) (now : jsstring) (st : State)
  : list Effect :=
  until_call (handle props ev now Rejected st).

Definition answered (props : Props) (c : Call) (persist : Response unit)
  : list Effect :=
  after_call (handle props (c_event c) (c_now c) persist (c_closure c)).

Definition fire (props : Props) (s : Sys) (a : Action) : Sys :=
  match a with
  | Act ev now =>
      let effects := clicked props ev now (page s) in
      {| page := run effects (page s);
         calls := calls s ++ match sent effects with
                             | [] => []
                             | _ => [mkCall ev now (page s)]
                             end |}
  | Answered i persist =>
      match calls s !! i with
      | None => s
      | Some c =>
          {| page := run (answered props c persist) (page s);
             calls := delete i (calls s) |}
      end
  | AmendmentChanged d =>
      {| page := apply (page s) (SetQaData d); calls := calls s |}
  end.

(** A session of the panel. *)
Definition play (props : Props) (acts : list Action) (s : Sys) : Sys :=
  fold_left (fire props) acts s.

(** The panel with the given state and no call under way. *)
Definition at_rest (st : State) : Sys := {| page := st; calls := [] |}.

(** One event of a panel at rest whose call, if it makes one, is answered
    before anything else happens. *)
Definition step (props : Props) (now : jsstring) (persist : Response unit)
           (st : State) (ev : Event) : State :=
  page (fire props (fire props (at_rest st) (Act ev now)) (Answered 0 persist)).

(** The five kinds of mutation of the QA workflow state, and the events
    each one is made of: notes are typed into the modal, which writes
    [qaData], and then saved. *)
Inductive Mutation : Type :=
| StatusTransition (newStatus : jsstring)
| Assignment (employeeId : Z)
| ChecklistToggle (field : ChecklistField)
| Notes (text : jsstring)
| OverallResult (value : jsstring).

Definition events_of (m : Mutation) : list Event :=
  match m with
  | StatusTransition newStatus => [StatusButton newStatus]
  | Assignment employeeId => [EmployeeChosen employeeId]
  | ChecklistToggle field => [ChecklistToggled field]
  | Notes text => [NotesTyped text; SaveNotesClicked]
  | OverallResult value => [OverallResultSelected value]
  end.

Definition mutate (props : Props) (now : jsstring) (persist : Response unit)
           (m : Mutation) (st : State) : State :=
  fold_left (step props now persist) (events_of m) st.

(** A sample state: [amendment] without QA data. *)
Definition blank : QAData :=
  {| qa_status := js "Not Started"; qa_assigned_id := None;
     qa_assigned_date := None; qa_started_date := None;
     qa_test_plan_check := false; qa_test_release_notes_check := false;
     qa_completed := false; qa_signature := []; qa_completed_date := None;
     qa_notes := []; qa_test_plan_link := []; qa_blocked_reason := [];
     qa_overall_result := None |}.

Definition blank_state : State :=
  {| qaData := blank; activeTab := js "overview";
     showAssignModal := false; showNotesModal := false |}.

(** *** What the panel derives from [qaData], and further vocabulary *)

(** [P] holds of the data shown and of the data every call under way
    found when it started. *)
Definition holds (P : QAData -> Prop) (s : Sys) : Prop :=
  P (qaData (page s)) /\ Forall (fun c => P (qaData (c_closure c))) (calls s).

(** The data a new [amendment] brings satisfy [P]. *)
Definition brings (P : QAData -> Prop) (a : Action) : Prop :=
  match a with AmendmentChanged d => P d | _ => True end.

(** [completionPercentage] *)
Definition completionPercentage (qaData : QAData) : Z :=
  if qa_test_plan_check qaData && qa_test_release_notes_check qaData then 100
  else if qa_test_plan_check qaData || qa_test_release_notes_check qaData then 50
  else 0.

Definition checks_done (qaData : QAData) : Z :=
  (if qa_test_plan_check qaData then 1 else 0)
  + (if qa_test_release_notes_check qaData then 1 else 0).

(** The values of the five status buttons. *)
Definition status_buttons : list jsstring :=
  [js "Assigned"; js "In Testing"; js "Blocked"; js "Passed"; js "Failed"].

(** An action as the buttons of the panel produce it: a status change
    carries the value of one of the five buttons. *)
Definition from_panel (a : Action) : Prop :=
  match a with
  | Act (StatusButton newStatus) _ => newStatus ∈ status_buttons
  | _ => True
  end.

(** A pattern character of a regular expression with the [i] flag against
    a code unit: a lower-case ASCII letter matches itself and its upper
    case; any other character of these patterns matches itself. *)
Definition matches_ci (pattern u : N) : bool :=
  ((u =? pattern) || ((97 <=? pattern) && (pattern <=? 122) && (u =? pattern - 32)))%N.

(** The rest of [s] after a prefix that matches [pattern]. *)
Fixpoint strip_ci (pattern s : jsstring) : option jsstring :=
  match pattern, s with
  | [], _ => Some s
  | p :: pattern', u :: s' => if matches_ci p u then strip_ci pattern' s' else None
  | _ :: _, [] => None
  end.

Definition starts_ci (pattern s : jsstring) : bool :=
  match strip_ci pattern s with Some _ => true | None => false end.

(** [/^https?:\/\//i.test(link)]: the optional [s] is tried first, then
    skipped. *)
Definition is_http (link : jsstring) : bool :=
  match strip_ci (js "http") link with
  | None => false
  | Some rest =>
      match strip_ci (js "s") rest with
      | Some rest' => starts_ci (js "://") rest' || starts_ci (js "://") rest
      | None => starts_ci (js "://") rest
      end
  end.

(** The [href] of the test plan link. *)
Definition test_plan_href (qaData : QAData) : jsstring :=
  if is_http (qa_test_plan_link qaData) then qa_test_plan_link qaData else js "#".

(** ASCII lower case of a code unit. *)
Definition lower (u : N) : N :=
  (if (65 <=? u) && (u <=? 90) then u + 32 else u)%N.

End QASection.

(* ===================================================================== *)
(** ** WatcherButton *)
(* ===================================================================== *)

Module WatcherButton.

(** A row of [GET /amendments/:id/watchers]. *)
Record Watcher : Type := mkWatcher {
  watcher_id : Z;
  employee_name : jsstring;
  watch_reason : jsstring
}.

(** The [useState] cells of the button. *)
Record State : Type := mkState {
  isWatching : bool;
  watcherCount : Z;
  loading : bool;
  showWatchers : bool;
  watchers : list Watcher
}.

Definition setIsWatching (v : bool) (st : State) : State :=
  {| isWatching := v; watcherCount := watcherCount st; loading :=
     loading st; showWatchers := showWatchers st; watchers := watchers
     st |}.

Definition setWatcherCount (v : Z) (st : State) : State :=
  {| isWatching := isWatching st; watcherCount := v; loading := loading
     st; showWatchers := showWatchers st; watchers := watchers st |}.

Definition setLoading (v : bool) (st : State) : State :=
  {| isWatching := isWatching st; watcherCount := watcherCount st;
     loading := v; showWatchers := showWatchers st; watchers := watchers
     st |}.

Definition setShowWatchers (v : bool) (st : State) : State :=
  {| isWatching := isWatching st; watcherCount := watcherCount st;
     loading := loading st; showWatchers := v; watchers := watchers st |}.

Definition setWatchers (v : list Watcher) (st : State) : State :=
  {| isWatching := isWatching st; watcherCount := watcherCount st;
     loading := loading st; showWatchers := showWatchers st; watchers :=
     v |}.
(** The button as it is mounted. *)
Definition mounted : State :=
  {| isWatching := false; watcherCount := 0; loading := false;
     showWatchers := false; watchers := [] |}.

(** Where a call of [toggleWatch] is suspended: at the [DELETE], at the
    [POST], or inside [await loadWatchers()]. *)
Inductive Await : Type := AwaitUnwatch | AwaitWatch | AwaitWatchers.

(** The button and the suspended calls of [toggleWatch]. *)
Record Sys : Type := mkSys {
  button : State;
  calls : list Await
}.

Inductive Outcome : Type :=
| Done
| WatchersDone (data : list Watcher)
| Failed.

Inductive Event : Type :=
| Click
| Settle (call : nat) (outcome : Outcome)
| StatusChecked (resp : Response bool)           (* checkWatchStatus() of the mount effect *)
| WatchersLoaded (resp : Response (list Watcher)) (* loadWatchers() of the mount effect *)
| CountClicked
| ListClosed.

(** [loadWatchers()] once its request has settled. *)
Definition loadWatchers (resp : Response (list Watcher)) (st : State) : State :=
  match resp with
  | Resolved data => setWatcherCount (Z.of_nat (length data)) (setWatchers data st)
  | Rejected => st
  end.

(** [toggleWatch()] up to its first [await]. *)
Definition toggleWatch (s : Sys) : Sys :=
  if loading (button s) then s
  else {| button := setLoading true (button s);
          calls := calls s ++ [if isWatching (button s) then AwaitUnwatch else AwaitWatch] |}.

(** A suspended call resumes when its request settles. *)
Definition resume (call : nat) (outcome : Outcome) (s : Sys) : Sys :=
  match calls s !! call with
  | None => s
  | Some at_ =>
      match at_, outcome with
      | AwaitUnwatch, Done =>
          {| button := setIsWatching false (button s);
             calls := <[call := AwaitWatchers]> (calls s) |}
      | AwaitWatch, Done =>
          {| button := setIsWatching true (button s);
             calls := <[call := AwaitWatchers]> (calls s) |}
      | AwaitWatchers, WatchersDone data =>
          {| button := setLoading false (loadWatchers (Resolved data) (button s));
             calls := delete call (calls s) |}
      | _, Failed =>
          {| button := setLoading false (button s);
             calls := delete call (calls s) |}
      | _, _ => s
      end
  end.

Definition fire (ev : Event) (s : Sys) : Sys :=
  match ev with
  | Click => toggleWatch s
  | Settle call outcome => resume call outcome s
  | StatusChecked (Resolved b) =>
      {| button := setIsWatching b (button s); calls := calls s |}
  | StatusChecked Rejected => s
  | WatchersLoaded resp =>
      {| button := loadWatchers resp (button s); calls := calls s |}
  | CountClicked =>
      {| button := setShowWatchers (negb (showWatchers (button s))) (button s);
         calls := calls s |}
  | ListClosed =>
      {| button := setShowWatchers false (button s); calls := calls s |}
  end.

Definition run (evs : list Event) (s : Sys) : Sys :=
  fold_left (fun s ev => fire ev s) evs s.

Definition init : Sys := {| button := mounted; calls := [] |}.

(** What holds in every state the button reaches. *)
Definition consistent (s : Sys) : Prop :=
  watcherCount (button s) = Z.of_nat (length (watchers (button s))) /\
  (length (calls s) <= 1)%nat /\
  (loading (button s) = true <-> calls s <> []).

End WatcherButton.

(** Closed decidable facts are settled by evaluation. *)
Ltac by_computation := apply (bool_decide_unpack _); vm_compute; exact I.

(* ===================================================================== *)
(** ** The tree builder: what the two passes compute *)
(* ===================================================================== *)

Section BuildFacts.

Local Open Scope nat_scope.

Implicit Types (h : heap) (os : list Obj) (m cmap : gmap Z loc).

Lemma forEach_app {S A} (f : S -> A -> option S) (xs ys : list A) (s : S) :
  forEach f (xs ++ ys) s =
  match forEach f xs s with Some s' => forEach f ys s' | None => None end.
Proof.
  revert s. induction xs as [|x xs IH]; intros s; simpl; [done|].
  destruct (f s x); [apply IH|done].
Qed.

Lemma reads_records (cs : list Comment) :
  reads (records cs) (addresses cs) (records cs).
Proof.
  unfold reads, addresses. apply Forall2_same_length_lookup_2.
  - unfold records. by rewrite length_seq, length_map.
  - intros i l o Hl Ho. apply lookup_seq in Hl as [-> _]. done.
Qed.

Lemma first_pass_spec h ext ls os m r :
  reads h ls os ->
  forEach first_pass ls {| bs_heap := h ++ ext; commentMap := m; rootComments := r |}
  = Some {| bs_heap := h ++ ext ++ map clone os;
            commentMap := index_ids (length (h ++ ext)) os m;
            rootComments := r |}.
Proof.
  intros Hr. revert ext m.
  induction Hr as [|l o ls os Hl _ IH]; intros ext m; simpl.
  - by rewrite app_nil_r.
  - unfold first_pass at 1. simpl.
    rewrite (lookup_app_l_Some _ _ _ _ Hl).
    rewrite <- (app_assoc h ext [clone o]). rewrite IH.
    do 2 f_equal.
    + by rewrite <- app_assoc.
    + rewrite !length_app. simpl. f_equal. lia.
Qed.

Lemma index_ids_range b os m k L :
  index_ids b os m !! k = Some L ->
  m !! k = Some L \/ (b <= L < b + length os)%nat.
Proof.
  revert b m. induction os as [|o os IH]; intros b m; simpl; [by left|].
  intros H. apply IH in H as [H|H]; [|right; lia].
  apply lookup_insert_Some in H as [[_ <-]|[_ H]]; [right; lia|by left].
Qed.

Lemma index_ids_keeps b os m k L :
  m !! k = Some L -> is_Some (index_ids b os m !! k).
Proof.
  revert b m L. induction os as [|o os IH]; intros b m L Hm; simpl; [eauto|].
  destruct (decide (comment_id (fields o) = k)) as [<-|Hne].
  - eapply IH. apply lookup_insert_eq.
  - eapply IH. rewrite lookup_insert_ne; eauto.
Qed.

Lemma index_ids_present b os m o :
  o ∈ os -> is_Some (index_ids b os m !! comment_id (fields o)).
Proof.
  revert b m. induction os as [|o' os IH]; intros b m Hin.
  - by apply elem_of_nil in Hin.
  - simpl. apply elem_of_cons in Hin as [->|Hin]; [|by apply IH].
    eapply index_ids_keeps. apply lookup_insert_eq.
Qed.

Lemma kids_snoc cmap L done o :
  kids cmap L (done ++ [o]) =
  kids cmap L done ++ option_list (pushed_to cmap L o).
Proof.
  unfold kids. rewrite omap_app. simpl.
  by destruct (pushed_to cmap L o).
Qed.

Lemma roots_of_snoc cmap done o :
  roots_of cmap (done ++ [o]) = roots_of cmap done ++ option_list (root_of cmap o).
Proof.
  unfold roots_of. rewrite omap_app. simpl.
  by destruct (root_of cmap o).
Qed.

Lemma nodes_length cmap b all done : length (nodes cmap b all done) = length all.
Proof. unfold nodes. apply length_imap. Qed.

Lemma nodes_lookup cmap b all done i :
  nodes cmap b all done !! i =
  (fun o => {| fields := fields o; replies := Some (kids cmap (b + i) done) |})
    <$> all !! i.
Proof. unfold nodes. by rewrite list_lookup_imap. Qed.

(** A comment the second pass skips or makes a root leaves every node as
    it was. *)
Lemma nodes_snoc_none cmap b all done o :
  pushed cmap o = None ->
  nodes cmap b all (done ++ [o]) = nodes cmap b all done.
Proof.
  intros Hp. apply list_eq. intros i. rewrite !nodes_lookup.
  destruct (all !! i); simpl; [|done].
  rewrite kids_snoc. unfold pushed_to. rewrite Hp. simpl.
  by rewrite app_nil_r.
Qed.

(** A pushed comment changes exactly its parent's node. *)
Lemma nodes_snoc_some cmap b all done o i p node :
  pushed cmap o = Some ((b + i)%nat, node) ->
  all !! i = Some p ->
  nodes cmap b all (done ++ [o]) =
  <[i := {| fields := fields p;
            replies := Some (kids cmap (b + i) done ++ [node]) |}]>
    (nodes cmap b all done).
Proof.
  intros Hp Hi. apply list_eq. intros j.
  destruct (decide (i = j)) as [<-|Hne].
  - rewrite list_lookup_insert_eq.
    2:{ rewrite nodes_length. by eapply lookup_lt_Some. }
    rewrite nodes_lookup, Hi. simpl. rewrite kids_snoc.
    unfold pushed_to. rewrite Hp. by rewrite decide_True.
  - rewrite list_lookup_insert_ne by done. rewrite !nodes_lookup.
    destruct (all !! j); simpl; [|done].
    rewrite kids_snoc. unfold pushed_to. rewrite Hp.
    rewrite decide_False by lia. simpl. by rewrite app_nil_r.
Qed.

Lemma second_pass_spec h ls os cmap b all done :
  b = length h ->
  reads h ls os ->
  (forall o, o ∈ os -> is_Some (cmap !! comment_id (fields o))) ->
  (forall k L, cmap !! k = Some L -> (b <= L < b + length all)%nat) ->
  forEach second_pass ls
    {| bs_heap := h ++ nodes cmap b all done; commentMap := cmap;
       rootComments := roots_of cmap done |}
  = Some {| bs_heap := h ++ nodes cmap b all (done ++ os); commentMap := cmap;
            rootComments := roots_of cmap (done ++ os) |}.
Proof.
  intros -> Hr. revert done.
  induction Hr as [|l o ls os Hl _ IH]; intros done Hpres Hrange; simpl.
  - by rewrite app_nil_r.
  - assert (forall o', o' ∈ os -> is_Some (cmap !! comment_id (fields o'))) as Hpres'.
    { intros o' Ho'. apply Hpres. by apply elem_of_cons; right. }
    destruct (Hpres o) as [node Hnode]; [by apply elem_of_cons; left|].
    replace (done ++ o :: os) with ((done ++ [o]) ++ os)
      by (by rewrite <- app_assoc).
    rewrite <- (IH (done ++ [o]) Hpres' Hrange). clear IH.
    unfold second_pass at 1. simpl.
    rewrite (lookup_app_l_Some _ _ _ _ Hl).
    rewrite roots_of_snoc. unfold root_of.
    destruct (truthy_parent (fields o)) as [pid|] eqn:Hpar.
    + simpl. rewrite app_nil_r.
      destruct (cmap !! pid) as [parent|] eqn:Hparent.
      * rewrite Hnode.
        destruct (Hrange _ _ Hparent) as [Hlo Hhi].
        assert (exists i, parent = (length h + i)%nat /\ (i < length all)%nat)
          as (i & -> & Hi) by (exists (parent - length h)%nat; lia).
        destruct (lookup_lt_is_Some_2 all i Hi) as [p Hp].
        unfold push_reply.
        rewrite lookup_app_r by lia.
        replace (length h + i - length h)%nat with i by lia.
        rewrite nodes_lookup, Hp. simpl.
        rewrite insert_app_r_alt by lia.
        replace (length h + i - length h)%nat with i by lia.
        rewrite (nodes_snoc_some cmap (length h) all done o i p node); [done| |done].
        unfold pushed. by rewrite Hpar, Hparent, Hnode.
      * rewrite nodes_snoc_none; [done|].
        unfold pushed. by rewrite Hpar, Hparent.
    + rewrite Hnode. simpl.
      rewrite nodes_snoc_none; [done|].
      unfold pushed. by rewrite Hpar.
Qed.

(** The two passes never fail on an array of comment objects, and leave
    the heap extended by one node per array element. *)
Lemma build_spec h ls os :
  reads h ls os ->
  let cmap := index_ids (length h) os ∅ in
  buildCommentTree_passes h ls =
  Some {| bs_heap := h ++ nodes cmap (length h) os os;
          commentMap := cmap;
          rootComments := roots_of cmap os |}.
Proof.
  intros Hr cmap. unfold buildCommentTree_passes.
  pose proof (first_pass_spec h [] ls os ∅ [] Hr) as H1.
  rewrite !app_nil_r in H1. simpl in H1. rewrite H1.
  assert (map clone os = nodes cmap (length h) os []) as ->.
  { unfold nodes. apply list_eq. intros i.
    rewrite list_lookup_fmap, list_lookup_imap. by destruct (os !! i). }
  apply (second_pass_spec h ls os cmap (length h) os []); [done|done| |].
  - intros o Ho. by apply index_ids_present.
  - intros k L HL. apply index_ids_range in HL as [HL|HL]; [|done].
    by rewrite lookup_empty in HL.
Qed.

End BuildFacts.

(* ===================================================================== *)
(** ** Walking a heap whose nodes have a single parent *)
(* ===================================================================== *)

Section Walk.

Local Open Scope nat_scope.

(** A heap region [[base, base + n)] of nodes, each reply of which points
    back to the node through [up], and whose roots have no [up]. *)
Variables (h : heap) (base n : nat).
Variable up : loc -> option loc.
Variable is_root : loc -> Prop.

Hypothesis node_in_heap :
  forall L, base <= L < base + n -> is_Some (h !! L).
Hypothesis reply_up :
  forall L o r, base <= L < base + n -> h !! L = Some o ->
    r ∈ default [] (replies o) -> up r = Some L /\ base <= r < base + n.
Hypothesis root_no_up : forall L, is_root L -> up L = None.

Local Abbreviation chain := (QAComments.chain base n up is_root).

Lemma chain_func p q L : chain (L :: p) -> chain (L :: q) -> p = q.
Proof.
  revert q L. induction p as [|L' p IH]; intros q L Hp Hq.
  - inversion Hp as [? Hroot ?|]; subst.
    inversion Hq as [|? ? ? Hup ? ?]; subst; [done|].
    apply root_no_up in Hroot. congruence.
  - inversion Hp as [|? ? ? Hup ? Hp']; subst.
    inversion Hq as [? Hroot ?|? ? ? Hup' ? Hq']; subst.
    + apply root_no_up in Hroot. congruence.
    + assert (L' = L'0) as <- by congruence. f_equal. by eapply IH.
Qed.

Lemma chain_tail L p : chain (L :: p) -> p = [] \/ chain p.
Proof. inversion 1; subst; [by left|by right]. Qed.

Lemma chain_suffix a L b : chain (a ++ L :: b) -> chain (L :: b).
Proof.
  induction a as [|x a IH]; simpl; [done|].
  intros H. apply chain_tail in H as [H|H].
  - by destruct a.
  - by apply IH.
Qed.

Lemma chain_in_range p L : chain p -> L ∈ p -> base <= L < base + n.
Proof.
  induction 1 as [L0 ? ?|L0 L' p ? ? ? IH]; intros Hin.
  - apply list_elem_of_singleton in Hin as ->. done.
  - apply elem_of_cons in Hin as [->|Hin]; [done|by apply IH].
Qed.

Lemma chain_NoDup p : chain p -> NoDup p.
Proof.
  induction p as [|L p IH]; intros Hp; [constructor|].
  constructor.
  - intros Hin. apply list_elem_of_split in Hin as (a & b & ->).
    pose proof (chain_suffix (L :: a) L b Hp) as Hs.
    pose proof (chain_func _ _ _ Hp Hs) as Heq.
    apply (f_equal length) in Heq. rewrite length_app in Heq. simpl in Heq. lia.
  - apply chain_tail in Hp as [->|Hp]; [constructor|by apply IH].
Qed.

Lemma chain_length p : chain p -> length p <= n.
Proof.
  intros Hp.
  assert (p ⊆+ seq base n) as Hsub.
  { apply NoDup_submseteq; [by apply chain_NoDup|].
    intros L HL. apply elem_of_seq. eapply chain_in_range in HL; [lia|done]. }
  apply submseteq_length in Hsub. by rewrite length_seq in Hsub.
Qed.

(** Reading a node back needs no more fuel than there are nodes. *)
Lemma node_at_chain fuel L p :
  chain (L :: p) -> n < fuel + length (L :: p) -> is_Some (node_at fuel h L).
Proof.
  revert L p. induction fuel as [|fuel IH]; intros L p Hc Hfuel.
  - apply chain_length in Hc. simpl in *. lia.
  - assert (base <= L < base + n) as HL
      by (eapply chain_in_range; [done|by apply elem_of_cons; left]).
    destruct (node_in_heap L HL) as [o Ho]. simpl. rewrite Ho.
    assert (is_Some (mapM (node_at fuel h) (default [] (replies o)))) as [kids ->];
      [|eauto].
    apply mapM_is_Some. apply Forall_forall. intros r Hr.
    destruct (reply_up L o r HL Ho Hr) as [Hup Hrange].
    apply (IH r (L :: p)); [by constructor|]. simpl in *. lia.
Qed.

(** Every comment read back below an address with a chain sits at an
    address with a chain. *)
Lemma node_at_comments fuel L p t c :
  chain (L :: p) -> node_at fuel h L = Some t -> c ∈ comments_of t ->
  exists L' q o, chain (L' :: q) /\ h !! L' = Some o /\ fields o = c.
Proof.
  revert L p t c. induction fuel as [|fuel IH]; intros L p t c Hc Ht Hin; [done|].
  simpl in Ht. destruct (h !! L) as [o|] eqn:Ho; [|done].
  destruct (mapM (node_at fuel h) (default [] (replies o))) as [ts|] eqn:Hts; [|done].
  injection Ht as <-. simpl in Hin.
  assert (base <= L < base + n) as HL
    by (eapply chain_in_range; [done|by apply elem_of_cons; left]).
  apply elem_of_cons in Hin as [->|Hin]; [by exists L, p, o|].
  apply list_elem_of_In, in_flat_map in Hin as (t & Ht & Hin).
  apply list_elem_of_In in Ht, Hin.
  apply mapM_Some in Hts.
  apply list_elem_of_lookup in Ht as [i Hi].
  destruct (Forall2_lookup_r _ _ _ _ _ Hts Hi) as (r & Hr & Hrt).
  assert (r ∈ default [] (replies o)) as Hrin by (by eapply list_elem_of_lookup_2).
  destruct (reply_up L o r HL Ho Hrin) as [Hup Hrange].
  eapply (IH r (L :: p)); [by constructor|done|done].
Qed.

End Walk.

(* ===================================================================== *)
(** ** The tree builder on a list with unique ids *)
(* ===================================================================== *)

Section UniqueIds.

Local Open Scope nat_scope.

Lemma index_ids_notin b os (m : gmap Z loc) k :
  k ∉ ids os -> index_ids b os m !! k = m !! k.
Proof.
  revert b m. induction os as [|o os IH]; intros b m Hk; simpl; [done|].
  simpl in Hk. apply not_elem_of_cons in Hk as [Hne Hk].
  rewrite IH by done. by rewrite lookup_insert_ne.
Qed.

Lemma index_ids_unique b os (m : gmap Z loc) i o :
  NoDup (ids os) -> os !! i = Some o ->
  index_ids b os m !! comment_id (fields o) = Some (b + i).
Proof.
  revert b m i. induction os as [|o' os IH]; intros b m i Hnd Hi; [done|].
  simpl in Hnd. apply NoDup_cons in Hnd as [Hnotin Hnd].
  destruct i as [|i]; simpl in *.
  - injection Hi as ->. rewrite index_ids_notin by done.
    rewrite lookup_insert_eq. f_equal. lia.
  - rewrite (IH (S b) _ i Hnd Hi). f_equal. lia.
Qed.

Lemma index_ids_inv b os (m : gmap Z loc) k L :
  index_ids b os m !! k = Some L ->
  m !! k = Some L \/
  exists i o, L = b + i /\ os !! i = Some o /\ comment_id (fields o) = k.
Proof.
  revert b m. induction os as [|o os IH]; intros b m H; simpl in *; [by left|].
  apply IH in H as [H|(i & o' & -> & Hi & Hk)].
  - apply lookup_insert_Some in H as [[Hk <-]|[_ H]]; [|by left].
    right. exists 0, o. split; [lia|done].
  - right. exists (S i), o'. split; [lia|done].
Qed.

Variables (h : heap) (os : list Obj).
Hypothesis unique : NoDup (ids os).

Let base := length h.
Let cmap := index_ids base os ∅.
Let h' := h ++ nodes cmap base os os.

Local Abbreviation up_of := (QAComments.up_of base os cmap).
Local Abbreviation root_at := (QAComments.root_at base os).

Lemma ids_inj i j oi oj :
  os !! i = Some oi -> os !! j = Some oj ->
  comment_id (fields oi) = comment_id (fields oj) -> i = j.
Proof.
  intros Hi Hj Heq.
  eapply (NoDup_lookup (ids os)); [done| |].
  - unfold ids. rewrite list_lookup_fmap, Hi. done.
  - unfold ids. rewrite list_lookup_fmap, Hj. simpl. by rewrite Heq.
Qed.

Lemma cmap_at i o :
  os !! i = Some o -> cmap !! comment_id (fields o) = Some (base + i).
Proof. intros. by apply index_ids_unique. Qed.

Lemma cmap_inv k L :
  cmap !! k = Some L ->
  exists i o, L = base + i /\ os !! i = Some o /\ comment_id (fields o) = k.
Proof.
  intros H. apply index_ids_inv in H as [H|H]; [|done].
  by rewrite lookup_empty in H.
Qed.

Lemma node_lookup i o :
  os !! i = Some o ->
  h' !! (base + i) =
  Some {| fields := fields o; replies := Some (kids cmap (base + i) os) |}.
Proof.
  intros Hi. unfold h', base. rewrite lookup_app_r by lia.
  replace (length h + i - length h) with i by lia.
  by rewrite nodes_lookup, Hi.
Qed.

(** The reply [r] pushed onto the node at [L] is the node of a comment
    whose parent id is the id of the comment at [L]. *)
Lemma kids_inv L r :
  r ∈ kids cmap L os ->
  exists j oj pid, os !! j = Some oj /\ r = base + j /\
    truthy_parent (fields oj) = Some pid /\ cmap !! pid = Some L.
Proof.
  unfold kids. intros Hr.
  apply list_elem_of_omap in Hr as (oj & Hoj & Hp).
  apply list_elem_of_lookup in Hoj as [j Hj].
  unfold pushed_to, pushed in Hp.
  destruct (truthy_parent (fields oj)) as [pid|] eqn:Hpar; [|done].
  destruct (cmap !! pid) as [parent|] eqn:Hparent; [|done].
  rewrite (cmap_at j oj Hj) in Hp.
  destruct (decide (parent = L)) as [->|]; [|done].
  injection Hp as <-. by exists j, oj, pid.
Qed.

Lemma built_node_in_heap L :
  base <= L < base + length os -> is_Some (h' !! L).
Proof.
  intros HL. destruct (lookup_lt_is_Some_2 os (L - base)) as [o Ho]; [lia|].
  replace L with (base + (L - base)) by lia. rewrite (node_lookup _ o Ho). eauto.
Qed.

Lemma built_reply_up L o r :
  base <= L < base + length os -> h' !! L = Some o ->
  r ∈ default [] (replies o) ->
  up_of r = Some L /\ base <= r < base + length os.
Proof.
  intros HL Ho Hr.
  destruct (lookup_lt_is_Some_2 os (L - base)) as [oL HoL]; [lia|].
  replace L with (base + (L - base)) in Ho by lia.
  rewrite (node_lookup _ oL HoL) in Ho. injection Ho as <-. simpl in Hr.
  replace (base + (L - base)) with L in Hr by lia.
  apply kids_inv in Hr as (j & oj & pid & Hj & -> & Hpar & Hpid).
  split.
  - unfold up_of. replace (base + j - base) with j by lia.
    by rewrite Hj, Hpar.
  - apply lookup_lt_Some in Hj. lia.
Qed.

Lemma built_root_no_up L : root_at L -> up_of L = None.
Proof.
  intros (j & o & -> & Hj & Hpar). unfold up_of.
  replace (base + j - base) with j by lia. by rewrite Hj, Hpar.
Qed.

Lemma roots_inv r :
  r ∈ roots_of cmap os -> root_at r.
Proof.
  unfold roots_of. intros Hr.
  apply list_elem_of_omap in Hr as (o & Ho & Hroot).
  apply list_elem_of_lookup in Ho as [j Hj].
  unfold root_of in Hroot.
  destruct (truthy_parent (fields o)) eqn:Hpar; [done|].
  rewrite (cmap_at j o Hj) in Hroot. injection Hroot as <-.
  by exists j, o.
Qed.

Lemma roots_chain r :
  r ∈ roots_of cmap os -> QAComments.chain base (length os) up_of root_at [r].
Proof.
  intros Hr. apply roots_inv in Hr. constructor; [done|].
  destruct Hr as (j & o & -> & Hj & _). apply lookup_lt_Some in Hj. lia.
Qed.

(** Reading the built forest back succeeds with one unit of fuel per
    comment, plus one. *)
Lemma built_forest_total :
  is_Some (forest_at (S (length os)) h' (roots_of cmap os)).
Proof.
  unfold forest_at. apply mapM_is_Some, Forall_forall. intros r Hr.
  apply (node_at_chain h' base (length os) up_of root_at
           built_node_in_heap built_reply_up built_root_no_up _ r []).
  - by apply roots_chain.
  - simpl. lia.
Qed.

(** Every comment of the forest read back is the comment of some index
    from which the parent pointers lead to a root. *)
Lemma built_forest_comments fuel forest t c :
  forest_at fuel h' (roots_of cmap os) = Some forest ->
  t ∈ forest -> c ∈ comments_of t ->
  exists j o q, os !! j = Some o /\ fields o = c /\
    QAComments.chain base (length os) up_of root_at ((base + j) :: q).
Proof.
  intros Hf Ht Hc. unfold forest_at in Hf. apply mapM_Some in Hf.
  apply list_elem_of_lookup in Ht as [i Hi].
  destruct (Forall2_lookup_r _ _ _ _ _ Hf Hi) as (r & Hr & Hrt).
  apply list_elem_of_lookup_2 in Hr.
  destruct (node_at_comments h' base (length os) up_of root_at
              built_reply_up fuel r [] t c (roots_chain r Hr) Hrt Hc)
    as (L' & q & o & Hch & Ho & Hfo).
  assert (base <= L' < base + length os) as HL'
    by (eapply chain_in_range; [done|by apply elem_of_cons; left]).
  destruct (lookup_lt_is_Some_2 os (L' - base)) as [oj Hoj]; [lia|].
  exists (L' - base), oj, q.
  replace (base + (L' - base)) with L' by lia.
  split; [done|]. split; [|done].
  replace L' with (base + (L' - base)) in Ho by lia.
  rewrite (node_lookup _ oj Hoj) in Ho. injection Ho as <-. done.
Qed.

(** With unique ids the replies of a node are the nodes of the comments
    that name it as their parent, in the order of the list. *)
Lemma omap_as_filter {A B} (f g : A -> option B) (P : A -> Prop)
      `{forall x, Decision (P x)} (l : list A) :
  (forall x, x ∈ l -> f x = if decide (P x) then g x else None) ->
  (forall x, x ∈ l -> P x -> is_Some (g x)) ->
  Some <$> omap f l = g <$> filter P l.
Proof.
  induction l as [|x l IH]; intros Hf Hg; [done|].
  assert (Some <$> omap f l = g <$> filter P l) as IH'.
  { apply IH; intros y Hy; [apply Hf|apply Hg]; by apply elem_of_cons; right. }
  assert (omap f (x :: l) =
          match f x with Some y => y :: omap f l | None => omap f l end) as ->
    by done.
  rewrite filter_cons, (Hf x) by (by apply elem_of_cons; left).
  destruct (decide (P x)) as [HP|HP]; [|done].
  destruct (Hg x) as [y Hy]; [by apply elem_of_cons; left|done|].
  rewrite Hy, !fmap_cons, IH', Hy. done.
Qed.

Lemma kids_filter i oi :
  os !! i = Some oi ->
  Some <$> kids cmap (base + i) os =
  (fun o => cmap !! comment_id (fields o)) <$>
    filter (fun o => truthy_parent (fields o) = Some (comment_id (fields oi))) os.
Proof.
  intros Hi. unfold kids. apply omap_as_filter.
  - intros o Ho. apply list_elem_of_lookup in Ho as [j Hj].
    unfold pushed_to, pushed. rewrite (cmap_at j o Hj).
    destruct (truthy_parent (fields o)) as [pid|] eqn:Hpar;
      [|by rewrite decide_False].
    destruct (cmap !! pid) as [parent|] eqn:Hparent.
    + destruct (decide (parent = base + i)) as [->|Hne].
      * apply cmap_inv in Hparent as (i' & o' & Hi' & Ho' & <-).
        assert (i' = i) as -> by lia.
        assert (o' = oi) as -> by congruence.
        by rewrite decide_True.
      * rewrite decide_False; [done|]. intros [= ->].
        rewrite (cmap_at i oi Hi) in Hparent. congruence.
    + rewrite decide_False; [done|]. intros [= ->].
      rewrite (cmap_at i oi Hi) in Hparent. congruence.
  - intros o Ho _. apply list_elem_of_lookup in Ho as [j Hj].
    rewrite (cmap_at j o Hj). eauto.
Qed.

Lemma roots_filter :
  Some <$> roots_of cmap os =
  (fun o => cmap !! comment_id (fields o)) <$>
    filter (fun o => truthy_parent (fields o) = None) os.
Proof.
  unfold roots_of. apply omap_as_filter.
  - intros o _. unfold root_of.
    destruct (truthy_parent (fields o)); [by rewrite decide_False|by rewrite decide_True].
  - intros o Ho _. apply list_elem_of_lookup in Ho as [j Hj].
    rewrite (cmap_at j o Hj). eauto.
Qed.

End UniqueIds.

(* ===================================================================== *)
(** ** Rendering follows the forest *)
(* ===================================================================== *)

Section Rendering.

Lemma mapM_fmap_ext {A B C} (F : A -> option C) (f : A -> option B)
      (g : B -> C) (l : list A) :
  (forall x, F x = g <$> f x) -> mapM F l = map g <$> mapM f l.
Proof.
  intros HF. induction l as [|x l IH]; [done|].
  simpl. rewrite HF, IH.
  destruct (f x); simpl; [|done]. by destruct (mapM f l).
Qed.

(** [ThreadedComment] draws exactly the tree below the address, each level
    one indentation step further, whatever the depth. *)
Lemma ThreadedComment_node_at fuel h l depth :
  ThreadedComment fuel h l depth = render_node depth <$> node_at fuel h l.
Proof.
  revert l depth. induction fuel as [|fuel IH]; intros l depth; [done|].
  simpl. destruct (h !! l) as [o|]; [|done]. simpl.
  set (rs := default [] (replies o)).
  rewrite (mapM_fmap_ext _ (node_at fuel h) (render_node (depth + 1)) rs)
    by (intros r; apply IH).
  destruct rs as [|r rs']; [done|].
  replace (0 <? Z.of_nat (length (r :: rs'))) with true
    by (symmetry; apply Z.ltb_lt; simpl; lia).
  by destruct (mapM (node_at fuel h) (r :: rs')).
Qed.

Lemma render_thread_forest_at fuel h roots :
  render_thread fuel h roots = map (render_node 0) <$> forest_at fuel h roots.
Proof.
  unfold render_thread, forest_at. apply mapM_fmap_ext.
  intros r. apply ThreadedComment_node_at.
Qed.

End Rendering.

(* ===================================================================== *)
(** ** Properties of the tree builder and of the threaded rendering *)
(* ===================================================================== *)

Section TreeBuilder.

Local Open Scope nat_scope.

Lemma records_length cs : length (records cs) = length cs.
Proof. unfold records. apply length_map. Qed.

Lemma ids_records cs : ids (records cs) = map comment_id cs.
Proof. unfold ids, records. rewrite map_map. done. Qed.

Lemma records_lookup cs i :
  records cs !! i = (fun c => {| fields := c; replies := None |}) <$> cs !! i.
Proof. unfold records. apply list_lookup_fmap. Qed.

Lemma filter_records (P : Comment -> Prop) (Q : Obj -> Prop)
      `{forall c, Decision (P c)} `{forall o, Decision (Q o)} cs :
  (forall o, Q o <-> P (fields o)) ->
  filter Q (records cs) = records (filter P cs).
Proof.
  intros HQ. induction cs as [|c cs IH]; [done|].
  change (records (c :: cs))
    with ({| fields := c; replies := None |} :: records cs).
  rewrite !filter_cons.
  destruct (decide (P c)) as [HP|HP].
  - rewrite decide_True by (by apply HQ). by rewrite IH.
  - rewrite decide_False by (by rewrite HQ). done.
Qed.

(** What [buildCommentTree] leaves for the array of a freshly loaded list. *)
Lemma buildTree_passes_spec cs :
  let n := length cs in
  let cmap := index_ids n (records cs) ∅ in
  buildTree_passes cs =
  Some {| bs_heap := records cs ++ nodes cmap n (records cs) (records cs);
          commentMap := cmap;
          rootComments := roots_of cmap (records cs) |}.
Proof.
  intros n cmap. unfold buildTree_passes.
  rewrite (build_spec _ _ _ (reads_records cs)).
  by rewrite records_length.
Qed.

Lemma buildTree_spec cs :
  let n := length cs in
  let cmap := index_ids n (records cs) ∅ in
  buildTree cs =
  Some (records cs ++ nodes cmap n (records cs) (records cs),
        roots_of cmap (records cs)).
Proof.
  intros n cmap. unfold buildTree, buildCommentTree.
  fold (buildTree_passes cs). by rewrite buildTree_passes_spec.
Qed.

Lemma kids_in_range b os L done r :
  r ∈ kids (index_ids b os ∅) L done -> b <= r < b + length os.
Proof.
  unfold kids. intros Hr. apply list_elem_of_omap in Hr as (o & _ & Hp).
  unfold pushed_to, pushed in Hp.
  destruct (truthy_parent (fields o)); [|done].
  destruct (index_ids b os ∅ !! _) as [parent|]; [|done].
  destruct (index_ids b os ∅ !! comment_id (fields o)) as [node|] eqn:Hn; [|done].
  destruct (decide (parent = L)); [|done]. injection Hp as <-.
  apply index_ids_range in Hn as [Hn|Hn]; [by rewrite lookup_empty in Hn|done].
Qed.

Lemma roots_in_range b os done r :
  r ∈ roots_of (index_ids b os ∅) done -> b <= r < b + length os.
Proof.
  unfold roots_of. intros Hr. apply list_elem_of_omap in Hr as (o & _ & Hp).
  unfold root_of in Hp. destruct (truthy_parent (fields o)); [done|].
  apply index_ids_range in Hp as [Hn|Hn]; [by rewrite lookup_empty in Hn|done].
Qed.

(** C10.  The tree builder never mutates its input.  For every heap and
    every array of comment objects in it, building succeeds and the heap
    it leaves begins with the heap it was given, cell for cell: no input
    record has been written.  Each array element has got a node of its own
    at a new address, carrying the element's fields and a [replies] array,
    and every address the builder has stored (in the roots, in a [replies]
    array) is the address of such a node, never of an input record. *)
Theorem buildCommentTree_input_unchanged (h : heap) (ls : list loc) (os : list Obj) :
  reads h ls os ->
  exists h' roots,
    buildCommentTree h ls = Some (h', roots) /\
    take (length h) h' = h /\
    length h' = length h + length os /\
    (forall i o, os !! i = Some o ->
       exists rs, h' !! (length h + i) = Some {| fields := fields o; replies := Some rs |} /\
                  Forall (fun r => length h <= r < length h + length os) rs) /\
    Forall (fun r => length h <= r < length h + length os) roots.
Proof.
  intros Hr. unfold buildCommentTree. rewrite (build_spec h ls os Hr).
  set (cmap := index_ids (length h) os ∅).
  eexists _, _. split; [done|]. simpl. repeat split.
  - by rewrite take_app_length.
  - by rewrite length_app, nodes_length.
  - intros i o Hi. eexists. split.
    + rewrite lookup_app_r by lia.
      replace (length h + i - length h) with i by lia.
      by rewrite nodes_lookup, Hi.
    + apply Forall_forall. intros r Hin.
      by apply kids_in_range in Hin.
  - apply Forall_forall. intros r Hin. by apply roots_in_range in Hin.
Qed.

Lemma buildCommentTree_input_unchanged_witness :
  exists h' roots,
    buildCommentTree (records [sample 1 None; sample 2 (Some 1%Z)]) [0; 1; 0]
      = Some (h', roots) /\
    take 2 h' = records [sample 1 None; sample 2 (Some 1%Z)].
Proof.
  destruct (buildCommentTree_input_unchanged
              (records [sample 1 None; sample 2 (Some 1%Z)]) [0; 1; 0]
              (records [sample 1 None; sample 2 (Some 1%Z); sample 1 None]))
    as (h' & roots & Hb & Htake & _).
  - unfold reads. repeat constructor.
  - exists h', roots. split; [exact Hb|exact Htake].
Defined.

(** Building never fails, whatever the list. *)
Lemma buildTree_total cs : is_Some (buildTree cs).
Proof. rewrite buildTree_spec. eauto. Qed.

(** With unique ids the forest can be read back and is what is drawn. *)
Lemma buildTree_forest cs :
  NoDup (map comment_id cs) ->
  exists h' roots forest,
    buildTree cs = Some (h', roots) /\
    forest_at (S (length cs)) h' roots = Some forest /\
    render_thread (S (length cs)) h' roots = Some (map (render_node 0) forest).
Proof.
  intros Hnd. rewrite buildTree_spec.
  rewrite <- ids_records in Hnd.
  destruct (built_forest_total (records cs) (records cs) Hnd) as [forest Hf].
  rewrite !records_length in Hf.
  eexists _, _, forest. split; [done|]. split; [done|].
  by rewrite render_thread_forest_at, Hf.
Qed.

(** C1, as the code has it.  Building never fails.  When the ids are
    unique, a comment whose parent id is truthy (not null, not 0) and is the
    id of no comment of the list is left out of the forest: it is no root
    and no reply of any node.  It is not promoted to a root. *)
Theorem orphan_left_out (cs : list Comment) :
  is_Some (buildTree cs) /\
  (NoDup (map comment_id cs) ->
   exists h' roots forest,
     buildTree cs = Some (h', roots) /\
     forest_at (S (length cs)) h' roots = Some forest /\
     forall c p, c ∈ cs -> truthy_parent c = Some p ->
                 p ∉ map comment_id cs ->
                 forall t, t ∈ forest -> c ∉ comments_of t).
Proof.
  split; [apply buildTree_total|].
  intros Hnd. destruct (buildTree_forest cs Hnd) as (h' & roots & forest & Hb & Hf & _).
  exists h', roots, forest. split; [done|]. split; [done|].
  intros c p Hc Hpar Hp t Ht Hin.
  rewrite buildTree_spec in Hb. injection Hb as <- <-.
  rewrite <- ids_records in Hnd, Hp.
  pose proof (built_forest_comments (records cs) (records cs) Hnd) as Hbc.
  rewrite !records_length in Hbc.
  destruct (Hbc _ _ t c Hf Ht Hin) as (j & o & q & Hj & Hfo & Hch). clear Hbc.
  inversion Hch as [L Hroot _|L L' q' Hup _ _]; subst.
  - destruct Hroot as (j' & o' & Hjj & Hj' & Hnone).
    assert (j' = j) as -> by lia. congruence.
  - unfold up_of in Hup.
    replace (length cs + j - length cs) with j in Hup by lia.
    rewrite Hj, Hpar in Hup.
    apply index_ids_inv in Hup as [Hup|(i & oi & _ & Hi & Hk)];
      [by rewrite lookup_empty in Hup|].
    apply Hp. unfold ids. apply list_elem_of_fmap.
    exists oi. split; [done|by eapply list_elem_of_lookup_2].
Qed.

Lemma orphan_left_out_witness :
  exists h' roots,
    buildTree [sample 1 None; sample 2 (Some 99%Z)] = Some (h', roots) /\
    forest_at 3 h' roots = Some [Node (sample 1 None) []].
Proof.
  destruct (orphan_left_out [sample 1 None; sample 2 (Some 99%Z)]) as [_ H].
  destruct H as (h' & roots & forest & Hb & Hf & _).
  - by_computation.
  - exists h', roots. split; [exact Hb|].
    vm_compute in Hb. injection Hb as <- <-. reflexivity.
Defined.

(** C1 as stated fails: the only comment of this list refers to the id 99,
    which is not in the list, and the forest built is empty. *)
Lemma orphan_not_promoted :
  exists h', buildTree [sample 2 (Some 99%Z)] = Some (h', []) /\
             forest_at 2 h' [] = Some [].
Proof. eexists. split; vm_compute; reflexivity. Qed.

(** With unique ids: the node of every comment carries the comment, its
    replies are the nodes of the comments whose truthy parent id is its id,
    and the roots are the nodes of the comments without a truthy parent
    id, all in the order of the list. *)
Lemma placement_general (cs : list Comment) :
  NoDup (map comment_id cs) ->
  exists st,
    buildTree_passes cs = Some st /\
    buildTree cs = Some (bs_heap st, rootComments st) /\
    (forall c, c ∈ cs ->
       exists L rs,
         commentMap st !! comment_id c = Some L /\
         bs_heap st !! L = Some {| fields := c; replies := Some rs |} /\
         Some <$> rs =
           (fun c' => commentMap st !! comment_id c') <$>
             filter (fun c' => truthy_parent c' = Some (comment_id c)) cs) /\
    Some <$> rootComments st =
      (fun c => commentMap st !! comment_id c) <$>
        filter (fun c => truthy_parent c = None) cs.
Proof.
  intros Hnd. rewrite buildTree_spec, buildTree_passes_spec.
  eexists. split; [done|]. split; [done|].
  rewrite <- ids_records in Hnd. simpl.
  set (cmap := index_ids (length cs) (records cs) ∅).
  split.
  - intros c Hc. apply list_elem_of_lookup in Hc as [i Hi].
    assert (records cs !! i = Some {| fields := c; replies := None |}) as Ho
      by (by rewrite records_lookup, Hi).
    pose proof (cmap_at (records cs) (records cs) Hnd i _ Ho) as Hcm.
    pose proof (node_lookup (records cs) (records cs) i _ Ho) as Hnode.
    pose proof (kids_filter (records cs) (records cs) Hnd i _ Ho) as Hk.
    rewrite !records_length in Hcm, Hnode, Hk. simpl in *.
    eexists _, _. split; [exact Hcm|]. split; [exact Hnode|].
    rewrite Hk.
    rewrite (filter_records (fun c' => truthy_parent c' = Some (comment_id c)) _ cs)
      by done.
    unfold records. by rewrite <- list_fmap_compose.
  - pose proof (roots_filter (records cs) (records cs) Hnd) as Hr.
    rewrite !records_length in Hr. unfold cmap. rewrite Hr.
    rewrite (filter_records (fun c' => truthy_parent c' = None) _ cs) by done.
    unfold records. by rewrite <- list_fmap_compose.
Qed.

(** The scenario: four comments with the ids 1 to 4, the second a reply to
    the first and the fourth a reply to the second, build the forest
    [1 [2 [4]], 3]. *)
Lemma scenario_forest (b1 b2 b3 b4 : Comment) :
  let c1 := with_ids 1 None b1 in
  let c2 := with_ids 2 (Some 1%Z) b2 in
  let c3 := with_ids 3 None b3 in
  let c4 := with_ids 4 (Some 2%Z) b4 in
  exists h' roots,
    buildTree [c1; c2; c3; c4] = Some (h', roots) /\
    forest_at 5 h' roots = Some [Node c1 [Node c2 [Node c4 []]]; Node c3 []].
Proof. intros. eexists _, _. split; vm_compute; reflexivity. Qed.

(** C2, as the code has it.  For a list with unique ids: a comment whose
    parent id is null or 0 is a root; a comment whose parent id is not 0
    and is the id of a comment of the list is among the replies of that
    comment's node, one level below it; the roots, and the replies of each
    node, are in the order of the list.  The list of the scenario builds
    the forest of the scenario, whatever the other fields of its four
    comments. *)
Theorem placement_and_order :
  (forall cs : list Comment,
     NoDup (map comment_id cs) ->
     exists st,
       buildTree_passes cs = Some st /\
       buildTree cs = Some (bs_heap st, rootComments st) /\
       (forall c, c ∈ cs ->
          exists L rs,
            commentMap st !! comment_id c = Some L /\
            bs_heap st !! L = Some {| fields := c; replies := Some rs |} /\
            Some <$> rs =
              (fun c' => commentMap st !! comment_id c') <$>
                filter (fun c' => truthy_parent c' = Some (comment_id c)) cs) /\
       Some <$> rootComments st =
         (fun c => commentMap st !! comment_id c) <$>
           filter (fun c => truthy_parent c = None) cs) /\
  (forall b1 b2 b3 b4 : Comment,
     let c1 := with_ids 1 None b1 in
     let c2 := with_ids 2 (Some 1%Z) b2 in
     let c3 := with_ids 3 None b3 in
     let c4 := with_ids 4 (Some 2%Z) b4 in
     exists h' roots,
       buildTree [c1; c2; c3; c4] = Some (h', roots) /\
       forest_at 5 h' roots = Some [Node c1 [Node c2 [Node c4 []]]; Node c3 []]).
Proof. split; [apply placement_general|apply scenario_forest]. Qed.

Lemma placement_and_order_witness :
  exists st,
    buildTree_passes [sample 1 None; sample 2 (Some 1%Z); sample 3 None;
                      sample 4 (Some 2%Z)] = Some st /\
    rootComments st = [4; 6].
Proof.
  destruct placement_and_order as [H _].
  destruct (H [sample 1 None; sample 2 (Some 1%Z); sample 3 None;
               sample 4 (Some 2%Z)]) as (st & Hb & _).
  - by_computation.
  - exists st. split; [exact Hb|].
    vm_compute in Hb. injection Hb as <-. reflexivity.
Defined.

(** C2 as stated fails where truthiness and null differ: the parent id 0
    of the second comment is the id of the first one, and the second
    comment is made a root, not a reply. *)
Lemma zero_parent_is_root :
  NoDup (map comment_id [sample 0 None; sample 5 (Some 0%Z)]) /\
  exists h' roots,
    buildTree [sample 0 None; sample 5 (Some 0%Z)] = Some (h', roots) /\
    forest_at 3 h' roots =
      Some [Node (sample 0 None) []; Node (sample 5 (Some 0%Z)) []].
Proof.
  split.
  - by_computation.
  - eexists _, _. split; vm_compute; reflexivity.
Qed.

(** C4, as the code has it.  Building terminates on every list.  When the
    ids are unique, cyclic parent references included, reading the forest
    and drawing it terminate within [length cs + 1] nested calls, and
    what is drawn is the whole forest, every level one step further in:
    there is no bound on the depth. *)
Theorem rendering_terminates (cs : list Comment) :
  is_Some (buildTree cs) /\
  (NoDup (map comment_id cs) ->
   exists h' roots forest,
     buildTree cs = Some (h', roots) /\
     forest_at (S (length cs)) h' roots = Some forest /\
     render_thread (S (length cs)) h' roots = Some (map (render_node 0) forest)).
Proof.
  split; [apply buildTree_total|apply buildTree_forest].
Qed.

Lemma rendering_terminates_witness :
  exists h' roots,
    buildTree [sample 1 (Some 2%Z); sample 2 (Some 1%Z); sample 3 None]
      = Some (h', roots) /\
    render_thread 4 h' roots = Some [QaComment 0 (sample 3 None) []].
Proof.
  destruct (rendering_terminates
              [sample 1 (Some 2%Z); sample 2 (Some 1%Z); sample 3 None])
    as [_ H].
  destruct H as (h' & roots & forest & Hb & _ & _).
  - by_computation.
  - exists h', roots. split; [exact Hb|].
    vm_compute in Hb. injection Hb as <- <-. reflexivity.
Defined.

(** A node that is its own reply cannot be drawn with any fuel. *)
Lemma self_reply_diverges (h : heap) (l : loc) (o : Obj) (rs : list loc) :
  h !! l = Some o -> replies o = Some (l :: rs) ->
  forall fuel depth, ThreadedComment fuel h l depth = None.
Proof.
  intros Ho Hrs fuel. induction fuel as [|fuel IH]; intros depth; [done|].
  simpl. rewrite Ho, Hrs. simpl.
  replace (0 <? Z.pos (Pos.of_succ_nat (length rs)))%Z with true by done.
  by rewrite IH.
Qed.

(** C4 as stated fails twice.  A chain of 52 replies is drawn down to its
    last comment, 51 levels deep (1530 pixels in), and nothing is reported
    as an error.  And when an id occurs twice, the node kept for it can
    become its own reply and a root: drawing it never ends. *)
Lemma no_depth_bound :
  (exists h' roots es,
     buildTree (reply_chain 52) = Some (h', roots) /\
     render_thread 53 h' roots = Some es /\
     map max_margin es = [1530%Z]) /\
  (exists h' root,
     buildTree [sample 1 None; sample 1 (Some 1%Z)] = Some (h', [root]) /\
     forall fuel, render_thread fuel h' [root] = None).
Proof.
  split.
  - eexists _, _, _. split; [vm_compute; reflexivity|].
    split; vm_compute; reflexivity.
  - eexists _, _. split; [vm_compute; reflexivity|].
    intros fuel. unfold render_thread. simpl.
    erewrite self_reply_diverges; [done| |]; reflexivity.
Qed.

End TreeBuilder.

(* ===================================================================== *)
(** ** Strings *)
(* ===================================================================== *)

Section StringFacts.

Implicit Types (s pre q : jsstring) (c : N).

Lemma lastIndexOf_from_notin s c i found :
  c ∉ s -> lastIndexOf_from s c i found = found.
Proof.
  revert i found. induction s as [|u s IH]; intros i found Hc; [done|].
  apply not_elem_of_cons in Hc as [Hne Hc]. simpl.
  rewrite (proj2 (N.eqb_neq u c)) by done. by apply IH.
Qed.

Lemma lastIndexOf_from_app pre c q i found :
  lastIndexOf_from (pre ++ c :: q) c i found =
  lastIndexOf_from q c (i + Z.of_nat (length pre) + 1) (i + Z.of_nat (length pre)).
Proof.
  revert i found. induction pre as [|u pre IH]; intros i found; simpl.
  - rewrite N.eqb_refl. f_equal; lia.
  - rewrite IH. f_equal; lia.
Qed.

Lemma lastIndexOf_last pre c q :
  c ∉ q -> lastIndexOf (pre ++ c :: q) c = Z.of_nat (length pre).
Proof.
  intros Hq. unfold lastIndexOf.
  rewrite lastIndexOf_from_app, lastIndexOf_from_notin by done. lia.
Qed.

Lemma lastIndexOf_none s c : c ∉ s -> lastIndexOf s c = -1.
Proof. intros. unfold lastIndexOf. by apply lastIndexOf_from_notin. Qed.

Lemma slice_after pre c q :
  slice (pre ++ c :: q) (Z.of_nat (length pre) + 1) = q.
Proof.
  unfold slice.
  replace (Z.of_nat (length pre) + 1 <? 0) with false by (symmetry; apply Z.ltb_ge; lia).
  replace (Z.to_nat (Z.of_nat (length pre) + 1)) with (length (pre ++ [c]))
    by (rewrite length_app; simpl; lia).
  rewrite (cons_middle c pre q), app_assoc. apply drop_app_length.
Qed.

Lemma includes_true s c : includes s c = true <-> c ∈ s.
Proof.
  unfold includes. rewrite existsb_exists. split.
  - intros (u & Hin & Hu). apply N.eqb_eq in Hu as ->. by apply list_elem_of_In.
  - intros Hin. exists c. split; [by apply list_elem_of_In|apply N.eqb_refl].
Qed.

Lemma includes_false s c : includes s c = false <-> c ∉ s.
Proof.
  rewrite <- includes_true. destruct (includes s c); split; congruence.
Qed.

End StringFacts.

(* ===================================================================== *)
(** ** Properties of the comment store and of the mention detection *)
(* ===================================================================== *)

Section CommentStore.

(** C5, as the code has it.  Split the text at its last '@'.  The mention
    is active exactly when what follows is not empty and holds no space
    character (U+0020; a tab or a line break does not end the token): then
    what follows is the query, the field is the active one and one search
    is sent for the query, with limit 10.  Otherwise, and when the text
    has no '@', nothing is sent, the suggestions are hidden and the query
    and the active field stay as they were. *)
Theorem mention_trigger (text : jsstring) (field : Field)
        (resp : Response (list Employee)) (st : State) :
  let r := handleTextChange text field resp st in
  (forall pre q, text = pre ++ AT :: q -> AT ∉ q ->
     (q <> [] /\ SPACE ∉ q ->
        mentionQuery (fst r) = q /\
        activeMentionField (fst r) = Some field /\
        snd r = [SearchEmployees q 10]) /\
     (q = [] \/ SPACE ∈ q ->
        snd r = [] /\
        showMentionSuggestions (fst r) = false /\
        mentionQuery (fst r) = mentionQuery st /\
        activeMentionField (fst r) = activeMentionField st)) /\
  (AT ∉ text ->
     snd r = [] /\
     showMentionSuggestions (fst r) = false /\
     mentionQuery (fst r) = mentionQuery st /\
     activeMentionField (fst r) = activeMentionField st).
Proof.
  intros r. subst r. split.
  - intros pre q -> Hq. unfold handleTextChange.
    rewrite lastIndexOf_last by done.
    replace (Z.of_nat (length pre) =? -1) with false
      by (symmetry; apply Z.eqb_neq; lia).
    rewrite slice_after. simpl negb at 1. cbv iota.
    split.
    + intros [Hne Hsp].
      rewrite (proj2 (includes_false q SPACE)) by done.
      destruct q as [|u q]; [done|].
      replace (0 <? Z.of_nat (length (u :: q))) with true
        by (symmetry; apply Z.ltb_lt; simpl; lia).
      unfold searchEmployees.
      replace (Z.of_nat (length (u :: q)) <? 1) with false
        by (symmetry; apply Z.ltb_ge; simpl; lia).
      simpl. destruct resp, field; done.
    + intros [->|Hsp].
      * simpl. destruct field; done.
      * rewrite (proj2 (includes_true q SPACE)) by done.
        simpl. destruct field; done.
  - intros Hno. unfold handleTextChange.
    rewrite lastIndexOf_none by done. simpl. destruct field; done.
Qed.

Lemma mention_trigger_witness :
  snd (handleTextChange (js "hello @jo") FieldNew (Resolved []) initial)
    = [SearchEmployees (js "jo") 10] /\
  snd (handleTextChange (js "hello @jo smith") FieldNew (Resolved []) initial) = [] /\
  snd (handleTextChange (js "hello @") FieldNew (Resolved []) initial) = [].
Proof.
  split; [|split].
  - destruct (mention_trigger (js "hello @jo") FieldNew (Resolved []) initial)
      as [H _].
    destruct (H (js "hello ") (js "jo")) as [Hon _].
    + reflexivity.
    + by_computation.
    + apply Hon. split; [done|]. by_computation.
  - destruct (mention_trigger (js "hello @jo smith") FieldNew (Resolved []) initial)
      as [H _].
    destruct (H (js "hello ") (js "jo smith")) as [_ Hoff].
    + reflexivity.
    + by_computation.
    + apply Hoff. right. by_computation.
  - destruct (mention_trigger (js "hello @") FieldNew (Resolved []) initial)
      as [H _].
    destruct (H (js "hello ") []) as [_ Hoff].
    + reflexivity.
    + by_computation.
    + apply Hoff. by left.
Defined.

(** C5 as stated fails for whitespace other than the space: after
    "@jo", a line break and "smith" the mention is still active, with the
    line break inside the query. *)
Lemma line_break_keeps_mention :
  let q := js "jo" ++ [10%N] ++ js "smith" in
  existsb is_whitespace q = true /\
  snd (handleTextChange (js "hello @" ++ q) FieldNew (Resolved []) initial)
    = [SearchEmployees q 10].
Proof. split; vm_compute; reflexivity. Qed.

(** What the body of [handleDeleteComment] writes after a confirmed and
    successful delete, whatever the state by then: the list of the render
    in which Delete was clicked, without the comments of the given id and
    in the old order; with unique ids, that list with the one comment cut
    out.  The replies to the deleted comment that were in that list stay. *)
Lemma delete_writes_closure_list (commentId : Z) (closure st : State) :
  let r := handleDeleteComment commentId true closure (Resolved tt) st in
  comments (fst r) `sublist_of` comments closure /\
  (forall c, c ∈ comments (fst r) <-> c ∈ comments closure /\ comment_id c <> commentId) /\
  (forall l1 c l2,
     comments closure = l1 ++ c :: l2 -> comment_id c = commentId ->
     NoDup (map comment_id (comments closure)) ->
     comments (fst r) = l1 ++ l2) /\
  snd r = [DeleteComment commentId] /\
  fst r = setComments (comments (fst r)) st.
Proof.
  simpl. split; [apply sublist_filter|].
  split; [intros c; rewrite list_elem_of_filter; tauto|].
  split; [|done].
  intros l1 c l2 Hsplit Hid Hnd. rewrite Hsplit in *.
  rewrite map_app in Hnd. simpl in Hnd.
  apply NoDup_app in Hnd as (_ & Hl1 & Hnd).
  apply NoDup_cons in Hnd as [Hl2 _].
  rewrite filter_app, filter_cons, decide_False by (intros H; by apply H).
  assert (forall l : list Comment, commentId ∉ map comment_id l ->
            filter (fun c0 => comment_id c0 <> commentId) l = l) as Hkeep.
  { clear. induction l as [|x l IH]; intros Hl; [done|].
    simpl in Hl. apply not_elem_of_cons in Hl as [Hx Hl].
    rewrite filter_cons, decide_True by done. by rewrite IH. }
  rewrite !Hkeep; [done| |].
  - by rewrite <- Hid.
  - intros Hin. apply (Hl1 commentId); [done|]. rewrite <- Hid. by left.
Qed.

(** C7 fails on the code.  The list is [1; 2], with 2 a reply to 1.
    Delete is clicked and confirmed on comment 1; before the [DELETE] is
    answered a poll brings comment 3, so the list is [1; 2; 3]; then the
    [DELETE] succeeds.  The list is then [2]: the list of the click
    without comment 1, not the previous list without it.  Comment 3, which
    was not deleted, is gone from the list. *)
Theorem delete_overwrites_poll :
  let c1 := sample 1 None in
  let c2 := sample 2 (Some 1) in
  let c3 := sample 3 None in
  let props := mkProps 12 (Some 7) in
  let s := run props [Loaded (Resolved (Some [c1; c2]));
                      DeleteClicked 1 true;
                      Loaded (Resolved (Some [c1; c2; c3]))] mounted in
  let s' := step props s (Answered 0 (Deleted (Resolved tt))) in
  comments (page s) = [c1; c2; c3] /\
  comments (page s') = [c2] /\
  comments (page s') <> [c2; c3] /\
  calls s' = [].
Proof. repeat split; try reflexivity. discriminate. Qed.

(** What the body of [handleEditComment] writes after a successful edit
    (the edit text of the render is not blank, so the request is sent),
    whatever the state by then: the list of the render in which Save was
    clicked, with the record the server returned at every position holding
    the given id and every other comment where it was.  The only request
    sent is the update. *)
Lemma edit_patches_closure_list (commentId : Z) (data : Comment) (closure st : State) :
  trim (editText closure) <> [] ->
  let r := handleEditComment commentId closure (Resolved data) st in
  length (comments (fst r)) = length (comments closure) /\
  (forall i c, comments closure !! i = Some c -> comment_id c <> commentId ->
               comments (fst r) !! i = Some c) /\
  (forall i c, comments closure !! i = Some c -> comment_id c = commentId ->
               comments (fst r) !! i = Some data) /\
  snd r = [PatchComment commentId (editText closure)].
Proof.
  intros Htext. unfold handleEditComment.
  destruct (trim (editText closure)) as [|u t] eqn:Htrim; [done|]. simpl.
  repeat split.
  - apply length_map.
  - intros i c Hi Hne.
    change (map ?f ?l) with (f <$> l). rewrite list_lookup_fmap, Hi. simpl.
    by rewrite (proj2 (Z.eqb_neq _ _) Hne).
  - intros i c Hi Heq.
    change (map ?f ?l) with (f <$> l). rewrite list_lookup_fmap, Hi. simpl.
    by rewrite (proj2 (Z.eqb_eq _ _) Heq).
Qed.

(** C8 fails on the code.  The list is [1; 2].  The user edits comment 2
    and clicks Save; before the [PATCH] is answered a poll brings comment
    3, so the list is [1; 2; 3]; then the [PATCH] succeeds.  The list is
    then the list of the click, patched: it has two comments, not three,
    and comment 3, which was not edited, is gone from it. *)
Theorem edit_overwrites_poll :
  let c1 := sample 1 None in
  let c2 := sample 2 (Some 1) in
  let c3 := sample 3 None in
  let data := mkComment 2 (Some 1) 7 (js "Ann") (js "fixed") (js "General")
                (js "2026-01-05T10:00:00") true [] in
  let props := mkProps 12 (Some 7) in
  let s := run props [Loaded (Resolved (Some [c1; c2]));
                      EditStarted c2;
                      TextChanged (js "fixed") FieldEdit;
                      EditSaveClicked 2;
                      Loaded (Resolved (Some [c1; c2; c3]))] mounted in
  let s' := step props s (Answered 0 (Patched (Resolved data))) in
  comments (page s) = [c1; c2; c3] /\
  comments (page s') = [c1; data] /\
  length (comments (page s')) <> length (comments (page s)) /\
  comments (page s') !! 2%nat <> Some c3 /\
  calls s' = [].
Proof. repeat split; try reflexivity; discriminate. Qed.

(** For contrast: a new comment that the server accepts is followed by a
    reload of the whole list. *)
Lemma submit_reloads (amendmentId me : Z) (items : list Comment) (st : State) :
  trim (newComment st) <> [] -> me <> 0 ->
  let r := handleSubmitComment amendmentId (Some me) None (Resolved tt)
             (Resolved (Some items)) st in
  comments (fst r) = items /\
  snd r = [PostComment amendmentId me (newComment st) (commentType st) None;
           GetComments amendmentId].
Proof.
  intros Htext Hme. unfold handleSubmitComment. simpl.
  destruct (trim (newComment st)) as [|u t] eqn:Htrim; [done|]. simpl.
  unfold truthy_num. rewrite (proj2 (Z.eqb_neq me 0) Hme). done.
Qed.

End CommentStore.

(* ===================================================================== *)
(** ** Properties of the reaction toggle *)
(* ===================================================================== *)

Section Reactions.

Import CommentReactions.

(** Filtering a list of which one element is removed or replaced. *)
Lemma filter_none {A} (P : A -> Prop) `{!forall x, Decision (P x)} (l : list A) :
  Forall (fun x => ~ P x) l -> filter P l = [].
Proof. induction 1 as [|x l Hx _ IH]; [done|]. by rewrite filter_cons_False. Qed.

Lemma filter_delete_other {A} (P : A -> Prop) `{!forall x, Decision (P x)}
      (l : list A) i x :
  l !! i = Some x -> ~ P x -> filter P (delete i l) = filter P l.
Proof.
  revert i. induction l as [|y l IH]; intros [|i] Hi Hx; simpl in *; try done.
  - injection Hi as ->. by rewrite filter_cons_False.
  - rewrite !filter_cons. rewrite (IH i) by done. done.
Qed.

Lemma filter_delete_sublist {A B} (P : A -> Prop) `{!forall x, Decision (P x)}
      (f : A -> B) (l : list A) i :
  f <$> filter P (delete i l) `sublist_of` f <$> filter P l.
Proof.
  revert i. induction l as [|y l IH]; intros [|i]; simpl; try done.
  - rewrite filter_cons. destruct (decide (P y)); [|done].
    rewrite fmap_cons. by apply sublist_cons.
  - rewrite !filter_cons. destruct (decide (P y)); [|apply IH].
    rewrite !fmap_cons. apply sublist_skip, IH.
Qed.

Lemma filter_delete_elem {A B} (P : A -> Prop) `{!forall x, Decision (P x)}
      (f : A -> B) (l : list A) i x :
  l !! i = Some x -> P x -> NoDup (f <$> filter P l) ->
  forall b, b ∈ f <$> filter P (delete i l) <-> b ∈ f <$> filter P l /\ b <> f x.
Proof.
  revert i. induction l as [|y l IH]; intros [|i] Hi Hx Hnd b; simpl in *;
    try done.
  - injection Hi as ->. rewrite filter_cons_True in * by done.
    rewrite fmap_cons in *. apply NoDup_cons in Hnd as [Hy Hnd].
    rewrite elem_of_cons. split.
    + intros Hb. split; [by right|]. by intros ->.
    + intros [[->|Hb] Hne]; done.
  - rewrite !filter_cons in *. destruct (decide (P y)) as [Hy|Hy].
    + rewrite !fmap_cons in *. apply NoDup_cons in Hnd as [Hfy Hnd].
      rewrite !elem_of_cons, (IH i Hi Hx Hnd b). split.
      * intros [->|[Hb Hne]]; [|by split; [right|]].
        split; [by left|]. intros Heq. apply Hfy. rewrite Heq.
        apply list_elem_of_fmap. exists x. split; [done|].
        apply list_elem_of_filter. split; [done|].
        by eapply list_elem_of_lookup_2.
      * intros [[->|Hb] Hne]; [by left|by right].
    + by apply IH.
Qed.

Lemma filter_insert_alike {A B} (P : A -> Prop) `{!forall x, Decision (P x)}
      (f : A -> B) (l : list A) i x y :
  l !! i = Some x -> (P y <-> P x) -> f y = f x ->
  f <$> filter P (<[i := y]> l) = f <$> filter P l.
Proof.
  revert i. induction l as [|z l IH]; intros [|i] Hi Hiff Hf; simpl in *;
    try done.
  - injection Hi as ->. rewrite !filter_cons.
    destruct (decide (P y)) as [Hy|Hy], (decide (P x)) as [Hx|Hx]; try tauto.
    by rewrite !fmap_cons, Hf.
  - rewrite !filter_cons. destruct (decide (P z)).
    + by rewrite !fmap_cons, (IH i).
    + by apply IH.
Qed.

Lemma guarded_init shown user : guarded (init shown user).
Proof.
  assert (busy (init shown user) = []) as Hnone.
  { unfold busy. simpl. rewrite (filter_none _ _); [done|].
    unfold loads. apply Forall_fmap, Forall_forall. intros c _. simpl. done. }
  unfold guarded. rewrite Hnone. simpl.
  split; [constructor|]. split; [|split].
  - intros c Hc. by apply elem_of_nil in Hc.
  - intros c w Hw Hl. rewrite lookup_fmap in Hw.
    destruct (shown !! c); simpl in Hw; [|done].
    injection Hw as <-. done.
  - apply Forall_fmap, Forall_forall. intros c _. simpl. lia.
Qed.

Lemma guarded_click c e s : guarded s -> guarded (toggleReaction c e s).
Proof.
  intros (Hnd & Hbusy & Hload & Hle). unfold toggleReaction.
  destruct (widgets s !! c) as [w|] eqn:Hw; [|done].
  destruct (loading w) eqn:Hl; [done|].
  assert (c ∉ busy s) as Hfree.
  { intros Hin. apply Hbusy in Hin. rewrite Hw in Hin. simpl in Hin. congruence. }
  unfold guarded, busy, live in *. simpl.
  rewrite filter_app, filter_cons_True, filter_nil
    by (simpl; by rewrite Nat.eqb_refl).
  rewrite fmap_app. simpl.
  split; [|split; [|split]].
  - apply NoDup_app. split; [done|]. split; [|apply NoDup_singleton].
    intros x Hx Hx'. apply list_elem_of_singleton in Hx' as ->. done.
  - intros c' Hin. destruct (decide (c' = c)) as [->|Hne].
    + by rewrite lookup_insert_eq.
    + rewrite lookup_insert_ne by done. apply Hbusy.
      apply elem_of_app in Hin as [Hin|Hin]; [done|].
      by apply list_elem_of_singleton in Hin.
  - intros c' w' Hw' Hl'. apply elem_of_app.
    destruct (decide (c' = c)) as [->|Hne].
    + right. by apply list_elem_of_singleton.
    + left. rewrite lookup_insert_ne in Hw' by done. by eapply Hload.
  - apply Forall_app. split; [done|]. constructor; [simpl; lia|constructor].
Qed.

(** A step that keeps the render, the calls of the mounted widgets and
    every [loading] flag. *)
Lemma guarded_keep s s' :
  guarded s ->
  render s' = render s ->
  busy s' = busy s ->
  Forall (fun t => (t_render t <= render s)%nat) (tasks s') ->
  (forall c, loading <$> widgets s' !! c = loading <$> widgets s !! c) ->
  guarded s'.
Proof.
  intros (Hnd & Hbusy & Hload & Hle) Hr Hb Hts Hws. unfold guarded.
  rewrite Hb, Hr. split; [done|]. split; [|split; [|done]].
  - intros c Hc. rewrite Hws. by apply Hbusy.
  - intros c w Hw Hl. specialize (Hws c). rewrite Hw in Hws. simpl in Hws.
    destruct (widgets s !! c) as [w0|] eqn:Hw0; [|done].
    simpl in Hws. apply (Hload c w0); congruence.
Qed.

Lemma alter_keeps_loading (f : Widget -> Widget) c (ws : gmap Z Widget) c' :
  (forall w, loading (f w) = loading w) ->
  loading <$> alter f c ws !! c' = loading <$> ws !! c'.
Proof.
  intros Hf. destruct (decide (c = c')) as [->|Hne].
  - rewrite lookup_alter_eq. destruct (ws !! c'); simpl; [|done]. by rewrite Hf.
  - by rewrite lookup_alter_ne.
Qed.

Lemma write_keeps_loading t (f : Widget -> Widget) s c :
  (forall w, loading (f w) = loading w) ->
  loading <$> write t f s !! c = loading <$> widgets s !! c.
Proof.
  intros Hf. unfold write. destruct (t_render t =? render s)%nat; [|done].
  by apply alter_keeps_loading.
Qed.

(** A call that goes on to its next [await]. *)
Lemma guarded_retask s i t a ws :
  guarded s -> tasks s !! i = Some t ->
  (forall c, loading <$> ws !! c = loading <$> widgets s !! c) ->
  guarded {| render := render s; widgets := ws;
             tasks := <[i := at_ a t]> (tasks s); storedUser := storedUser s |}.
Proof.
  intros Hg Hi Hws. apply (guarded_keep s); [done|done| | |done].
  - unfold busy, live. simpl.
    by apply (filter_insert_alike _ t_comment (tasks s) i t).
  - simpl. destruct Hg as (_ & _ & _ & Hle).
    apply Forall_insert; [done|]. simpl.
    by apply (Forall_lookup_1 _ _ _ _ Hle Hi).
Qed.

(** A call that ends. *)
Lemma guarded_finish s i t b :
  guarded s -> tasks s !! i = Some t -> guarded (finish i t b s).
Proof.
  intros Hg Hi. pose proof Hg as (Hnd & Hbusy & Hload & Hle).
  destruct (live s t) eqn:Hlive.
  - unfold live in Hlive. apply andb_true_iff in Hlive as [Htog Hren].
    unfold guarded, busy, finish, write in *. simpl.
    rewrite Htog, Hren.
    assert (forall x, x ∈ t_comment <$> filter (fun t0 => live s t0 = true)
                                        (delete i (tasks s))
                      <-> x ∈ t_comment <$> filter (fun t0 => live s t0 = true) (tasks s)
                          /\ x <> t_comment t) as Hdel.
    { apply filter_delete_elem; [done| |done].
      unfold live. by rewrite Htog, Hren. }
    split; [|split; [|split]].
    + eapply sublist_NoDup; [exact Hnd|]. apply filter_delete_sublist.
    + intros c' Hc'. apply Hdel in Hc' as [Hc' Hne].
      rewrite lookup_alter_ne by done. by apply Hbusy.
    + intros c' w Hw Hl. apply Hdel.
      destruct (decide (t_comment t = c')) as [<-|Hne].
      * rewrite lookup_alter_eq in Hw.
        destruct (widgets s !! t_comment t); simpl in Hw; [|done].
        injection Hw as <-. by destruct b.
      * rewrite lookup_alter_ne in Hw by done. split; [by eapply Hload|done].
    + by apply Forall_delete.
  - apply (guarded_keep s); [done|done| | |].
    + unfold busy, finish. simpl.
      change (filter (fun t0 => live (finish i t b s) t0 = true))
        with (filter (fun t0 => live s t0 = true)).
      rewrite (filter_delete_other _ (tasks s) i t); [done|done|].
      unfold live in *. simpl. by rewrite Hlive.
    + simpl. by apply Forall_delete.
    + intros c. unfold finish, write. simpl.
      unfold live in Hlive.
      destruct (t_toggle t); [|done]. simpl in Hlive. by rewrite Hlive.
Qed.

Lemma guarded_resume i out s : guarded s -> guarded (resume i out s).
Proof.
  intros Hg. unfold resume.
  destruct (tasks s !! i) as [t|] eqn:Hi; [|done].
  destruct (t_at t), out; try done.
  - by apply guarded_retask.
  - by apply guarded_finish.
  - apply guarded_retask; [done|done|].
    intros c. by apply write_keeps_loading.
  - by apply guarded_finish.
  - apply guarded_finish; [|done].
    apply (guarded_keep s); [done|done|done|by destruct Hg as (_ & _ & _ & Hle)|].
    intros c. simpl. destruct (myReactions (storedUser s) data); [|done].
    by apply write_keeps_loading.
  - by apply guarded_finish.
Qed.

(** A render unmounts every widget: no call is then a call of a mounted
    widget, and no widget is loading. *)
Lemma guarded_rendered shown s : guarded s -> guarded (fire (Rendered shown) s).
Proof.
  intros (Hnd & Hbusy & Hload & Hle).
  assert (busy (fire (Rendered shown) s) = []) as Hnone.
  { unfold busy. simpl. rewrite (filter_none _ _); [done|].
    apply Forall_app. split.
    - eapply Forall_impl; [exact Hle|]. intros t Ht. unfold live.
      simpl in *.
      replace (t_render t =? S (render s))%nat with false
        by (symmetry; apply Nat.eqb_neq; lia).
      by rewrite andb_false_r.
    - unfold loads. apply Forall_fmap, Forall_forall. intros c _. simpl. done. }
  unfold guarded. rewrite Hnone. simpl.
  split; [constructor|]. split; [|split].
  - intros c Hc. by apply elem_of_nil in Hc.
  - intros c w Hw Hl. rewrite lookup_fmap in Hw.
    destruct (shown !! c); simpl in Hw; [|done].
    injection Hw as <-. done.
  - apply Forall_app. split.
    + eapply Forall_impl; [exact Hle|]. intros t Ht. simpl in *. lia.
    + unfold loads. apply Forall_fmap, Forall_forall. intros c _. simpl. lia.
Qed.

Lemma guarded_fire ev s : guarded s -> guarded (fire ev s).
Proof.
  intros Hg. destruct ev.
  - by apply guarded_click.
  - apply (guarded_keep s); [done|done|done|by destruct Hg as (_ & _ & _ & Hle)|].
    intros c. by apply alter_keeps_loading.
  - apply (guarded_keep s); [done|done|done|by destruct Hg as (_ & _ & _ & Hle)|].
    intros c. by apply alter_keeps_loading.
  - by apply guarded_rendered.
  - apply (guarded_keep s); [done|done|done|by destruct Hg as (_ & _ & _ & Hle)|done].
  - by apply guarded_resume.
Qed.

Lemma guarded_run evs s : guarded s -> guarded (run evs s).
Proof.
  revert s. induction evs as [|ev evs IH]; intros s Hg; [done|].
  simpl. apply IH. by apply guarded_fire.
Qed.

(** C9 fails on the code.  Comment 5 is shown with one thumbs-up, so its
    thumbs-up button is there.  The button is clicked: the widget is
    loading and its [POST] is in flight, and a further click is ignored.
    Then the comment list renders again, as it does when a poll is
    answered or when the user types: the widget of comment 5 is unmounted
    and a new one is mounted, not loading.  A click on its thumbs-up
    button is not ignored: a second [POST] for comment 5 goes out while
    the first is in flight. *)
Theorem remount_lets_second_toggle :
  let thumb : jsstring := [55357; 56397]%N in
  let shown : gmap Z (list (jsstring * Z)) := {[ 5 := [(thumb, 1)] ]} in
  let s1 := run [Click 5 thumb] (init shown (UserValue (Some 7))) in
  let s2 := fire (Rendered shown) s1 in
  let s3 := fire (Click 5 thumb) s2 in
  posting s1 = [5] /\
  loading <$> widgets s1 !! 5 = Some true /\
  fire (Click 5 thumb) s1 = s1 /\
  loading <$> widgets s2 !! 5 = Some false /\
  posting s3 = [5; 5] /\
  ~ NoDup (posting s3).
Proof.
  repeat split; try by_computation.
  all: vm_compute; try reflexivity.
Qed.

End Reactions.

(* ===================================================================== *)
(** ** Properties of the QA workflow panel *)
(* ===================================================================== *)

Section QAWorkflow.

Import QASection.

(** The handlers that keep a snapshot put it back when the call fails. *)
Lemma settle_rejected_restores props sent prevData msg st :
  qaData (run (settle props Rejected sent prevData msg) st) = prevData.
Proof. reflexivity. Qed.

(** C6.  [handleStatusChange] first sets the local state to [updates] and
    then sends the same [updates] as the payload.  [updates] has the new
    status; when the new status is "In Testing" and no started timestamp is
    set, its started timestamp is the current time; when the new status is
    "Passed" or "Failed", its completed flag is true and, if no completion
    timestamp was set, its completion timestamp is the current time. *)
Theorem status_change_stamps (props : Props) (qaData : QAData)
        (now newStatus : jsstring) (persist : Response unit) :
  exists updates rest,
    handleStatusChange props qaData now newStatus persist
      = SetQaData updates :: UpdateQA (amendment_id props) updates :: rest /\
    qa_status updates = newStatus /\
    (newStatus = js "In Testing" -> qa_started_date qaData = None ->
       qa_started_date updates = Some now) /\
    (newStatus = js "Passed" \/ newStatus = js "Failed" ->
       qa_completed updates = true /\
       (qa_completed_date qaData = None -> qa_completed_date updates = Some now)).
Proof.
  eexists _, _. split; [reflexivity|]. unfold status_updates.
  split; [|split].
  - repeat case_bool_decide; simpl; repeat case_match; done.
  - intros -> Hnone. rewrite Hnone. simpl. done.
  - intros Hdone.
    assert (bool_decide (newStatus = js "Passed")
            || bool_decide (newStatus = js "Failed") = true) as ->.
    { destruct Hdone as [->| ->]; reflexivity. }
    done.
Qed.

Lemma status_change_stamps_witness :
  exists updates rest,
    handleStatusChange (mkProps 12 true) blank (js "2026-01-05T10:00:00.000Z")
      (js "Passed") Rejected
    = SetQaData updates :: UpdateQA 12 updates :: rest /\
    qa_completed updates = true /\
    qa_completed_date updates = Some (js "2026-01-05T10:00:00.000Z").
Proof.
  destruct (status_change_stamps (mkProps 12 true) blank
              (js "2026-01-05T10:00:00.000Z") (js "Passed") Rejected)
    as (updates & rest & Heq & _ & _ & Hdone).
  destruct Hdone as [Hflag Hdate]; [by left|].
  exists updates, rest. split; [exact Heq|]. split; [exact Hflag|].
  apply Hdate. reflexivity.
Defined.

(** The completion timestamp is written even when one was set, and the
    started timestamp only when none was. *)
Lemma completion_restamped qaData now :
  qa_completed_date (status_updates qaData now (js "Passed")) = Some now /\
  qa_completed_date (status_updates qaData now (js "Failed")) = Some now.
Proof. split; reflexivity. Qed.

Lemma started_kept qaData now started :
  qa_started_date qaData = Some started -> started <> [] ->
  qa_started_date (status_updates qaData now (js "In Testing")) = Some started.
Proof.
  intros Hs Hne. unfold status_updates. rewrite Hs. simpl.
  destruct started; [done|]. simpl. done.
Qed.

(** C3, as the code has it.  When the persistence call fails, a status
    transition, an assignment, a checklist toggle and an overall-result
    selection leave [qaData] as it was before the mutation.  Notes are not
    rolled back: the text typed into the modal stays in [qaData] after the
    failed save, which itself leaves [qaData] as it found it. *)
Theorem rollback_on_failure (props : Props) (now : jsstring) (st : State) :
  (forall m, (forall text, m <> Notes text) ->
     qaData (mutate props now Rejected m st) = qaData st) /\
  (forall text,
     qaData (mutate props now Rejected (Notes text) st)
     = with_qa_notes text (qaData st)) /\
  qaData (step props now Rejected st SaveNotesClicked) = qaData st.
Proof.
  split; [|split].
  - intros m Hm. destruct m; try reflexivity. by destruct (Hm text).
  - reflexivity.
  - reflexivity.
Qed.

Lemma rollback_on_failure_witness :
  qaData (mutate (mkProps 12 true) (js "2026-01-05T10:00:00.000Z") Rejected
            (StatusTransition (js "Passed")) blank_state) = blank.
Proof.
  destruct (rollback_on_failure (mkProps 12 true)
              (js "2026-01-05T10:00:00.000Z") blank_state) as [H _].
  apply (H (StatusTransition (js "Passed"))). discriminate.
Defined.

(** C3 as stated fails for notes: after typing a note and a failed save,
    the note is still in the local state. *)
Lemma notes_not_rolled_back :
  let st := mutate (mkProps 12 true) (js "2026-01-05T10:00:00.000Z") Rejected
              (Notes (js "retest on Monday")) blank_state in
  qa_notes (qaData st) = js "retest on Monday" /\
  qaData st <> qaData blank_state.
Proof. split; [reflexivity|discriminate]. Qed.

End QAWorkflow.

(* ===================================================================== *)
(** ** Which comments the forest holds *)
(* ===================================================================== *)

Section Visit.

Local Open Scope nat_scope.

Variables (h : heap) (base n : nat).
Variable up : loc -> option loc.
Variable is_root : loc -> Prop.
Variable roots : list loc.

Hypothesis root_listed : forall L, is_root L -> L ∈ roots.
Hypothesis up_reply :
  forall r L, up r = Some L -> base <= r < base + n ->
    exists o, h !! L = Some o /\ r ∈ default [] (replies o).

Local Abbreviation chain := (QAComments.chain base n up is_root).

Lemma node_at_head fuel L t :
  node_at fuel h L = Some t ->
  exists o, h !! L = Some o /\ fields o ∈ comments_of t.
Proof.
  destruct fuel as [|fuel]; [done|]. simpl.
  destruct (h !! L) as [o|]; [|done].
  destruct (mapM _ _); [|done]. intros [= <-].
  exists o. split; [done|]. simpl. by apply elem_of_cons; left.
Qed.

Lemma node_at_reply fuel L o r t :
  node_at (S fuel) h L = Some t -> h !! L = Some o ->
  r ∈ default [] (replies o) ->
  exists tr, node_at fuel h r = Some tr /\
             forall c, c ∈ comments_of tr -> c ∈ comments_of t.
Proof.
  simpl. intros Ht Ho Hr. rewrite Ho in Ht.
  destruct (mapM (node_at fuel h) (default [] (replies o))) as [ts|] eqn:Hts; [|done].
  injection Ht as <-. apply mapM_Some in Hts.
  apply list_elem_of_lookup in Hr as [i Hi].
  destruct (Forall2_lookup_l _ _ _ _ _ Hts Hi) as (tr & Htr & Hnode).
  exists tr. split; [done|]. intros c Hc. simpl. apply elem_of_cons; right.
  apply list_elem_of_In, in_flat_map. exists tr.
  split; apply list_elem_of_In; [by eapply list_elem_of_lookup_2|done].
Qed.

(** A node with a chain to a root is read back, [length p] levels below
    the root. *)
Lemma chain_visited fuel forest p :
  mapM (node_at fuel h) roots = Some forest ->
  chain p ->
  forall L q k, p = L :: q -> fuel = k + length p ->
    exists t, node_at (S k) h L = Some t /\
              forall c, c ∈ comments_of t -> c ∈ forest_comments forest.
Proof.
  intros Hf. induction 1 as [L0 Hroot HL0|L0 L' p Hup HL0 Hch IH];
    intros L q k [= <- <-] Hfuel.
  - apply mapM_Some in Hf. apply root_listed in Hroot.
    apply list_elem_of_lookup in Hroot as [i Hi].
    destruct (Forall2_lookup_l _ _ _ _ _ Hf Hi) as (t & Ht & Hnode).
    exists t. split; [by rewrite Hfuel in Hnode; simpl in Hnode;
                          replace (k + 1) with (S k) in Hnode by lia|].
    intros c Hc. apply list_elem_of_In, in_flat_map. exists t.
    split; apply list_elem_of_In; [by eapply list_elem_of_lookup_2|done].
  - destruct (IH L' p (S k) eq_refl) as (t' & Ht' & Hsub);
      [simpl in *; lia|].
    destruct (up_reply L0 L' Hup HL0) as (o & Ho & Hr).
    destruct (node_at_reply (S k) L' o L0 t' Ht' Ho Hr) as (t & Ht & Hin).
    exists t. split; [done|]. intros c Hc. by apply Hsub, Hin.
Qed.

End Visit.

Section Members.

Local Open Scope nat_scope.

Variables (h : heap) (os : list Obj).
Hypothesis unique : NoDup (ids os).

Let base := length h.
Let cmap := index_ids base os ∅.
Let h' := h ++ nodes cmap base os os.
Let cs := map fields os.

Local Abbreviation up_of := (QAComments.up_of base os cmap).
Local Abbreviation root_at := (QAComments.root_at base os).
Local Abbreviation chain := (QAComments.chain base (length os) up_of root_at).

Lemma in_cs_lookup c : c ∈ cs -> exists j o, os !! j = Some o /\ fields o = c.
Proof.
  unfold cs. change (map fields os) with (fields <$> os).
  intros Hc. apply list_elem_of_fmap in Hc as (o & -> & Ho).
  apply list_elem_of_lookup in Ho as [j Hj]. by exists j, o.
Qed.

Lemma lookup_in_cs j o : os !! j = Some o -> fields o ∈ cs.
Proof.
  intros Hj. unfold cs. change (map fields os) with (fields <$> os).
  apply list_elem_of_fmap_2. by eapply list_elem_of_lookup_2.
Qed.

Lemma chain_reaches p :
  chain p ->
  forall j o q, p = (base + j) :: q -> os !! j = Some o ->
    reaches_root cs (fields o).
Proof.
  induction 1 as [L Hroot HL|L L' p Hup HL Hch IH]; intros j o q [= -> <-] Hj.
  - destruct Hroot as (j' & o' & Hjj & Hj' & Hnone).
    assert (j' = j) as -> by lia.
    assert (o' = o) as -> by congruence.
    apply reaches_here; [by eapply lookup_in_cs|done].
  - unfold QAComments.up_of in Hup.
    replace (base + j - base) with j in Hup by lia. rewrite Hj in Hup.
    destruct (truthy_parent (fields o)) as [pid|] eqn:Hpar; [|done].
    apply (cmap_inv h os) in Hup as (i & oi & -> & Hi & Hk).
    apply (reaches_up cs (fields o) (fields oi));
      [by eapply lookup_in_cs|by eapply lookup_in_cs|by rewrite Hk|].
    by eapply (IH i oi).
Qed.

Lemma reaches_chain c :
  reaches_root cs c ->
  forall j o, os !! j = Some o -> fields o = c -> exists q, chain ((base + j) :: q).
Proof.
  induction 1 as [c Hc Hpar|c parent Hc Hparent Hpar _ IH]; intros j o Hj Hfo.
  - exists []. constructor.
    + exists j, o. by rewrite Hfo.
    + apply lookup_lt_Some in Hj. lia.
  - destruct (in_cs_lookup parent Hparent) as (i & oi & Hi & Hfoi).
    destruct (IH i oi Hi Hfoi) as [q Hq].
    exists ((base + i) :: q). constructor; [|apply lookup_lt_Some in Hj; lia|done].
    unfold QAComments.up_of. replace (base + j - base) with j by lia.
    rewrite Hj, Hfo, Hpar, <- Hfoi. by apply (cmap_at h os).
Qed.

Lemma built_root_listed L : root_at L -> L ∈ roots_of cmap os.
Proof.
  intros (j & o & -> & Hj & Hnone). unfold roots_of.
  apply list_elem_of_omap. exists o. split; [by eapply list_elem_of_lookup_2|].
  unfold root_of. rewrite Hnone. by apply (cmap_at h os).
Qed.

Lemma built_up_reply r L :
  up_of r = Some L -> base <= r < base + length os ->
  exists o, h' !! L = Some o /\ r ∈ default [] (replies o).
Proof.
  intros Hup Hr. unfold QAComments.up_of in Hup.
  destruct (os !! (r - base)) as [oj|] eqn:Hj; [|done].
  destruct (truthy_parent (fields oj)) as [pid|] eqn:Hpar; [|done].
  pose proof Hup as Hup'.
  apply (cmap_inv h os) in Hup' as (i & oi & -> & Hi & Hk).
  eexists. split; [by apply (node_lookup h os i oi)|]. simpl.
  unfold kids. apply list_elem_of_omap. exists oj.
  split; [by eapply list_elem_of_lookup_2|].
  unfold pushed_to, pushed. fold base cmap. rewrite Hpar, Hup.
  pose proof (cmap_at h os unique _ _ Hj) as Hnode. fold base cmap in Hnode.
  rewrite Hnode, decide_True by done. f_equal. lia.
Qed.

(** With unique ids, the forest read back holds exactly the comments from
    which the parent ids lead to a root. *)
Lemma forest_spec forest c :
  forest_at (S (length os)) h' (roots_of cmap os) = Some forest ->
  c ∈ forest_comments forest <-> reaches_root cs c.
Proof.
  intros Hf. split.
  - intros Hc. apply list_elem_of_In, in_flat_map in Hc as (t & Ht & Hc).
    apply list_elem_of_In in Ht, Hc.
    destruct (built_forest_comments h os unique _ _ t c Hf Ht Hc)
      as (j & o & q & Hj & <- & Hch).
    by eapply chain_reaches.
  - intros Hreach.
    assert (c ∈ cs) as Hc by (by destruct Hreach).
    destruct (in_cs_lookup c Hc) as (j & o & Hj & Hfo).
    destruct (reaches_chain c Hreach j o Hj Hfo) as [q Hch].
    pose proof (chain_length base (length os) up_of root_at
                  (built_root_no_up h os) _ Hch) as Hlen.
    destruct (chain_visited h' base (length os) up_of root_at (roots_of cmap os)
                built_root_listed built_up_reply (S (length os)) forest _ Hf Hch
                (base + j) q (S (length os) - length ((base + j) :: q)) eq_refl)
      as (t & Ht & Hsub); [simpl in *; lia|].
    apply Hsub. apply node_at_head in Ht as (o' & Ho' & Hin).
    unfold h', cmap, base in Ho'. rewrite (node_lookup h os j o Hj) in Ho'.
    injection Ho' as <-. simpl in Hin. by rewrite <- Hfo.
Qed.

End Members.

(* ===================================================================== *)
(** ** The forest after loading, editing and deleting *)
(* ===================================================================== *)

Section ForestAfter.

Local Open Scope nat_scope.

Lemma fields_records cs : map fields (records cs) = cs.
Proof. unfold records. rewrite map_map. simpl. apply map_id. Qed.

Lemma buildTree_members cs :
  NoDup (map comment_id cs) ->
  exists h' roots forest,
    buildTree cs = Some (h', roots) /\
    forest_at (S (length cs)) h' roots = Some forest /\
    forall c, c ∈ forest_comments forest <-> reaches_root cs c.
Proof.
  intros Hnd. rewrite buildTree_spec. rewrite <- ids_records in Hnd.
  destruct (built_forest_total (records cs) (records cs) Hnd) as [forest Hf].
  rewrite !records_length in Hf. eexists _, _, forest.
  split; [done|]. split; [done|]. intros c.
  pose proof (forest_spec (records cs) (records cs) Hnd forest c) as Hspec.
  rewrite !records_length, fields_records in Hspec. by apply Hspec.
Qed.

(** X1.  For a list with unique ids, the forest holds exactly the comments
    from which the parent ids lead, through comments of the list, to a
    comment whose parent id is null or 0.  A comment below a missing
    parent, and a comment on a cycle of parent ids, is in no tree. *)
Theorem forest_members (cs : list Comment) :
  NoDup (map comment_id cs) ->
  exists h' roots forest,
    buildTree cs = Some (h', roots) /\
    forest_at (S (length cs)) h' roots = Some forest /\
    forall c, c ∈ forest_comments forest <-> reaches_root cs c.
Proof. apply buildTree_members. Qed.

Lemma forest_members_witness :
  exists h' roots forest,
    buildTree [sample 1 None; sample 2 (Some 1%Z); sample 3 (Some 9%Z);
               sample 4 (Some 3%Z)] = Some (h', roots) /\
    forest_at 5 h' roots = Some forest /\
    forest_comments forest = [sample 1 None; sample 2 (Some 1%Z)].
Proof.
  destruct (forest_members [sample 1 None; sample 2 (Some 1%Z);
                            sample 3 (Some 9%Z); sample 4 (Some 3%Z)])
    as (h' & roots & forest & Hb & Hf & _); [by_computation|].
  exists h', roots, forest. split; [exact Hb|]. split; [exact Hf|].
  vm_compute in Hb. injection Hb as <- <-.
  vm_compute in Hf. injection Hf as <-. reflexivity.
Defined.

Lemma reaches_root_mono cs cs' c :
  (forall x, x ∈ cs' -> x ∈ cs) -> reaches_root cs' c -> reaches_root cs c.
Proof.
  intros Hsub. induction 1 as [c Hc Hpar|c parent Hc Hp Hpar _ IH].
  - apply reaches_here; auto.
  - eapply reaches_up; eauto.
Qed.

(** X2.  Deleting a comment takes its replies out of the view although
    they stay in the list.  The list written after a confirmed and
    successful delete comes from the list of the render in which Delete
    was clicked, whatever the list has become by then.  When that list has
    unique ids, each of its replies to the deleted comment is in the list
    written and in no tree of the forest built from it, and that forest
    holds only comments that reached a root in the list of the click. *)
Theorem delete_hides_replies (commentId : Z) (closure st : State) :
  NoDup (map comment_id (comments closure)) ->
  let st' := fst (handleDeleteComment commentId true closure (Resolved tt) st) in
  exists h' roots forest,
    buildTree (comments st') = Some (h', roots) /\
    forest_at (S (length (comments st'))) h' roots = Some forest /\
    (forall reply,
       reply ∈ comments closure -> truthy_parent reply = Some commentId ->
       comment_id reply <> commentId ->
       reply ∈ comments st' /\ reply ∉ forest_comments forest) /\
    (forall c, c ∈ forest_comments forest -> reaches_root (comments closure) c).
Proof.
  intros Hnd. simpl.
  set (cs' := filter (fun c => comment_id c <> commentId) (comments closure)).
  assert (NoDup (map comment_id cs')) as Hnd'.
  { eapply sublist_NoDup; [exact Hnd|].
    apply (fmap_sublist comment_id), sublist_filter. }
  destruct (buildTree_members cs' Hnd') as (h' & roots & forest & Hb & Hf & Hspec).
  exists h', roots, forest. split; [done|]. split; [done|]. split.
  - intros reply Hin Hpar Hne. split; [by apply list_elem_of_filter|].
    intros Hdrawn. apply Hspec in Hdrawn.
    inversion Hdrawn as [? _ Hnone|? parent _ Hparent Hp _]; subst; [congruence|].
    apply list_elem_of_filter in Hparent as [Hid _]. congruence.
  - intros c Hc. apply Hspec in Hc. eapply reaches_root_mono; [|done].
    intros x Hx. by apply list_elem_of_filter in Hx as [_ Hx].
Qed.

Lemma delete_hides_replies_witness :
  let closure := editing [sample 1 None; sample 2 (Some 1%Z); sample 3 None] 3 [] in
  let st := setComments [sample 1 None; sample 2 (Some 1%Z); sample 3 None;
                         sample 4 (Some 1%Z)] closure in
  let st' := fst (handleDeleteComment 1 true closure (Resolved tt) st) in
  exists h' roots forest,
    buildTree (comments st') = Some (h', roots) /\
    forest_at 3 h' roots = Some forest /\
    sample 2 (Some 1%Z) ∈ comments st' /\
    sample 2 (Some 1%Z) ∉ forest_comments forest.
Proof.
  intros closure st st'.
  destruct (delete_hides_replies 1 closure st)
    as (h' & roots & forest & Hb & Hf & Hrep & _); [by_computation|].
  exists h', roots, forest. split; [exact Hb|]. split; [exact Hf|].
  apply Hrep; [by_computation|reflexivity|discriminate].
Defined.

Lemma index_ids_ext b os os' (m : gmap Z loc) :
  ids os = ids os' -> index_ids b os m = index_ids b os' m.
Proof.
  revert b m os'. induction os as [|o os IH]; intros b m [|o' os'] Hids;
    try done.
  simpl in *. injection Hids as Hid Hids. rewrite Hid. by apply IH.
Qed.

Lemma kids_ext (cmap : gmap Z loc) L cs cs' :
  same_links cs cs' ->
  kids cmap L (records cs) = kids cmap L (records cs').
Proof.
  induction 1 as [|c c' cs cs' [Hid Hpar] _ IH]; [done|].
  change (records (c :: cs))
    with ({| fields := c; replies := None |} :: records cs).
  change (records (c' :: cs'))
    with ({| fields := c'; replies := None |} :: records cs').
  assert (forall o os, kids cmap L (o :: os) =
            match pushed_to cmap L o with
            | Some x => x :: kids cmap L os
            | None => kids cmap L os
            end) as Hcons by done.
  rewrite !Hcons, IH. unfold pushed_to, pushed. simpl. by rewrite Hid, Hpar.
Qed.

Lemma roots_of_ext (cmap : gmap Z loc) cs cs' :
  same_links cs cs' ->
  roots_of cmap (records cs) = roots_of cmap (records cs').
Proof.
  induction 1 as [|c c' cs cs' [Hid Hpar] _ IH]; [done|].
  change (records (c :: cs))
    with ({| fields := c; replies := None |} :: records cs).
  change (records (c' :: cs'))
    with ({| fields := c'; replies := None |} :: records cs').
  assert (forall o os, roots_of cmap (o :: os) =
            match root_of cmap o with
            | Some x => x :: roots_of cmap os
            | None => roots_of cmap os
            end) as Hcons by done.
  rewrite !Hcons, IH. unfold root_of. simpl. by rewrite Hid, Hpar.
Qed.

Lemma same_links_ids cs cs' :
  same_links cs cs' -> map comment_id cs = map comment_id cs'.
Proof.
  induction 1 as [|c c' cs cs' [Hid _] _ IH]; [done|]. simpl. by rewrite Hid, IH.
Qed.

Lemma shape_by_links_gen cs cs' :
  same_links cs cs' ->
  exists h1 h2 roots,
    buildTree cs = Some (h1, roots) /\
    buildTree cs' = Some (h2, roots) /\
    replies <$> h1 = replies <$> h2.
Proof.
  intros Hl. rewrite !buildTree_spec.
  pose proof (Forall2_length _ _ _ Hl) as Hlen. rewrite <- Hlen.
  assert (index_ids (length cs) (records cs') ∅
          = index_ids (length cs) (records cs) ∅) as ->.
  { apply index_ids_ext. rewrite !ids_records. symmetry. by apply same_links_ids. }
  set (cmap := index_ids (length cs) (records cs) ∅).
  eexists _, _, _. split; [done|]. split.
  - by rewrite (roots_of_ext cmap cs cs' Hl).
  - rewrite !fmap_app. f_equal.
    + assert (forall l, replies <$> records l = replicate (length l) None) as Hrec.
      { induction l as [|x l IHl]; [done|].
        change (records (x :: l))
          with ({| fields := x; replies := None |} :: records l).
        rewrite fmap_cons, IHl. done. }
      by rewrite !Hrec, Hlen.
    + apply list_eq. intros i. rewrite !list_lookup_fmap, !nodes_lookup.
      rewrite !records_lookup.
      rewrite (kids_ext cmap (length cs + i) cs cs' Hl).
      destruct (cs !! i) eqn:Hc, (cs' !! i) eqn:Hc'; simpl; try done.
      * apply lookup_lt_Some in Hc. apply lookup_ge_None in Hc'. lia.
      * apply lookup_lt_Some in Hc'. apply lookup_ge_None in Hc. lia.
Qed.

(** X3.  The shape of the forest depends on the ids and on the truthy
    parent ids only: two lists that agree on them, position by position,
    give the same roots and the same [replies] arrays, cell for cell. *)
Theorem shape_by_links (cs cs' : list Comment) :
  same_links cs cs' ->
  exists h1 h2 roots,
    buildTree cs = Some (h1, roots) /\
    buildTree cs' = Some (h2, roots) /\
    replies <$> h1 = replies <$> h2.
Proof. apply shape_by_links_gen. Qed.

Lemma shape_by_links_witness :
  exists h1 h2 roots,
    buildTree [sample 1 None; sample 2 (Some 1%Z)] = Some (h1, roots) /\
    buildTree [with_ids 1 (Some 0%Z) (sample 8 None); sample 2 (Some 1%Z)]
      = Some (h2, roots) /\
    replies <$> h1 = replies <$> h2.
Proof.
  apply (shape_by_links [sample 1 None; sample 2 (Some 1%Z)]
           [with_ids 1 (Some 0%Z) (sample 8 None); sample 2 (Some 1%Z)]).
  repeat constructor.
Defined.

Lemma patch_same_links commentId data cs :
  comment_id data = commentId ->
  (forall c, c ∈ cs -> comment_id c = commentId ->
             truthy_parent c = truthy_parent data) ->
  same_links cs (map (fun c => if (comment_id c =? commentId)%Z then data else c) cs).
Proof.
  intros Hid Hpar. induction cs as [|c cs IH]; [constructor|].
  simpl. constructor.
  - destruct (comment_id c =? commentId)%Z eqn:Heq; [|done].
    apply Z.eqb_eq in Heq. split; [congruence|].
    apply Hpar; [by apply elem_of_cons; left|done].
  - apply IH. intros c' Hc'. apply Hpar. by apply elem_of_cons; right.
Qed.

(** X4.  An edit does not by itself change the shape of the thread.  The
    list written after a successful edit comes from the list of the render
    in which Save was clicked; when the record the server returns has the
    edited id and the parent of the comment it replaces there, the forest
    built from the list written has the roots and the [replies] arrays of
    the forest built from the list of the click. *)
Theorem edit_keeps_shape (commentId : Z) (data : Comment) (closure st : State) :
  trim (editText closure) <> [] ->
  comment_id data = commentId ->
  (forall c, c ∈ comments closure -> comment_id c = commentId ->
             truthy_parent c = truthy_parent data) ->
  let st' := fst (handleEditComment commentId closure (Resolved data) st) in
  exists h1 h2 roots,
    buildTree (comments closure) = Some (h1, roots) /\
    buildTree (comments st') = Some (h2, roots) /\
    replies <$> h1 = replies <$> h2.
Proof.
  intros Htext Hid Hpar. unfold handleEditComment.
  destruct (trim (editText closure)) as [|u t] eqn:Htrim; [done|]. simpl.
  apply shape_by_links_gen. by apply patch_same_links.
Qed.

Lemma edit_keeps_shape_witness :
  let closure := editing [sample 1 None; sample 2 (Some 1%Z)] 2 (js "fixed") in
  let st := setComments [sample 1 None; sample 2 (Some 1%Z); sample 3 None] closure in
  let data := mkComment 2 (Some 1%Z) 7 (js "Ann") (js "fixed") (js "General")
                (js "2026-01-05T10:00:00") true [] in
  exists h1 h2,
    buildTree (comments closure) = Some (h1, [2]) /\
    buildTree (comments (fst (handleEditComment 2 closure (Resolved data) st)))
      = Some (h2, [2]) /\
    replies <$> h1 = replies <$> h2.
Proof.
  intros closure st data.
  destruct (edit_keeps_shape 2 data closure st) as (h1 & h2 & roots & H1 & H2 & Hr).
  - vm_compute. discriminate.
  - reflexivity.
  - intros c Hc Hid. apply list_elem_of_In in Hc. simpl in Hc.
    destruct Hc as [<-|[<-|[]]]; [discriminate|reflexivity].
  - exists h1, h2. pose proof H1 as H1'. vm_compute in H1'.
    injection H1' as _ <-. done.
Defined.

End ForestAfter.

(* ===================================================================== *)
(** ** No comment is in the forest twice *)
(* ===================================================================== *)

Section Once.

Local Open Scope nat_scope.

Variables (h : heap) (base n : nat).
Variable up : loc -> option loc.
Variable is_root : loc -> Prop.

Hypothesis reply_up :
  forall L o r, base <= L < base + n -> h !! L = Some o ->
    r ∈ default [] (replies o) -> up r = Some L /\ base <= r < base + n.
Hypothesis root_no_up : forall L, is_root L -> up L = None.
Hypothesis replies_nodup :
  forall L o, base <= L < base + n -> h !! L = Some o ->
    NoDup (default [] (replies o)).
Hypothesis fields_inj :
  forall L L' o o', base <= L < base + n -> base <= L' < base + n ->
    h !! L = Some o -> h !! L' = Some o' -> fields o = fields o' -> L = L'.

Local Abbreviation chain := (QAComments.chain base n up is_root).
Local Abbreviation below := (QAComments.below h base n up is_root).

Lemma below_head r s o : chain (r :: s) -> h !! r = Some o -> below s r (fields o).
Proof. intros Hc Ho. by exists [], r, o. Qed.

Lemma below_step L p r c : below (L :: p) r c -> below p L c.
Proof.
  intros (q & L' & o & Hc & Hhd & Ho & Hf).
  exists (q ++ [r]), L', o. rewrite <- app_assoc. simpl.
  split; [done|]. split; [|done]. by destruct q.
Qed.

Lemma head_cons (w : list loc) L : head w = Some L -> exists x, w = L :: x.
Proof. destruct w as [|y w]; [done|]. intros [= ->]. by exists w. Qed.

Lemma below_sep s r1 r2 c : below s r1 c -> below s r2 c -> r1 = r2.
Proof.
  intros (q1 & L1 & o1 & Hc1 & Hh1 & Ho1 & Hf1) (q2 & L2 & o2 & Hc2 & Hh2 & Ho2 & Hf2).
  destruct (head_cons _ _ Hh1) as [x1 Hw1]. destruct (head_cons _ _ Hh2) as [x2 Hw2].
  assert (L1 = L2) as <-.
  { apply (fields_inj L1 L2 o1 o2); [| |done|done|congruence].
    - apply (chain_in_range base n up is_root _ L1 Hc1). rewrite Hw1. by left.
    - apply (chain_in_range base n up is_root _ L2 Hc2). rewrite Hw2. by left. }
  rewrite Hw1 in Hc1. rewrite Hw2 in Hc2.
  pose proof (chain_func base n up is_root root_no_up _ _ _ Hc1 Hc2) as Hx.
  assert (q1 ++ r1 :: s = q2 ++ r2 :: s) as Heq by congruence.
  apply app_inj_2 in Heq as [_ Heq]; [congruence|done].
Qed.

Lemma below_not_self L p r o :
  chain (L :: p) -> h !! L = Some o -> below (L :: p) r (fields o) -> False.
Proof.
  intros Hc Ho (q & L' & o' & Hc' & Hh' & Ho' & Hf').
  destruct (head_cons _ _ Hh') as [x Hw].
  assert (L' = L) as ->.
  { apply (fields_inj L' L o' o); [| |done|done|done].
    - apply (chain_in_range base n up is_root _ L' Hc'). rewrite Hw. by left.
    - apply (chain_in_range base n up is_root _ L Hc). by left. }
  rewrite Hw in Hc'.
  pose proof (chain_func base n up is_root root_no_up _ _ _ Hc Hc') as <-.
  apply (f_equal length) in Hw. rewrite length_app in Hw. simpl in Hw. lia.
Qed.

(** Trees read below distinct nodes that share the way to the root have no
    comment in common. *)
Lemma siblings_once fuel rs ts s :
  (forall r t, chain (r :: s) -> node_at fuel h r = Some t ->
     NoDup (comments_of t) /\ forall c, c ∈ comments_of t -> below s r c) ->
  NoDup rs ->
  Forall2 (fun r t => node_at fuel h r = Some t) rs ts ->
  (forall r, r ∈ rs -> chain (r :: s)) ->
  NoDup (forest_comments ts) /\
  forall c, c ∈ forest_comments ts -> exists r, r ∈ rs /\ below s r c.
Proof.
  intros IH Hnd Hf. induction Hf as [|r t rs ts Hrt _ IHf]; intros Hch.
  - split; [constructor|]. intros c Hc. by apply elem_of_nil in Hc.
  - apply NoDup_cons in Hnd as [Hr Hnd].
    destruct (IH r t) as [Hnt Hbt]; [apply Hch; by left|done|].
    destruct (IHf Hnd) as [Hnts Hbts]; [intros r' Hr'; apply Hch; by right|].
    unfold forest_comments in *. simpl. split.
    + apply NoDup_app. split; [done|]. split; [|done].
      intros c Hc Hc'. apply Hbt in Hc. apply Hbts in Hc' as (r' & Hr' & Hb').
      assert (r = r') as -> by (by eapply below_sep). done.
    + intros c Hc. apply elem_of_app in Hc as [Hc|Hc].
      * exists r. split; [by left|by apply Hbt].
      * apply Hbts in Hc as (r' & Hr' & Hb'). exists r'. split; [by right|done].
Qed.

Lemma node_at_once fuel L p t :
  chain (L :: p) -> node_at fuel h L = Some t ->
  NoDup (comments_of t) /\ forall c, c ∈ comments_of t -> below p L c.
Proof.
  revert L p t. induction fuel as [|fuel IH]; intros L p t Hc Ht; [done|].
  simpl in Ht. destruct (h !! L) as [o|] eqn:Ho; [|done].
  destruct (mapM (node_at fuel h) (default [] (replies o))) as [ts|] eqn:Hts; [|done].
  injection Ht as <-. apply mapM_Some in Hts.
  assert (base <= L < base + n) as HL
    by (eapply chain_in_range; [done|by apply elem_of_cons; left]).
  destruct (siblings_once fuel (default [] (replies o)) ts (L :: p)) as [Hnd Hb].
  - intros r t. apply IH.
  - by eapply replies_nodup.
  - done.
  - intros r Hr. destruct (reply_up L o r HL Ho Hr) as [Hup Hrange].
    by constructor.
  - simpl. fold (forest_comments ts). split.
    + apply NoDup_cons. split; [|done]. intros Hin.
      apply Hb in Hin as (r & _ & Hbr). by eapply below_not_self.
    + intros c Hin. apply elem_of_cons in Hin as [->|Hin].
      * by apply below_head.
      * apply Hb in Hin as (r & _ & Hbr). by eapply below_step.
Qed.

Lemma forest_once fuel roots forest :
  NoDup roots -> (forall r, r ∈ roots -> chain [r]) ->
  forest_at fuel h roots = Some forest ->
  NoDup (forest_comments forest).
Proof.
  intros Hnd Hch Hf. unfold forest_at in Hf. apply mapM_Some in Hf.
  apply (siblings_once fuel roots forest []); try done.
  intros r t. apply node_at_once.
Qed.

End Once.

Section OnceBuilt.

Local Open Scope nat_scope.

Lemma NoDup_omap_inj {A B} (f : A -> option B) (l : list A) :
  NoDup l ->
  (forall x y z, x ∈ l -> y ∈ l -> f x = Some z -> f y = Some z -> x = y) ->
  NoDup (omap f l).
Proof.
  induction 1 as [|x l Hx Hnd IH]; intros Hinj; [constructor|].
  assert (NoDup (omap f l)) as IH'.
  { apply IH. intros a b z Ha Hb. apply Hinj; by right. }
  change (omap f (x :: l))
    with (match f x with Some y => y :: omap f l | None => omap f l end).
  destruct (f x) as [z|] eqn:Hfx; [|done].
  apply NoDup_cons. split; [|done].
  intros Hz. apply list_elem_of_omap in Hz as (y & Hy & Hfy).
  assert (x = y) as -> by (eapply Hinj; [by left|by right|done|done]).
  done.
Qed.

Variables (h : heap) (os : list Obj).
Hypothesis unique : NoDup (ids os).

Let base := length h.
Let cmap := index_ids base os ∅.
Let h' := h ++ nodes cmap base os os.

Lemma os_nodup : NoDup os.
Proof. unfold ids in unique. by apply (NoDup_fmap_1 (fun o => comment_id (fields o))). Qed.

Lemma same_node x y z :
  x ∈ os -> y ∈ os ->
  cmap !! comment_id (fields x) = Some z ->
  cmap !! comment_id (fields y) = Some z -> x = y.
Proof.
  intros Hx Hy Hzx Hzy.
  apply list_elem_of_lookup in Hx as [i Hi]. apply list_elem_of_lookup in Hy as [j Hj].
  pose proof (cmap_at h os unique i x Hi) as Hcx.
  pose proof (cmap_at h os unique j y Hj) as Hcy.
  fold base cmap in Hcx, Hcy.
  assert (i = j) as -> by (rewrite Hcx in Hzx; rewrite Hcy in Hzy; simplify_eq; lia).
  congruence.
Qed.

Lemma kids_nodup L : NoDup (kids cmap L os).
Proof.
  unfold kids. apply NoDup_omap_inj; [apply os_nodup|].
  intros x y z Hx Hy Hfx Hfy. unfold pushed_to, pushed in Hfx, Hfy.
  repeat case_match; simplify_eq. by eapply same_node.
Qed.

Lemma roots_nodup : NoDup (roots_of cmap os).
Proof.
  unfold roots_of. apply NoDup_omap_inj; [apply os_nodup|].
  intros x y z Hx Hy Hfx Hfy. unfold root_of in Hfx, Hfy.
  repeat case_match; simplify_eq. by eapply same_node.
Qed.

Lemma built_replies_nodup L o :
  base <= L < base + length os -> h' !! L = Some o ->
  NoDup (default [] (replies o)).
Proof.
  intros HL Ho.
  destruct (lookup_lt_is_Some_2 os (L - base)) as [oL HoL]; [lia|].
  replace L with (base + (L - base)) in Ho by lia.
  unfold h', cmap, base in *. rewrite (node_lookup h os _ oL HoL) in Ho.
  injection Ho as <-. simpl. apply kids_nodup.
Qed.

Lemma built_fields_inj L L' o o' :
  base <= L < base + length os -> base <= L' < base + length os ->
  h' !! L = Some o -> h' !! L' = Some o' -> fields o = fields o' -> L = L'.
Proof.
  intros HL HL' Ho Ho' Hf.
  destruct (lookup_lt_is_Some_2 os (L - base)) as [x Hx]; [lia|].
  destruct (lookup_lt_is_Some_2 os (L' - base)) as [y Hy]; [lia|].
  replace L with (base + (L - base)) in Ho by lia.
  replace L' with (base + (L' - base)) in Ho' by lia.
  unfold h', cmap, base in *.
  rewrite (node_lookup h os _ x Hx) in Ho. rewrite (node_lookup h os _ y Hy) in Ho'.
  injection Ho as <-. injection Ho' as <-. simpl in Hf.
  assert (L - length h = L' - length h); [|lia].
  eapply (ids_inj os unique); [done|done|by rewrite Hf].
Qed.

Lemma built_forest_once fuel forest :
  forest_at fuel h' (roots_of cmap os) = Some forest ->
  NoDup (forest_comments forest).
Proof.
  apply (forest_once h' base (length os)
           (up_of base os cmap) (root_at base os)
           (built_reply_up h os unique) (built_root_no_up h os)
           built_replies_nodup built_fields_inj).
  - apply roots_nodup.
  - apply (roots_chain h os unique).
Qed.

End OnceBuilt.

Section ForestOnce.

Local Open Scope nat_scope.

(** X5.  For a list with unique ids no comment is in the forest twice,
    and the forest holds at most as many comments as the list. *)
Theorem forest_has_no_comment_twice (cs : list Comment) :
  NoDup (map comment_id cs) ->
  exists h' roots forest,
    buildTree cs = Some (h', roots) /\
    forest_at (S (length cs)) h' roots = Some forest /\
    NoDup (forest_comments forest) /\
    length (forest_comments forest) <= length cs.
Proof.
  intros Hnd.
  destruct (buildTree_members cs Hnd) as (h' & roots & forest & Hb & Hf & Hspec).
  exists h', roots, forest. split; [done|]. split; [done|].
  assert (NoDup (forest_comments forest)) as Honce.
  { rewrite buildTree_spec in Hb. injection Hb as <- <-.
    rewrite <- ids_records in Hnd.
    pose proof (built_forest_once (records cs) (records cs) Hnd
                  (S (length cs)) forest) as Honce.
    rewrite !records_length in Honce. by apply Honce. }
  split; [done|].
  apply submseteq_length, NoDup_submseteq; [done|].
  intros c Hc. apply Hspec in Hc. by destruct Hc.
Qed.

Lemma forest_has_no_comment_twice_witness :
  exists h' roots forest,
    buildTree [sample 1 None; sample 2 (Some 1%Z); sample 3 (Some 1%Z)]
      = Some (h', roots) /\
    forest_at 4 h' roots = Some forest /\
    NoDup (forest_comments forest).
Proof.
  destruct (forest_has_no_comment_twice
              [sample 1 None; sample 2 (Some 1%Z); sample 3 (Some 1%Z)])
    as (h' & roots & forest & Hb & Hf & Hnd & _); [by_computation|].
  by exists h', roots, forest.
Defined.

End ForestOnce.

(* ===================================================================== *)
(** ** Mentions, drafts and the comment store as an event loop *)
(* ===================================================================== *)

Section MentionsAndStore.






Lemma slice_to_prefix pre c q :
  slice_to (pre ++ c :: q) (Z.of_nat (length pre)) = pre.
Proof.
  unfold slice_to.
  replace (Z.of_nat (length pre) <? 0) with false by (symmetry; apply Z.ltb_ge; lia).
  rewrite length_app. simpl.
  rewrite Z.min_l by lia. rewrite Nat2Z.id. apply take_app_length.
Qed.

(** X7.  Picking a suggestion replaces the token: after a text change that
    activated the mention on [pre ++ "@" ++ q], [insertMention] sets that
    field to [pre ++ "@" ++ name ++ " "], hides the suggestions, leaves no
    field active and leaves the two other drafts and the comments alone. *)
Theorem insertMention_replaces_token (pre q : jsstring) (field : Field)
        (resp : Response (list Employee)) (employee : Employee) (st : State) :
  AT ∉ q -> q <> [] -> SPACE ∉ q ->
  let st1 := fst (handleTextChange (pre ++ AT :: q) field resp st) in
  exists st2,
    insertMention employee st1 = Some st2 /\
    field_text field st2 = pre ++ AT :: e_employee_name employee ++ [SPACE] /\
    showMentionSuggestions st2 = false /\
    activeMentionField st2 = None /\
    (forall other, other <> field -> field_text other st2 = field_text other st) /\
    comments st2 = comments st.
Proof.
  intros Hat Hne Hsp. simpl.
  assert (activeMentionField (fst (handleTextChange (pre ++ AT :: q) field resp st))
            = Some field /\
          forall f, field_text f (fst (handleTextChange (pre ++ AT :: q) field resp st))
                    = if decide (f = field) then pre ++ AT :: q else field_text f st)
    as [Hact Htxt].
  { unfold handleTextChange. rewrite lastIndexOf_last by done.
    replace (Z.of_nat (length pre) =? -1) with false
      by (symmetry; apply Z.eqb_neq; lia).
    rewrite slice_after. simpl negb at 1. cbv iota.
    rewrite (proj2 (includes_false q SPACE)) by done.
    destruct q as [|u q]; [done|].
    replace (0 <? Z.of_nat (length (u :: q))) with true
      by (symmetry; apply Z.ltb_lt; simpl; lia).
    unfold searchEmployees.
    replace (Z.of_nat (length (u :: q)) <? 1) with false
      by (symmetry; apply Z.ltb_ge; simpl; lia).
    simpl. split.
    - destruct resp, field; done.
    - intros f. destruct resp, field, f; done. }
  unfold insertMention. rewrite Hact. eexists. split; [reflexivity|].
  rewrite (Htxt field), decide_True by done.
  rewrite lastIndexOf_last, slice_to_prefix by done.
  set (st1 := fst (handleTextChange (pre ++ AT :: q) field resp st)) in *.
  split; [by destruct field|]. split; [by destruct field|].
  split; [by destruct field|]. split.
  - intros other Hother.
    transitivity (field_text other st1).
    + by destruct field, other.
    + by rewrite Htxt, decide_False.
  - transitivity (comments st1); [by destruct field|].
    unfold st1, handleTextChange.
    repeat case_match; unfold searchEmployees; repeat case_match;
      by destruct field.
Qed.

Lemma insertMention_replaces_token_witness :
  exists st2,
    insertMention (mkEmployee 4 (js "Jo Ray"))
      (fst (handleTextChange (js "hello @jo") FieldNew
              (Resolved [mkEmployee 4 (js "Jo Ray")]) initial)) = Some st2 /\
    newComment st2 = js "hello @Jo Ray ".
Proof.
  destruct (insertMention_replaces_token (js "hello ") (js "jo") FieldNew
              (Resolved [mkEmployee 4 (js "Jo Ray")])
              (mkEmployee 4 (js "Jo Ray")) initial)
    as (st2 & Hins & Htext & _); [by_computation|done|by_computation|].
  exists st2. split; [exact Hins|exact Htext].
Defined.

(** X8.  A space ends the token for good: whatever the text before it,
    once a space follows and no '@' comes after it, a text change sends no
    search and hides the suggestions.  So what is typed after an inserted
    mention starts no lookup until the next '@'. *)
Theorem space_ends_mention (before after : jsstring) (field : Field)
        (resp : Response (list Employee)) (st : State) :
  AT ∉ after ->
  let r := handleTextChange (before ++ SPACE :: after) field resp st in
  snd r = [] /\ showMentionSuggestions (fst r) = false.
Proof.
  intros Hafter. simpl. unfold handleTextChange.
  destruct (decide (AT ∈ before)) as [Hin|Hnot].
  - apply list_elem_of_split_r in Hin as (a & b & -> & Hb).
    rewrite <- app_assoc. simpl.
    assert (AT ∉ b ++ SPACE :: after) as Hlast.
    { intros Hx. apply elem_of_app in Hx as [Hx|Hx]; [done|].
      apply elem_of_cons in Hx as [Hx|Hx]; [discriminate|done]. }
    rewrite lastIndexOf_last by done.
    replace (Z.of_nat (length a) =? -1) with false
      by (symmetry; apply Z.eqb_neq; lia).
    rewrite slice_after. simpl negb at 1. cbv iota.
    rewrite (proj2 (includes_true (b ++ SPACE :: after) SPACE)).
    + simpl. by destruct field.
    + apply elem_of_app. right. by left.
  - rewrite lastIndexOf_none.
    + simpl. by destruct field.
    + intros Hx. apply elem_of_app in Hx as [Hx|Hx]; [done|].
      apply elem_of_cons in Hx as [Hx|Hx]; [discriminate|done].
Qed.

Lemma space_ends_mention_witness :
  snd (handleTextChange (js "hello @Jo Ray and") FieldNew (Resolved []) initial) = [].
Proof.
  apply (space_ends_mention (js "hello @Jo") (js "Ray and") FieldNew
           (Resolved []) initial).
  by_computation.
Defined.

Lemma slice_to_minus_one s : slice_to s (-1) = removelast s.
Proof.
  unfold slice_to. simpl.
  induction s as [|u s IH]; [done|].
  destruct s as [|v s]; [done|].
  change (removelast (u :: v :: s)) with (u :: removelast (v :: s)).
  rewrite <- IH. clear IH.
  replace (Z.to_nat (Z.max (Z.of_nat (length (u :: v :: s)) + -1) 0))
    with (S (Z.to_nat (Z.max (Z.of_nat (length (v :: s)) + -1) 0)))
    by (simpl length; lia).
  done.
Qed.

(** X9.  Picking a suggestion when the active field holds no '@' (its text
    was changed while the suggestions were shown) removes the last
    character of the draft and appends the mention; with no active field
    the handler throws. *)
Theorem insertMention_without_at (employee : Employee) (st : State) :
  (activeMentionField st = None -> insertMention employee st = None) /\
  (forall field,
     activeMentionField st = Some field ->
     AT ∉ field_text field st ->
     exists st2,
       insertMention employee st = Some st2 /\
       field_text field st2 =
         removelast (field_text field st)
         ++ AT :: e_employee_name employee ++ [SPACE]).
Proof.
  split.
  - intros Hnone. unfold insertMention. by rewrite Hnone.
  - intros field Hact Hno. unfold insertMention. rewrite Hact.
    eexists. split; [reflexivity|].
    rewrite lastIndexOf_none, slice_to_minus_one by done.
    by destruct field.
Qed.

Lemma insertMention_without_at_witness :
  exists st2,
    insertMention (mkEmployee 4 (js "Jo Ray"))
      (setActiveMentionField (Some FieldNew) (setNewComment (js "hello") initial))
      = Some st2 /\
    newComment st2 = js "hell@Jo Ray ".
Proof.
  destruct (insertMention_without_at (mkEmployee 4 (js "Jo Ray"))
              (setActiveMentionField (Some FieldNew)
                 (setNewComment (js "hello") initial))) as [_ H].
  destruct (H FieldNew) as (st2 & Hins & Htext); [reflexivity|by_computation|].
  exists st2. split; [exact Hins|exact Htext].
Defined.

(** X10.  Submitting a comment or a reply: at most one [POST] is sent, and
    the list is loaded again only after the [POST] succeeded; when the
    [POST] fails the drafts and the comments are what they were; whenever
    something was sent, [submitting] is false again at the end. *)
Theorem submit_outcomes (amendmentId : Z) (user parent : option Z)
        (post : Response unit) (reload : Response (option (list Comment)))
        (st : State) :
  let r := handleSubmitComment amendmentId user parent post reload st in
  (snd r = [] \/
   (exists text type who p,
      snd r = [PostComment amendmentId who text type p] /\ post = Rejected) \/
   (exists text type who p,
      snd r = [PostComment amendmentId who text type p; GetComments amendmentId] /\
      post = Resolved tt)) /\
  (post = Rejected ->
     newComment (fst r) = newComment st /\ replyText (fst r) = replyText st /\
     comments (fst r) = comments st) /\
  (snd r <> [] -> submitting (fst r) = false).
Proof.
  simpl. unfold handleSubmitComment.
  destruct (negb (truthy_str (trim _))); [by split; [left|]|].
  destruct user as [who|]; [|by split; [left|]].
  destruct (truthy_num who); [|by split; [left|]].
  destruct post as [[]|].
  - unfold loadComments.
    destruct reload; (split; [right; right; by eexists _, _, _, _|]);
      (split; [done|]); intros _; by destruct (truthy_opt truthy_num parent).
  - split; [right; left; by eexists _, _, _, _|]. done.
Qed.

Lemma submit_outcomes_witness :
  let st := setNewComment (js "first") initial in
  let r := handleSubmitComment 12 (Some 7) None Rejected Rejected st in
  newComment (fst r) = js "first" /\ submitting (fst r) = false.
Proof.
  intros st r.
  destruct (submit_outcomes 12 (Some 7) None Rejected Rejected st)
    as (_ & Hkept & Hdone).
  split; [by apply Hkept|]. apply Hdone. discriminate.
Defined.

(** The event loop agrees with the handlers run to their end: a text
    change whose search is answered at once, and a submit whose requests
    are answered at once, leave the state [handleTextChange] and
    [handleSubmitComment] give. *)
Lemma text_change_alone props text field resp st :
  page (run props [TextChanged text field; Answered 0 (Employees resp)] (at_rest st))
  = fst (handleTextChange text field resp st).
Proof.
  unfold run, at_rest. simpl. unfold handleTextChange.
  destruct (negb (lastIndexOf text AT =? -1)); [|done].
  destruct (negb (includes _ SPACE) && _); [|done].
  unfold searchEmployees.
  destruct (negb (truthy_str _) || _) eqn:Hguard; [done|].
  simpl. unfold answered. simpl. unfold searchEmployees. by rewrite Hguard.
Qed.

Lemma submit_alone props parent post reload st :
  page (run props [SubmitClicked parent; Answered 0 (Posted post);
                   Answered 0 (Items reload)] (at_rest st))
  = fst (handleSubmitComment (amendmentId props) (currentUser props) parent
           post reload st).
Proof.
  unfold run, at_rest. simpl. unfold submit_clicked, handleSubmitComment.
  destruct (negb (truthy_str (trim _))); [done|].
  destruct (currentUser props) as [who|]; [|done].
  destruct (truthy_num who); [|done].
  simpl. unfold answered. simpl.
  destruct post as [[]|]; simpl; [|done].
  unfold submit_reloaded. by destruct (loadComments _ reload _).
Qed.

(** Likewise an edit and a delete that are answered before anything else
    happens leave the state their handlers give when the state they read
    and the state they write are the same. *)
Lemma edit_alone props commentId resp st :
  page (run props [EditSaveClicked commentId; Answered 0 (Patched resp)] (at_rest st))
  = fst (handleEditComment commentId st resp st).
Proof.
  unfold run, at_rest. simpl. unfold handleEditComment.
  destruct (negb (truthy_str (trim (editText st)))) eqn:Hguard; [done|].
  simpl. unfold answered. simpl. unfold handleEditComment. by rewrite Hguard.
Qed.

Lemma delete_alone props commentId confirmed resp st :
  page (run props [DeleteClicked commentId confirmed; Answered 0 (Deleted resp)]
          (at_rest st))
  = fst (handleDeleteComment commentId confirmed st resp st).
Proof. unfold run, at_rest. by destruct confirmed. Qed.

Lemma patch_keeps_ids commentId data (cs : list Comment) :
  comment_id data = commentId ->
  map comment_id (map (fun c => if comment_id c =? commentId then data else c) cs)
  = map comment_id cs.
Proof.
  intros Hid. induction cs as [|c cs IH]; [done|]. simpl. rewrite IH. f_equal.
  destruct (comment_id c =? commentId) eqn:Heq; [|done].
  apply Z.eqb_eq in Heq. congruence.
Qed.

(** The handlers that do not touch the list. *)
Lemma handleTextChange_comments text field resp st :
  comments (fst (handleTextChange text field resp st)) = comments st.
Proof.
  unfold handleTextChange.
  repeat case_match; unfold searchEmployees; repeat case_match;
    by destruct field.
Qed.

Lemma searchEmployees_comments query resp st :
  comments (fst (searchEmployees query resp st)) = comments st.
Proof. unfold searchEmployees. by repeat case_match. Qed.

Lemma insertMention_comments employee st :
  comments (default st (insertMention employee st)) = comments st.
Proof.
  unfold insertMention. destruct (activeMentionField st) as [f|]; [|done].
  simpl. by destruct f.
Qed.

Lemma submit_clicked_comments a u parent st :
  comments (fst (submit_clicked a u parent st)) = comments st.
Proof. unfold submit_clicked. by repeat case_match. Qed.

Lemma searches_are_searches sent :
  Forall (fun call => match call with SearchCall _ => True | _ => False end)
         (searches sent).
Proof.
  unfold searches. apply Forall_forall. intros call Hcall.
  apply list_elem_of_omap in Hcall as (r & _ & Hr). by destruct r; simplify_eq.
Qed.

Lemma step_keeps_unique props s ev :
  server_ok s ev -> ids_unique s -> ids_unique (step props s ev).
Proof.
  intros Hok [Hnd Hcalls]. unfold ids_unique. destruct ev; simpl in *.
  - split; [|done]. destruct resp as [[items|]|]; simpl; [done|constructor|done].
  - destruct (handleTextChange text field Rejected (page s)) as [st sent] eqn:Hh.
    simpl. split.
    + change st with (fst (st, sent)). rewrite <- Hh.
      by rewrite handleTextChange_comments.
    + apply Forall_app. split; [done|].
      eapply Forall_impl; [apply searches_are_searches|].
      intros call. by destruct call.
  - split; [|done]. by rewrite insertMention_comments.
  - done.
  - destruct (submit_clicked _ _ parentCommentId (page s)) as [st sent] eqn:Hh.
    simpl. split.
    + change st with (fst (st, sent)). rewrite <- Hh.
      by rewrite submit_clicked_comments.
    + apply Forall_app. split; [done|]. destruct sent; by repeat constructor.
  - done.
  - done.
  - done.
  - done.
  - destruct (negb (truthy_str (trim (editText (page s))))); [done|]. simpl.
    split; [done|]. apply Forall_app. split; [done|]. by repeat constructor.
  - destruct confirmed; simpl; [|done].
    split; [done|]. apply Forall_app. split; [done|]. by repeat constructor.
  - unfold answered.
    destruct (calls s !! call) as [c|] eqn:Hcall; [|done].
    pose proof (Forall_lookup_1 _ _ _ _ Hcalls Hcall) as Hc.
    destruct c, answer; try done; simpl.
    + split; [by rewrite searchEmployees_comments|by apply Forall_delete].
    + destruct resp as [[]|]; simpl.
      * split; [done|]. by apply Forall_insert.
      * split; [done|]. by apply Forall_delete.
    + split; [|by apply Forall_delete].
      unfold submit_reloaded, loadComments.
      destruct resp as [[items|]|]; simpl;
        destruct (truthy_opt truthy_num parentCommentId); simpl;
        first [done|constructor].
    + split; [|by apply Forall_delete].
      unfold handleEditComment.
      destruct (negb (truthy_str (trim (editText closure)))); [done|].
      destruct resp as [data|]; simpl; [|done].
      rewrite patch_keeps_ids; [done|]. by apply (Hok commentId closure).
    + split; [|by apply Forall_delete].
      destruct resp; simpl; [|done].
      eapply sublist_NoDup; [exact Hc|].
      apply (fmap_sublist comment_id), sublist_filter.
Qed.

Lemma run_keeps_unique props evs s :
  served props evs s -> ids_unique s -> ids_unique (run props evs s).
Proof.
  unfold run. revert s. induction evs as [|ev evs IH]; intros s Hok Hs; [done|].
  destruct Hok as [Hev Hevs]. simpl. apply IH; [done|].
  by apply step_keeps_unique.
Qed.

(** X11.  The comment store keeps its ids unique.  Starting from the
    mounted component, after any sequence of loads, text changes, picks,
    submits, edits and deletes, their requests answered in any order and
    with any outcomes, the ids of the list are unique, provided the lists
    the server sends have unique ids and the record it returns for an edit
    has the id of the edited comment. *)
Theorem store_keeps_ids_unique (props : Props) (evs : list Event) :
  served props evs mounted ->
  NoDup (map comment_id (comments (page (run props evs mounted)))).
Proof.
  intros Hok.
  apply (run_keeps_unique props evs mounted Hok).
  split; constructor.
Qed.

Lemma store_keeps_ids_unique_witness :
  NoDup (map comment_id (comments (page (run (mkProps 12 (Some 7))
    [Loaded (Resolved (Some [sample 1 None; sample 2 (Some 1)]));
     EditStarted (sample 2 (Some 1));
     EditSaveClicked 2;
     DeleteClicked 1 true;
     Loaded (Resolved (Some [sample 1 None; sample 2 (Some 1); sample 3 None]));
     Answered 1 (Deleted (Resolved tt));
     Answered 0 (Patched (Resolved (sample 2 (Some 1))))] mounted)))).
Proof.
  apply store_keeps_ids_unique. simpl.
  repeat split; try by_computation.
  intros commentId closure Hcall. vm_compute in Hcall. by injection Hcall as <- _.
Defined.

Lemma step_keeps_error props s ev :
  is_submit ev = false -> is_Some (error (page s)) ->
  is_Some (error (page (step props s ev))).
Proof.
  intros Hev Herr. destruct ev; simpl in *; try done.
  - destruct resp; simpl; [done|eauto].
  - destruct (handleTextChange text field Rejected (page s)) as [st sent] eqn:Hh.
    simpl. change st with (fst (st, sent)). rewrite <- Hh.
    unfold handleTextChange.
    repeat case_match; unfold searchEmployees; repeat case_match;
      by destruct field.
  - unfold insertMention. destruct (activeMentionField (page s)) as [f|]; [|done].
    simpl. by destruct f.
  - destruct (negb (truthy_str (trim (editText (page s))))); done.
  - by destruct confirmed.
  - unfold answered. destruct (calls s !! call) as [c|]; [|done].
    destruct c, answer; try done; simpl.
    + unfold searchEmployees. by repeat case_match.
    + destruct resp as [[]|]; simpl; [done|eauto].
    + unfold submit_reloaded, loadComments.
      destruct resp as [items|]; simpl;
        destruct (truthy_opt truthy_num parentCommentId); simpl; eauto.
    + unfold handleEditComment. repeat case_match; simpl; eauto.
    + destruct resp; simpl; eauto.
Qed.

(** X12.  An error message stays until the next submit: no load (not even
    a successful one), text change, pick, reply, edit or delete, and no
    answer to a request, whenever it arrives, removes the message once it
    is set.  Only the click that starts a submit clears it. *)
Theorem error_stays_until_submit (props : Props) (evs : list Event) (s : Sys) :
  existsb is_submit evs = false ->
  is_Some (error (page s)) ->
  is_Some (error (page (run props evs s))).
Proof.
  unfold run. revert s. induction evs as [|ev evs IH]; intros s Hev Herr; [done|].
  simpl in Hev. apply orb_false_iff in Hev as [Hev Hevs].
  simpl. apply IH; [done|]. by apply step_keeps_error.
Qed.

Lemma error_stays_until_submit_witness :
  error (page (run (mkProps 12 (Some 7))
                 [Loaded Rejected; Loaded (Resolved (Some [sample 1 None]))] mounted))
  = Some (js "Failed to load comments").
Proof.
  destruct (error_stays_until_submit (mkProps 12 (Some 7))
              [Loaded (Resolved (Some [sample 1 None]))]
              (step (mkProps 12 (Some 7)) mounted (Loaded Rejected)))
    as [msg Hmsg]; [reflexivity|by eexists|].
  reflexivity.
Defined.

(** X23.  The list of comments changes only when the server has
    answered with success: a text change, a pick, a reply or edit that is
    started or cancelled, a click on Save or Delete, and every answer that
    is a failure (load, submit, reload after a submit, edit, delete) leave
    the list as it was.  A failed load does not empty it. *)
Theorem list_changes_only_on_success (props : Props) (evs : list Event) (s : Sys) :
  existsb brings_list evs = false ->
  comments (page (run props evs s)) = comments (page s).
Proof.
  unfold run. revert s. induction evs as [|ev evs IH]; intros s Hevs; [done|].
  simpl in Hevs. apply orb_false_iff in Hevs as [Hev Hevs].
  simpl. rewrite IH by done. clear IH Hevs.
  destruct ev; simpl in *.
  - by destruct resp.
  - destruct (handleTextChange text field Rejected (page s)) as [st sent] eqn:Hh.
    simpl. change st with (fst (st, sent)). rewrite <- Hh.
    apply handleTextChange_comments.
  - apply insertMention_comments.
  - done.
  - destruct (submit_clicked _ _ parentCommentId (page s)) as [st sent] eqn:Hh.
    simpl. change st with (fst (st, sent)). rewrite <- Hh.
    apply submit_clicked_comments.
  - done.
  - done.
  - done.
  - done.
  - by destruct (negb (truthy_str (trim (editText (page s))))).
  - by destruct confirmed.
  - unfold answered. destruct (calls s !! call) as [c|]; [|done].
    destruct c, answer; try done; simpl.
    + apply searchEmployees_comments.
    + by destruct resp as [[]|].
    + destruct resp; [done|]. unfold submit_reloaded. simpl.
      by destruct (truthy_opt truthy_num parentCommentId).
    + destruct resp; [done|]. unfold handleEditComment. by repeat case_match.
    + by destruct resp.
Qed.

Lemma list_changes_only_on_success_witness :
  comments (page (run (mkProps 12 (Some 7))
              [Loaded Rejected; DeleteClicked 1 false; EditSaveClicked 1;
               Answered 0 (Patched Rejected)]
              (at_rest (editing [sample 1 None] 1 (js "x")))))
  = [sample 1 None].
Proof.
  apply (list_changes_only_on_success (mkProps 12 (Some 7))
           [Loaded Rejected; DeleteClicked 1 false; EditSaveClicked 1;
            Answered 0 (Patched Rejected)]
           (at_rest (editing [sample 1 None] 1 (js "x")))).
  reflexivity.
Defined.

End MentionsAndStore.

(* ===================================================================== *)
(** ** More on the reaction toggle *)
(* ===================================================================== *)

Section ReactionCycle.

Import CommentReactions.

Lemma unload_load (w : Widget) :
  loading w = false -> setLoading false (setLoading true w) = w.
Proof. destruct w. simpl. by intros ->. Qed.

Lemma last_task (ts : list Task) t : (ts ++ [t]) !! length ts = Some t.
Proof. by rewrite list_lookup_middle. Qed.

(** X13.  A toggle the server rejects leaves the page exactly as it was
    before the click: counts, own reactions and picker untouched, the
    buttons enabled again, no call left. *)
Theorem rejected_toggle_restores (c : Z) (e : jsstring) (s : Sys) (w : Widget) :
  widgets s !! c = Some w -> loading w = false ->
  fire (Settle (length (tasks s)) Failed) (fire (Click c e) s) = s.
Proof.
  intros Hw Hl. simpl. unfold toggleReaction. rewrite Hw, Hl.
  unfold resume. simpl. rewrite last_task. unfold finish, write. simpl.
  rewrite Nat.eqb_refl.
  rewrite alter_insert_eq, unload_load, insert_id by done.
  replace (delete (length (tasks s))
             (tasks s ++ [{| t_render := render s; t_comment := c;
                             t_toggle := true; t_at := AwaitPost e |}]))
    with (tasks s) by (by rewrite delete_middle, app_nil_r).
  by destruct s.
Qed.

Lemma rejected_toggle_restores_witness :
  let s := init {[ 5 := [([55357; 56397]%N, 2)] ]} (UserValue (Some 7)) in
  fire (Settle 1 Failed) (fire (Click 5 [55357; 56397]%N) s) = s.
Proof.
  intros s.
  apply (rejected_toggle_restores 5 [55357; 56397]%N s
           (mount [([55357; 56397]%N, 2)])); reflexivity.
Defined.

(** X14.  The buttons of a mounted widget are disabled exactly while one
    of its own calls of [toggleReaction] is under way.  In every state the
    widgets can reach, through clicks, renders of the comment list and
    requests that settle in any order: no mounted widget has two such
    calls; a mounted widget is loading if and only if it has one; a click
    on a widget that has one changes nothing; and when no mounted widget
    has one, no widget is disabled.  (The calls of a widget that has been
    unmounted do not count: its successor is mounted not loading.) *)
Theorem disabled_iff_busy (shown : gmap Z (list (jsstring * Z)))
        (user : StoredUser) (evs : list Event) :
  let s := run evs (init shown user) in
  NoDup (busy s) /\
  (forall c w, widgets s !! c = Some w -> (loading w = true <-> c ∈ busy s)) /\
  (forall c e, c ∈ busy s -> fire (Click c e) s = s) /\
  (busy s = [] -> forall c w, widgets s !! c = Some w -> loading w = false).
Proof.
  intros s.
  assert (guarded s) as (Hnd & Hbusy & Hload & _)
    by (apply guarded_run, guarded_init).
  assert (forall c w, widgets s !! c = Some w -> (loading w = true <-> c ∈ busy s))
    as Hiff.
  { intros c w Hw. split; [by apply Hload|].
    intros Hc. apply Hbusy in Hc. rewrite Hw in Hc. by injection Hc. }
  split; [done|]. split; [done|]. split.
  - intros c e Hc. simpl. unfold toggleReaction.
    specialize (Hbusy c Hc).
    destruct (widgets s !! c) as [w|]; [|done].
    simpl in Hbusy. injection Hbusy as ->. done.
  - intros Hnone c w Hw. destruct (loading w) eqn:Hl; [|done].
    apply (Hiff c w Hw) in Hl. rewrite Hnone in Hl.
    by apply elem_of_nil in Hl.
Qed.

Lemma disabled_iff_busy_witness :
  let s := run [Click 5 []; Settle 1 PostDone; Rendered {[ 5 := [] ]};
                Settle 1 Failed]
               (init {[ 5 := [] ]} UserNull) in
  exists w, widgets s !! 5 = Some w /\ loading w = false.
Proof.
  intros s.
  destruct (disabled_iff_busy {[ 5 := [] ]} UserNull
              [Click 5 []; Settle 1 PostDone; Rendered {[ 5 := [] ]};
               Settle 1 Failed]) as (_ & _ & _ & H).
  eexists. split; [reflexivity|].
  eapply (H eq_refl 5). reflexivity.
Defined.

Lemma Set_add_all_spec l set :
  NoDup set ->
  NoDup (Set_add_all set l) /\
  forall x, x ∈ Set_add_all set l <-> x ∈ set \/ x ∈ l.
Proof.
  revert set. induction l as [|y l IH]; intros set Hnd; simpl.
  - split; [done|]. intros x. rewrite elem_of_nil. tauto.
  - destruct (decide (y ∈ set)) as [Hy|Hy].
    + destruct (IH set Hnd) as [Hnd' Hin]. split; [done|].
      intros x. rewrite Hin, elem_of_cons. split; [tauto|].
      intros [Hx|[->|Hx]]; tauto.
    + assert (NoDup (set ++ [y])) as Hnd1.
      { apply NoDup_app. split; [done|]. split; [|apply NoDup_singleton].
        intros x Hx Hx'. by apply list_elem_of_singleton in Hx' as ->. }
      destruct (IH _ Hnd1) as [Hnd' Hin]. split; [done|].
      intros x. rewrite Hin, elem_of_app, list_elem_of_singleton, elem_of_cons.
      tauto.
Qed.

(** X15.  A toggle that goes through: after the click, the [POST], the
    summary and the own reactions have all succeeded with no other event
    in between, the widget shows the counts the server sent, the picker is
    closed, the buttons are enabled, and the other widgets and calls are
    as before.  Its own reactions are the emojis of the rows of the stored
    user, each once; but when the local storage holds [null] and there is
    a row, the filter throws, the own reactions stay what they were, and
    the call ends as above all the same. *)
Theorem successful_toggle (c : Z) (e : jsstring) (s : Sys) (w : Widget)
        (counts : list (jsstring * Z)) (data : list Reaction) :
  widgets s !! c = Some w -> loading w = false ->
  let i := length (tasks s) in
  let s' := run [Click c e; Settle i PostDone; Settle i (SummaryDone (Some counts));
                 Settle i (UserReactionsDone data)] s in
  exists w',
    s' = {| render := render s; widgets := <[c := w']> (widgets s);
            tasks := tasks s; storedUser := storedUser s |} /\
    reactions w' = counts /\ showPicker w' = false /\ loading w' = false /\
    (storedUser s = UserNull -> data <> [] -> userReactions w' = userReactions w) /\
    (storedUser s <> UserNull \/ data = [] ->
     NoDup (userReactions w') /\
     forall x, x ∈ userReactions w' <->
       exists id r, storedUser s = UserValue (Some id) /\ r ∈ data /\
                    r_employee_id r = id /\ r_emoji r = x).
Proof.
  intros Hw Hl i s'. subst s' i. simpl. unfold toggleReaction. rewrite Hw, Hl.
  unfold resume at 3. simpl. rewrite last_task.
  unfold resume at 2. simpl.
  rewrite list_lookup_insert_eq by (rewrite length_app; simpl; lia).
  unfold resume. simpl.
  rewrite list_insert_insert_eq.
  rewrite list_lookup_insert_eq by (rewrite length_app; simpl; lia).
  unfold finish, write. simpl. rewrite Nat.eqb_refl.
  replace (delete (length (tasks s))
             (<[length (tasks s) :=
                  at_ AwaitUserReactions
                    (at_ AwaitSummary
                       {| t_render := render s; t_comment := c; t_toggle := true;
                          t_at := AwaitPost e |})]>
                (tasks s ++ [{| t_render := render s; t_comment := c;
                                t_toggle := true; t_at := AwaitPost e |}])))
    with (tasks s).
  2:{ replace (length (tasks s)) with (length (tasks s) + 0)%nat at 2 by lia.
      rewrite insert_app_r. simpl. by rewrite delete_middle, app_nil_r. }
  destruct (myReactions (storedUser s) data) as [mine|] eqn:Hmine.
  - rewrite !alter_insert_eq.
    eexists. split; [reflexivity|]. simpl.
    split; [done|]. split; [done|]. split; [done|].
    destruct (Set_add_all_spec mine [] (NoDup_nil_2)) as [Hnd Hin].
    split.
    + intros Hnull Hdata. rewrite Hnull in Hmine. by destruct data.
    + intros _. split; [exact Hnd|].
      intros x. unfold new_Set. rewrite Hin, elem_of_nil.
      unfold myReactions in Hmine.
      destruct (storedUser s) as [|employee_id] eqn:Hu.
      * destruct data; [|done]. injection Hmine as <-. split.
        -- intros [[]|Hx]. by apply elem_of_nil in Hx.
        -- by intros (id & r & Hid & _).
      * injection Hmine as <-.
        change (map r_emoji ?l) with (r_emoji <$> l).
        rewrite list_elem_of_fmap. split.
        -- intros [[]|(r & -> & Hr)].
           apply list_elem_of_In, filter_In in Hr as [Hr Hid].
           destruct employee_id as [id|]; [|done].
           apply Z.eqb_eq in Hid. exists id, r.
           split; [done|]. split; [by apply list_elem_of_In|done].
        -- intros (id & r & [= ->] & Hr & Hid & <-). right. exists r.
           split; [done|].
           apply list_elem_of_In, filter_In. split; [by apply list_elem_of_In|].
           by apply Z.eqb_eq.
  - rewrite !alter_insert_eq.
    eexists. split; [reflexivity|]. simpl.
    split; [done|]. split; [done|]. split; [done|].
    unfold myReactions in Hmine.
    destruct (storedUser s) as [|employee_id]; [|done].
    destruct data; [done|]. split; [done|].
    intros [Hu|Hd]; done.
Qed.

Lemma successful_toggle_witness :
  let thumb : jsstring := [55357; 56397]%N in
  let s := init {[ 5 := [] ]} UserNull in
  let s' := run [Click 5 thumb; Settle 1 PostDone;
                 Settle 1 (SummaryDone (Some [(thumb, 1)]));
                 Settle 1 (UserReactionsDone [mkReaction 7 thumb])] s in
  exists w', widgets s' !! 5 = Some w' /\ reactions w' = [(thumb, 1)] /\
             loading w' = false /\ userReactions w' = [].
Proof.
  intros thumb s s'.
  destruct (successful_toggle 5 thumb s (mount []) [(thumb, 1)]
              [mkReaction 7 thumb]) as (w' & Hs' & Hr & _ & Hl & Hnull & _);
    [reflexivity|reflexivity|].
  exists w'. split; [|split; [done|split; [done|]]].
  - change s' with (run [Click 5 thumb; Settle (length (tasks s)) PostDone;
                         Settle (length (tasks s)) (SummaryDone (Some [(thumb, 1)]));
                         Settle (length (tasks s)) (UserReactionsDone [mkReaction 7 thumb])] s).
    rewrite Hs'. simpl. apply lookup_insert_eq.
  - by apply Hnull.
Defined.

End ReactionCycle.

(* ===================================================================== *)
(** ** More on the QA workflow panel *)
(* ===================================================================== *)

Section QAPanel.

Import QASection.

Ltac open_handle :=
  unfold clicked, answered, handle, handleStatusChange, handleAssign,
    handleChecklistChange, handleSaveNotes, handleFieldBlur,
    handleOverallResultChange, settle, settle_no_rollback, run;
  simpl.

(** What a handler does up to its call does not depend on the answer. *)
Lemma clicked_any_answer props ev now persist st :
  until_call (handle props ev now persist st) = clicked props ev now st.
Proof. by destruct ev. Qed.

(** [step] is the handler run to its end on one and the same state. *)
Lemma step_runs_handler props now persist st ev :
  step props now persist st ev = run (handle props ev now persist st) st.
Proof.
  unfold step, fire, at_rest. destruct ev; open_handle;
    destruct persist, (onUpdate props); reflexivity.
Qed.

(** When a call is answered the data shown stay what they are, or become
    what the call found when it started. *)
Lemma answered_shows props c persist st :
  qaData (run (answered props c persist) st) = qaData st \/
  qaData (run (answered props c persist) st) = qaData (c_closure c).
Proof.
  destruct c as [ev now closure]. destruct ev; open_handle;
    destruct persist, (onUpdate props); simpl; auto.
Qed.

Lemma fire_holds props (P : QAData -> Prop) s a :
  (forall ev now, a = Act ev now ->
     P (qaData (run (clicked props ev now (page s)) (page s)))) ->
  brings P a -> holds P s -> holds P (fire props s a).
Proof.
  intros Hclick Hbrings [Hshown Hcalls]. destruct a as [ev now|i persist|d]; simpl.
  - split; [by apply Hclick|]. simpl.
    apply Forall_app. split; [done|].
    destruct (sent _); by repeat constructor.
  - destruct (calls s !! i) as [c|] eqn:Hc; [|done]. split; simpl.
    + destruct (answered_shows props c persist (page s)) as [-> | ->]; [done|].
      by apply (Forall_lookup_1 _ _ _ _ Hcalls Hc).
    + by apply Forall_delete.
  - done.
Qed.

Lemma play_holds props (P : QAData -> Prop) acts s :
  (forall st ev now, Act ev now ∈ acts -> P (qaData st) ->
     P (qaData (run (clicked props ev now st) st))) ->
  Forall (brings P) acts -> holds P s -> holds P (play props acts s).
Proof.
  unfold play. revert s. induction acts as [|a acts IH]; intros s Hclick Hb Hs;
    [done|].
  apply Forall_cons in Hb as [Ha Hb]. simpl. apply IH; [|done|].
  - intros st ev now Hin. apply Hclick. by apply elem_of_cons; right.
  - apply fire_holds; [|done|done].
    intros ev now ->. apply Hclick; [by apply elem_of_cons; left|].
    by destruct Hs.
Qed.

Lemma click_started props ev now st d :
  d <> [] -> qa_started_date (qaData st) = Some d ->
  qa_started_date (qaData (run (clicked props ev now st) st)) = Some d.
Proof.
  intros Hd Hs. destruct d as [|u d]; [done|].
  destruct ev; open_handle; try done; try (by destruct field).
  unfold status_updates. rewrite Hs. simpl. by repeat case_bool_decide.
Qed.

Lemma click_completed props ev now st :
  qa_completed (qaData st) = true ->
  qa_completed (qaData (run (clicked props ev now st) st)) = true.
Proof.
  intros Hc. destruct ev; open_handle; try done; try (by destruct field).
  unfold status_updates. simpl. by repeat case_bool_decide; repeat case_match.
Qed.

Lemma click_completed_date props ev now st :
  is_Some (qa_completed_date (qaData st)) ->
  is_Some (qa_completed_date (qaData (run (clicked props ev now st) st))).
Proof.
  intros Hc. destruct ev; open_handle; try done; try (by destruct field).
  unfold status_updates. simpl.
  repeat case_bool_decide; repeat case_match; simpl; eauto.
Qed.

(** X16.  The handlers never take a stamp back.  Suppose the data shown
    and the data that every call under way found when it started carry a
    started timestamp (or a true completed flag, or a completion
    timestamp), and so do the data of every new amendment the parent
    passes.  Then after any session, clicks and answers in any order and
    whatever the answers, the data shown carry it still: the same started
    timestamp; the completed flag, also when the status is moved back from
    "Passed" or "Failed"; a completion timestamp.  This holds in particular
    from a panel at rest.  (The stamp a click sets while an older call is
    under way is not covered: when that call fails, its [catch] block puts
    back the data from before the stamp.) *)
Theorem stamps_are_kept (props : Props) (acts : list Action) (s : Sys) :
  (forall d, d <> [] ->
     holds (fun q => qa_started_date q = Some d) s ->
     Forall (brings (fun q => qa_started_date q = Some d)) acts ->
     holds (fun q => qa_started_date q = Some d) (play props acts s)) /\
  (holds (fun q => qa_completed q = true) s ->
   Forall (brings (fun q => qa_completed q = true)) acts ->
   holds (fun q => qa_completed q = true) (play props acts s)) /\
  (holds (fun q => is_Some (qa_completed_date q)) s ->
   Forall (brings (fun q => is_Some (qa_completed_date q))) acts ->
   holds (fun q => is_Some (qa_completed_date q)) (play props acts s)).
Proof.
  split; [|split].
  - intros d Hd Hs Hb. apply play_holds; [|done|done].
    intros st ev now _. by apply click_started.
  - intros Hs Hb. apply play_holds; [|done|done].
    intros st ev now _. apply click_completed.
  - intros Hs Hb. apply play_holds; [|done|done].
    intros st ev now _. apply click_completed_date.
Qed.

Lemma stamps_are_kept_witness :
  let props := mkProps 12 true in
  let passed := step props (js "2026-01-05T10:00:00.000Z") (Resolved tt) blank_state
                  (StatusButton (js "Passed")) in
  let s := play props
             [Act (StatusButton (js "In Testing")) (js "2026-01-06T09:00:00.000Z");
              Act (StatusButton (js "Blocked")) (js "2026-01-06T09:00:01.000Z");
              Answered 0 Rejected;
              Answered 0 (Resolved tt)]
             (at_rest passed) in
  qa_status (qaData (page s)) = js "Passed" /\
  qa_completed (qaData (page s)) = true.
Proof.
  intros props passed s. split; [reflexivity|].
  destruct (stamps_are_kept props
              [Act (StatusButton (js "In Testing")) (js "2026-01-06T09:00:00.000Z");
               Act (StatusButton (js "Blocked")) (js "2026-01-06T09:00:01.000Z");
               Answered 0 Rejected;
               Answered 0 (Resolved tt)]
              (at_rest passed)) as (_ & H & _).
  apply H.
  - split; [reflexivity|constructor].
  - repeat constructor.
Defined.

(** X17.  Every event sends at most one persistence call, to the
    amendment of the props, and its payload is the QA data shown right
    after the click.  When the call is answered with success, whatever the
    panel shows by then, the handler writes nothing more and tells the
    parent that same payload, if it gave a callback. *)
Theorem shown_is_what_was_sent (props : Props) (ev : Event) (now : jsstring)
        (st : State) :
  (length (sent (clicked props ev now st)) <= 1)%nat /\
  (forall id payload,
     (id, payload) ∈ sent (clicked props ev now st) ->
     id = amendment_id props /\
     qaData (run (clicked props ev now st) st) = payload /\
     (forall st', run (answered props (mkCall ev now st) (Resolved tt)) st' = st') /\
     (onUpdate props = true ->
        answered props (mkCall ev now st) (Resolved tt) = [OnUpdate payload])).
Proof.
  split.
  - destruct ev; open_handle; lia.
  - intros id payload.
    destruct ev; open_handle; intros Hin;
      try (by apply elem_of_nil in Hin);
      apply list_elem_of_singleton in Hin; injection Hin as -> ->;
      (split; [done|]); (split; [done|]);
      (split; [intros st'; by destruct (onUpdate props)|]);
      by intros ->.
Qed.

Lemma shown_is_what_was_sent_witness :
  let props := mkProps 12 true in
  let s1 := fire props (at_rest blank_state) (Act (ChecklistToggled TestPlanCheck) []) in
  exists payload,
    sent (clicked props (ChecklistToggled TestPlanCheck) [] blank_state)
      = [(12, payload)] /\
    qaData (page s1) = payload /\
    page (fire props s1 (Answered 0 (Resolved tt))) = page s1.
Proof.
  intros props s1. eexists. split; [reflexivity|].
  destruct (shown_is_what_was_sent props (ChecklistToggled TestPlanCheck) []
              blank_state) as [_ H].
  destruct (H 12 (with_qa_test_plan_check true blank)) as (_ & Hshown & Hkeeps & _).
  - simpl. by apply elem_of_cons; left.
  - split; [exact Hshown|]. apply (Hkeeps (page s1)).
Defined.

(** X18.  The checklist: the percentage shown is 50 for each box that is
    ticked; toggling a box changes the local percentage by exactly 50,
    up or down; toggling the same box twice, both calls succeeding, gives
    back the QA data there was. *)
Theorem checklist_toggle (props : Props) (now1 now2 : jsstring)
        (field : ChecklistField) (st : State) :
  let st1 := step props now1 (Resolved tt) st (ChecklistToggled field) in
  let st2 := step props now2 (Resolved tt) st1 (ChecklistToggled field) in
  completionPercentage (qaData st) = 50 * checks_done (qaData st) /\
  Z.abs (completionPercentage (qaData st1) - completionPercentage (qaData st)) = 50 /\
  qaData st2 = qaData st.
Proof.
  simpl. rewrite !step_runs_handler. destruct st as [[] ? ? ?].
  unfold completionPercentage, checks_done.
  destruct field, (onUpdate props) eqn:Hon; open_handle; rewrite ?Hon; simpl;
    destruct qa_test_plan_check0, qa_test_release_notes_check0; simpl; done.
Qed.

Lemma status_updates_status qaData now newStatus :
  qa_status (status_updates qaData now newStatus) = newStatus.
Proof. unfold status_updates. by repeat case_match. Qed.

Lemma click_status props ev now st :
  from_panel (Act ev now) ->
  qa_status (qaData st) <> js "Not Started" ->
  qa_status (qaData (run (clicked props ev now st) st)) <> js "Not Started".
Proof.
  intros Hev Hst. destruct ev; open_handle; try done; try (by destruct field).
  - rewrite status_updates_status. intros ->. revert Hev.
    change (js "Not Started" ∉ status_buttons). by_computation.
  - by case_bool_decide.
Qed.

(** X19.  "Not Started" is left for good by the handlers.  An assignment
    from a panel at rest that the server accepts leaves a status other
    than "Not Started", shown and with no call under way.  And whenever the
    data shown and the data that every call under way found when it
    started have a status other than "Not Started", and so have the data
    of every new amendment, no session of the panel, clicks and answers in
    any order and whatever the answers, shows "Not Started" again.  (A call
    that started while "Not Started" was shown is not covered: when it
    fails, its [catch] block puts "Not Started" back.) *)
Theorem not_started_is_left_for_good (props : Props) (acts : list Action)
        (st : State) (s : Sys) :
  (forall now employeeId,
     holds (fun q => qa_status q <> js "Not Started")
       (play props [Act (EmployeeChosen employeeId) now; Answered 0 (Resolved tt)]
          (at_rest st))) /\
  (Forall from_panel acts ->
   Forall (brings (fun q => qa_status q <> js "Not Started")) acts ->
   holds (fun q => qa_status q <> js "Not Started") s ->
   holds (fun q => qa_status q <> js "Not Started") (play props acts s)).
Proof.
  split.
  - intros now employeeId. unfold play, holds. simpl. open_handle.
    split; [|constructor].
    destruct (onUpdate props); simpl; by case_bool_decide.
  - intros Hpanel Hb Hs. apply play_holds; [|done|done].
    intros st0 ev now Hin. apply click_status.
    by apply (proj1 (Forall_forall _ _) Hpanel).
Qed.

Lemma not_started_is_left_for_good_witness :
  let props := mkProps 12 true in
  let s := play props
             [Act (EmployeeChosen 7) (js "2026-01-05T10:00:00.000Z");
              Answered 0 (Resolved tt);
              Act (StatusButton (js "Blocked")) (js "2026-01-05T11:00:00.000Z");
              Act (StatusButton (js "In Testing")) (js "2026-01-05T11:00:01.000Z");
              Answered 0 Rejected]
             (at_rest blank_state) in
  qa_status (qaData (page s)) <> js "Not Started".
Proof.
  intros props s.
  destruct (not_started_is_left_for_good props
              [Act (StatusButton (js "Blocked")) (js "2026-01-05T11:00:00.000Z");
               Act (StatusButton (js "In Testing")) (js "2026-01-05T11:00:01.000Z");
               Answered 0 Rejected]
              blank_state
              (play props [Act (EmployeeChosen 7) (js "2026-01-05T10:00:00.000Z");
                           Answered 0 (Resolved tt)] (at_rest blank_state)))
    as [Hassign Hplay].
  apply Hplay.
  - repeat constructor; by_computation.
  - repeat constructor.
  - apply Hassign.
Defined.

End QAPanel.

(* ===================================================================== *)
(** ** The test plan link *)
(* ===================================================================== *)

Section TestPlanLink.

Import QASection.

Lemma matches_ci_lower p u : lower p = p -> (matches_ci p u = true <-> lower u = p).
Proof.
  unfold matches_ci, lower. intros Hp. split.
  - intros H. apply orb_true_iff in H as [H|H].
    + apply N.eqb_eq in H as ->. done.
    + apply andb_true_iff in H as [H Hu]. apply andb_true_iff in H as [H1 H2].
      apply N.eqb_eq in Hu as ->.
      apply N.leb_le in H1, H2.
      replace ((65 <=? p - 32) && (p - 32 <=? 90))%N with true; [lia|].
      symmetry. apply andb_true_iff. split; apply N.leb_le; lia.
  - intros Hu.
    destruct ((65 <=? u) && (u <=? 90))%N eqn:Hup.
    + apply andb_true_iff in Hup as [H1 H2]. apply N.leb_le in H1, H2.
      apply orb_true_iff. right.
      repeat (apply andb_true_iff; split);
        [apply N.leb_le; lia|apply N.leb_le; lia|apply N.eqb_eq; lia].
    + apply orb_true_iff. left. by apply N.eqb_eq.
Qed.

Lemma strip_ci_spec pattern s rest :
  Forall (fun p => lower p = p) pattern ->
  strip_ci pattern s = Some rest <->
  exists pre, s = pre ++ rest /\ map lower pre = pattern.
Proof.
  intros Hpat. revert s. induction Hpat as [|p pattern Hp _ IH]; intros s.
  - simpl. split.
    + intros [= ->]. by exists [].
    + intros ([|? ?] & -> & Hpre); [done|discriminate].
  - destruct s as [|u s]; simpl.
    + split; [done|]. intros ([|? ?] & Hs & Hpre); discriminate.
    + destruct (matches_ci p u) eqn:Hm.
      * apply (matches_ci_lower p u Hp) in Hm. rewrite IH. split.
        -- intros (pre & -> & <-). exists (u :: pre). by rewrite <- Hm.
        -- intros ([|v pre] & Hs & Hpre); [discriminate|].
           simpl in *. injection Hs as -> ->. injection Hpre as _ Hpre. by exists pre.
      * split; [done|]. intros ([|v pre] & Hs & Hpre); [discriminate|].
        simpl in *. injection Hs as <- ->. injection Hpre as Hv _.
        apply (matches_ci_lower p u Hp) in Hv. congruence.
Qed.

Lemma lower_not_letter u p :
  lower u = p -> (p < 97 \/ 122 < p)%N -> u = p.
Proof.
  unfold lower. destruct ((65 <=? u) && (u <=? 90))%N eqn:Hup; [|done].
  apply andb_true_iff in Hup as [H1 H2]. apply N.leb_le in H1, H2. lia.
Qed.

Lemma lower_fixes_separator pre : map lower pre = js "://" -> pre = js "://".
Proof.
  destruct pre as [|a [|b [|c [|? ?]]]]; try discriminate.
  intros [= Ha Hb Hc].
  apply lower_not_letter in Ha as ->; [|lia].
  apply lower_not_letter in Hb as ->; [|lia].
  apply lower_not_letter in Hc as ->; [|lia].
  reflexivity.
Qed.

Lemma starts_ci_separator s :
  starts_ci (js "://") s = true <-> exists rest, s = js "://" ++ rest.
Proof.
  unfold starts_ci. split.
  - destruct (strip_ci (js "://") s) as [rest|] eqn:Hs; [|done]. intros _.
    apply strip_ci_spec in Hs as (pre & -> & Hpre); [|by repeat constructor].
    apply lower_fixes_separator in Hpre as ->. by exists rest.
  - intros [rest ->].
    assert (strip_ci (js "://") (js "://" ++ rest) = Some rest) as ->; [|done].
    apply strip_ci_spec; [by repeat constructor|]. by exists (js "://").
Qed.

(** X20.  The test plan link is used as [href] only when it begins with
    "http://" or "https://", in any letter case; every other link, a
    "javascript:" link for one, gets the [href] "#". *)
Theorem href_is_http_or_hash (qaData : QAData) :
  let link := qa_test_plan_link qaData in
  ((exists scheme rest,
      link = scheme ++ js "://" ++ rest /\
      (map lower scheme = js "http" \/ map lower scheme = js "https")) ->
   test_plan_href qaData = link) /\
  ((forall scheme rest,
      link = scheme ++ js "://" ++ rest ->
      map lower scheme <> js "http" /\ map lower scheme <> js "https") ->
   test_plan_href qaData = js "#").
Proof.
  simpl. unfold test_plan_href.
  assert (is_http (qa_test_plan_link qaData) = true <->
          exists scheme rest,
            qa_test_plan_link qaData = scheme ++ js "://" ++ rest /\
            (map lower scheme = js "http" \/ map lower scheme = js "https"))
    as Hiff.
  { generalize (qa_test_plan_link qaData). intros link. unfold is_http. split.
    - destruct (strip_ci (js "http") link) as [rest|] eqn:Hh; [|done].
      apply strip_ci_spec in Hh as (pre & -> & Hpre); [|by repeat constructor].
      assert (starts_ci (js "://") rest = true ->
              exists scheme rest0,
                pre ++ rest = scheme ++ js "://" ++ rest0 /\
                (map lower scheme = js "http" \/ map lower scheme = js "https"))
        as Hplain.
      { intros Hs. apply starts_ci_separator in Hs as [r ->].
        exists pre, r. split; [done|by left]. }
      destruct (strip_ci (js "s") rest) as [rest'|] eqn:Hs; [|done].
      apply strip_ci_spec in Hs as (s1 & -> & Hs1); [|by repeat constructor].
      intros H. apply orb_true_iff in H as [H|H]; [|by apply Hplain].
      apply starts_ci_separator in H as [r ->].
      exists (pre ++ s1), r. split; [by rewrite <- app_assoc|].
      right. by rewrite map_app, Hpre, Hs1.
    - intros (scheme & rest & -> & [Hs|Hs]).
      + assert (strip_ci (js "http") (scheme ++ js "://" ++ rest)
                = Some (js "://" ++ rest)) as ->.
        { apply strip_ci_spec; [by repeat constructor|]. by exists scheme. }
        reflexivity.
      + destruct scheme as [|a [|b [|c [|d [|e [|? ?]]]]]]; try discriminate.
        injection Hs as Ha Hb Hc Hd He.
        assert (strip_ci (js "http") ([a; b; c; d; e] ++ js "://" ++ rest)
                = Some (e :: js "://" ++ rest)) as ->.
        { apply strip_ci_spec; [by repeat constructor|].
          exists [a; b; c; d]. split; [done|]. simpl. by rewrite Ha, Hb, Hc, Hd. }
        assert (strip_ci (js "s") (e :: js "://" ++ rest) = Some (js "://" ++ rest))
          as ->.
        { apply strip_ci_spec; [by repeat constructor|].
          exists [e]. split; [done|]. simpl. by rewrite He. }
        reflexivity. }
  split.
  - intros H. apply Hiff in H. by rewrite H.
  - intros H. destruct (is_http (qa_test_plan_link qaData)); [|done].
    destruct (proj1 Hiff eq_refl) as (scheme & rest & Hl & Hs).
    destruct (H scheme rest Hl) as [H1 H2]. by destruct Hs.
Qed.

Lemma href_is_http_or_hash_witness :
  test_plan_href (with_qa_test_plan_link (js "HTTPS://wiki/plan") blank)
    = js "HTTPS://wiki/plan".
Proof.
  destruct (href_is_http_or_hash
              (with_qa_test_plan_link (js "HTTPS://wiki/plan") blank)) as [H _].
  apply H. exists (js "HTTPS"), (js "wiki/plan"). split; [reflexivity|].
  right. reflexivity.
Defined.

End TestPlanLink.

(* ===================================================================== *)
(** ** The watch button *)
(* ===================================================================== *)

Section Watching.

Import WatcherButton.

Lemma consistent_fire ev s : consistent s -> consistent (fire ev s).
Proof.
  intros Hs. pose proof Hs as (Hcount & Hone & Hload).
  assert (forall i a, calls s !! i = Some a -> calls s = [a] /\ i = 0%nat) as Honly.
  { intros i a. clear Hload. revert Hone.
    destruct (calls s) as [|b [|c l]]; simpl; intros Hone Hi; [done| |lia].
    destruct i; [by injection Hi as ->|done]. }
  destruct ev as [|call outcome|[b|]|[data|]| |]; simpl; try done.
  - unfold toggleWatch. destruct (loading (button s)) eqn:Hl; [done|].
    assert (calls s = []) as ->.
    { destruct (calls s) eqn:Hc; [reflexivity|]. exfalso.
      assert (false = true) as Habs; [|done].
      apply Hload. try rewrite Hc. done. }
    unfold consistent. simpl. repeat split; try done; lia.
  - unfold resume. destruct (calls s !! call) as [a|] eqn:Hc; [|done].
    destruct (Honly _ _ Hc) as [Hcalls ->].
    destruct a, outcome; try done; rewrite Hcalls; unfold consistent; simpl;
      repeat split; try done; try lia; try (by intros _; apply Hload; rewrite Hcalls).
Qed.

(** X21.  In every state the watch button reaches, through clicks, request
    outcomes and the loads of the mount effect in any order: the count
    shown is the number of watchers held, at most one call of
    [toggleWatch] is under way, and the button is disabled exactly while
    one is. *)
Theorem watch_button_consistent (evs : list Event) :
  let s := run evs init in
  watcherCount (button s) = Z.of_nat (length (watchers (button s))) /\
  (length (calls s) <= 1)%nat /\
  (loading (button s) = true <-> calls s <> []).
Proof.
  simpl. change (consistent (run evs init)).
  assert (consistent init) as Hinit by (repeat split; simpl; [lia|done|done]).
  revert Hinit. generalize init. unfold run.
  induction evs as [|ev evs IH]; intros s Hs; [done|].
  simpl. apply IH. by apply consistent_fire.
Qed.

(** X22.  One toggle of the watch button, from rest.  If the request
    fails, the state is exactly what it was.  If it succeeds and the
    watchers are loaded, the watching flag is flipped and the list and the
    count are those loaded.  If it succeeds and loading the watchers
    fails, the flag is flipped and the list and the count are the old
    ones.  While the call is under way a click changes nothing. *)
Theorem watch_toggle_outcomes (st : State) (data : list Watcher) :
  loading st = false ->
  let s := {| button := st; calls := [] |} in
  run [Click; Settle 0 Failed] s = s /\
  run [Click; Settle 0 Done; Settle 0 (WatchersDone data)] s
    = {| button := setWatcherCount (Z.of_nat (length data))
                     (setWatchers data (setIsWatching (negb (isWatching st)) st));
         calls := [] |} /\
  run [Click; Settle 0 Done; Settle 0 Failed] s
    = {| button := setIsWatching (negb (isWatching st)) st; calls := [] |} /\
  fire Click (fire Click s) = fire Click s.
Proof.
  intros Hl. destruct st as [w n l sh ws]. simpl in Hl. subst l.
  repeat split; destruct w; reflexivity.
Qed.

Lemma watch_toggle_outcomes_witness :
  run [Click; Settle 0 Done; Settle 0 Failed] init
  = {| button := setIsWatching true mounted; calls := [] |}.
Proof.
  destruct (watch_toggle_outcomes mounted []) as (_ & _ & H & _); [reflexivity|].
  exact H.
Defined.

End Watching.
